(** * local-dependency-forwarder: the forward supervisor (ForwardManager)

    A shallow embedding of [forwardManager.ts] and of the configuration types
    of [config.ts].

    Conventions of the embedding.
    - A JavaScript [number] that holds a port, a timestamp or an exit code is an
      integer [Z]; [numToString] is its template-literal rendering (plain
      decimal digits, which is what JavaScript prints for integers below 1e21).
    - A JavaScript [string] is a [string]; [===] on strings is [String.eqb].
    - A JavaScript [Map] is an association list in insertion order with
      pairwise distinct keys ([JsMap]): [set] on a present key keeps its place,
      [set] on an absent key appends, iteration follows the list.
    - A [ChildProcess] handle is the index of the [spawn] call that created it.
    - Everything the supervisor does to the outside is recorded in its state:
      lines appended to the output channel, [fire()] calls of the change
      emitter, [spawn] calls, [kill()] calls and port probes.
    - What the outside answers is an input ([World]): the clock, whether a
      port accepts a connection, a child's [exitCode], [fs.existsSync].
    - Every [async] method is run to completion: no other callback is
      interleaved at its [await] points. The listeners of a child are
      transitions of their own ([onExit], [onError]). The one [await] at
      which a listener decides what the method itself does next is the wait
      for the port in the [start] of the earlier generation; there the
      ['exit'] event of the child just launched is an argument of [start]. *)

From Stdlib Require Import List String Ascii ZArith Bool Lia Arith.
From Stdlib Require Import DecimalString.
Import ListNotations.

Open Scope list_scope.
Open Scope string_scope.

(** ** JavaScript helpers *)

(** [`${n}`] for an integer [n]. *)
Definition numToString (n : Z) : string :=
  NilZero.string_of_int (Z.to_int n).

(** [xs.join(sep)]. *)
Fixpoint join (sep : string) (xs : list string) : string :=
  match xs with
  | [] => EmptyString
  | [x] => x
  | x :: rest => x ++ sep ++ join sep rest
  end.

(** [Array.from(new Set(xs))]: first occurrences, in order. *)
Fixpoint uniqueInto {A} (eqb : A -> A -> bool) (seen xs : list A) : list A :=
  match xs with
  | [] => seen
  | x :: rest =>
      if existsb (eqb x) seen then uniqueInto eqb seen rest
      else uniqueInto eqb (seen ++ [x])%list rest
  end.

Definition unique {A} (eqb : A -> A -> bool) (xs : list A) : list A :=
  uniqueInto eqb [] xs.

(** ** [Map] in insertion order *)

Module JsMap.
Section WithKey.
Context {K V : Type}.
Variable eqb : K -> K -> bool.

Definition t := list (K * V).

Fixpoint get (k : K) (m : list (K * V)) : option V :=
  match m with
  | [] => None
  | (k', v) :: rest => if eqb k' k then Some v else get k rest
  end.

Definition has (k : K) (m : list (K * V)) : bool :=
  match get k m with Some _ => true | None => false end.

Fixpoint set (k : K) (v : V) (m : list (K * V)) : list (K * V) :=
  match m with
  | [] => [(k, v)]
  | (k', v') :: rest =>
      if eqb k' k then (k', v) :: rest else (k', v') :: set k v rest
  end.

Fixpoint delete (k : K) (m : list (K * V)) : list (K * V) :=
  match m with
  | [] => []
  | (k', v') :: rest =>
      if eqb k' k then delete k rest else (k', v') :: delete k rest
  end.

Definition keys (m : list (K * V)) : list K := map fst m.
Definition values (m : list (K * V)) : list V := map snd m.

End WithKey.
End JsMap.

(** ** Configuration ([config.ts]) *)

Inductive Kind := ssh | k8s.

Definition kindToString (k : Kind) : string :=
  match k with ssh => "ssh" | k8s => "k8s" end.

Module SshTunnel.
Record t := mk {
  id : string;
  title : string;
  localPort : Z;
  remoteHost : string;
  remotePort : Z;
  sshHost : string
}.
End SshTunnel.

Module K8sForward.
Record t := mk {
  id : string;
  title : string;
  namespace : string;
  serviceName : string;
  localPort : Z;
  remotePort : Z
}.
End K8sForward.

Module EnvironmentConfig.
Record t := mk {
  id : string;
  name : string;
  kubectlContext : option string;
  sshTunnels : list SshTunnel.t;
  k8sForwards : list K8sForward.t;
  sshAddKeys : option (list string)
}.
End EnvironmentConfig.

Module ForwardKey.
Record t := mk {
  envId : string;
  kind : Kind;
  id : string
}.
End ForwardKey.

(** [keyToId]: the registry index of a key. Both generations of the manager
    define it with the same body. *)
Definition keyToId (key : ForwardKey.t) : string :=
  ForwardKey.envId key ++ ":" ++ kindToString (ForwardKey.kind key) ++ ":"
    ++ ForwardKey.id key.

(** ** [validateConfigDuplicates], shared by both generations

    Both generations of the manager define the method with the same body; it
    reads [this.envs] only. [configDuplicates] is that body as a function of
    the environment list. *)

(** The local [add] closure: [seen.get(port) ?? []], [push], [seen.set]. *)
Definition add (port : Z) (label : string) (seen : list (Z * list string))
  : list (Z * list string) :=
  let list := match JsMap.get Z.eqb port seen with
              | Some l => l
              | None => []
              end in
  JsMap.set Z.eqb port (list ++ [label])%list seen.

(** The [seen] map of one environment after both [for] loops. *)
Definition seenPorts (env : EnvironmentConfig.t) : list (Z * list string) :=
  let seen :=
    fold_left (fun seen t => add (SshTunnel.localPort t) ("ssh:" ++ SshTunnel.id t) seen)
              (EnvironmentConfig.sshTunnels env) [] in
  fold_left (fun seen f => add (K8sForward.localPort f) ("k8s:" ++ K8sForward.id f) seen)
            (EnvironmentConfig.k8sForwards env) seen.

Definition diagnostic (env : EnvironmentConfig.t) (port : Z) (labels : list string)
  : string :=
  "Env " ++ EnvironmentConfig.name env ++ ": localPort " ++ numToString port
    ++ " used by " ++ join ", " labels.

(** The inner [for (const [port, labels] of seen.entries())] loop. *)
Definition reportEnv (env : EnvironmentConfig.t) (errors : list string) : list string :=
  fold_left
    (fun errors entry =>
       let '(port, labels) := entry in
       if (1 <? List.length labels)%nat
       then (errors ++ [diagnostic env port labels])%list
       else errors)
    (seenPorts env) errors.

Definition configDuplicates (es : list EnvironmentConfig.t) : list string :=
  fold_left (fun errors env => reportEnv env errors) es [].

(** ** The outside world *)

(** What the environment answers during one supervisor operation. *)
Record World := {
  now : Z;                        (* Date.now() *)
  portOpen : Z -> Z -> bool;      (* a connect to 127.0.0.1:port succeeds within the timeout *)
  exitCode : nat -> option Z;     (* child.exitCode; None is null *)
  existsSync : string -> bool;    (* fs.existsSync(file) *)
  joinHome : string -> string     (* path.join(os.homedir(), rest) *)
}.

(** How an [async] method ends: it resolves, or it rejects with
    [new Error(message)]. *)
Inductive Outcome :=
| Returned
| Thrown (message : string).

(** [`${x}`] for a value that may be [null]. *)
Definition showNullable {A} (show : A -> string) (x : option A) : string :=
  match x with Some a => show a | None => "null" end.

(** ** The current generation of [ForwardManager] *)

Module RunningProc.
Record t := mk {
  key : ForwardKey.t;
  process : nat;
  command : string;
  args : list string;
  localPort : Z;
  startedAt : Z
}.
End RunningProc.

Module ForwardManager.

Record t := mk {
  envs : list EnvironmentConfig.t;
  processes : list (string * RunningProc.t);
  portFailureCounts : list (string * Z);
  output : list string;                    (* lines of the output channel *)
  fired : nat;                             (* onDidChangeEmitter.fire() calls *)
  spawned : list (string * list string);   (* spawn(command, args) calls *)
  killed : list nat;                       (* children that received kill() *)
  probed : list Z                          (* ports given to isPortOpenNow *)
}.

Definition healthGraceMs : Z := 20000.

(** [new ForwardManager(envs)]. *)
Definition create (es : list EnvironmentConfig.t) : t :=
  mk es [] [] [] 0 [] [] [].

(** *** Primitive effects *)

Definition setProcesses (ps : list (string * RunningProc.t)) (m : t) : t :=
  mk (envs m) ps (portFailureCounts m) (output m) (fired m) (spawned m)
     (killed m) (probed m).

Definition setCounts (cs : list (string * Z)) (m : t) : t :=
  mk (envs m) (processes m) cs (output m) (fired m) (spawned m)
     (killed m) (probed m).

Definition appendLine (line : string) (m : t) : t :=
  mk (envs m) (processes m) (portFailureCounts m) (output m ++ [line])%list
     (fired m) (spawned m) (killed m) (probed m).

Definition fire (m : t) : t :=
  mk (envs m) (processes m) (portFailureCounts m) (output m) (S (fired m))
     (spawned m) (killed m) (probed m).

Definition spawn (cmd : string) (arguments : list string) (m : t) : nat * t :=
  (List.length (spawned m),
   mk (envs m) (processes m) (portFailureCounts m) (output m) (fired m)
      (spawned m ++ [(cmd, arguments)])%list (killed m) (probed m)).

Definition kill (child : nat) (m : t) : t :=
  mk (envs m) (processes m) (portFailureCounts m) (output m) (fired m)
     (spawned m) (killed m ++ [child])%list (probed m).

Definition isPortOpenNow (W : World) (port timeoutMs : Z) (m : t) : bool * t :=
  (portOpen W port timeoutMs,
   mk (envs m) (processes m) (portFailureCounts m) (output m) (fired m)
      (spawned m) (killed m) (probed m ++ [port])%list).

(** *** Configuration and queries *)

Definition setEnvironments (es : list EnvironmentConfig.t) (m : t) : t :=
  mk es (processes m) (portFailureCounts m) (output m) (fired m) (spawned m)
     (killed m) (probed m).

Definition getEnvironments (m : t) : list EnvironmentConfig.t := envs m.

Definition isRunning (key : ForwardKey.t) (m : t) : bool :=
  JsMap.has String.eqb (keyToId key) (processes m).

Definition findByPort (port : Z) (m : t) : option RunningProc.t :=
  find (fun p => RunningProc.localPort p =? port)%Z
       (JsMap.values (processes m)).

Definition getOccupiedPorts (m : t) : list Z :=
  map RunningProc.localPort (JsMap.values (processes m)).

Definition getPortUsage (m : t) : list (Z * string) :=
  map (fun p => (RunningProc.localPort p, keyToId (RunningProc.key p)))
      (JsMap.values (processes m)).

Definition getAllConfiguredPorts (m : t) : list Z :=
  unique Z.eqb
    (flat_map (fun env =>
                 (map SshTunnel.localPort (EnvironmentConfig.sshTunnels env)
                  ++ map K8sForward.localPort (EnvironmentConfig.k8sForwards env))%list)
              (envs m)).

(** *** [validateConfigDuplicates] *)

Definition validateConfigDuplicates (m : t) : list string :=
  configDuplicates (envs m).

(** *** Lifecycle *)

Definition expand (W : World) (p : string) : string :=
  match p with
  | EmptyString => p
  | String c rest => if Ascii.eqb c "~" then joinHome W rest else p
  end.

Definition addSshKey (W : World) (m : t) (file : string) : t :=
  if existsSync W file
  then appendLine ("ssh-add attempted for " ++ file)
                  (snd (spawn "ssh-add" ["-q"; file] m))
  else m.

Definition addSshKeysIfPresent (W : World) (env : EnvironmentConfig.t) (m : t) : t :=
  let keys := match EnvironmentConfig.sshAddKeys env with
              | Some ks => ks
              | None => []
              end in
  match keys with
  | [] => m
  | _ => fold_left (addSshKey W) (unique String.eqb (map (expand W) keys)) m
  end.

Definition ensureSshKeys (W : World) (envId : string) (m : t) : t :=
  match find (fun e => EnvironmentConfig.id e =? envId) (envs m) with
  | None => m
  | Some env => addSshKeysIfPresent W env m
  end.

Definition spawnAndTrack (W : World) (key : ForwardKey.t) (cmd : string)
  (arguments : list string) (localPort : Z) (m : t) : t :=
  let '(child, m) := spawn cmd arguments m in
  let id := keyToId key in
  let m := setProcesses
             (JsMap.set String.eqb id
                (RunningProc.mk key child cmd arguments localPort (now W))
                (processes m)) m in
  let m := appendLine ("Started: " ++ cmd ++ " " ++ join " " arguments) m in
  fire m.

(** The ['exit'] listener that [spawnAndTrack] registers on the child of [p]. *)
Definition onExit (p : RunningProc.t) (code : option Z) (signal : option string)
  (m : t) : t :=
  let m := appendLine ("Stopped: " ++ RunningProc.command p ++ " "
                         ++ join " " (RunningProc.args p)
                         ++ " (code=" ++ showNullable numToString code
                         ++ " signal=" ++ showNullable (fun s => s) signal ++ ")") m in
  let m := setProcesses
             (JsMap.delete String.eqb (keyToId (RunningProc.key p)) (processes m)) m in
  fire m.

(** The ['error'] listener that [spawnAndTrack] registers on the child of [p]. *)
Definition onError (p : RunningProc.t) (err : string) (m : t) : t :=
  let m := appendLine ("Failed to start: " ++ RunningProc.command p ++ " "
                         ++ join " " (RunningProc.args p)
                         ++ " (error=" ++ err ++ ")") m in
  let m := setProcesses
             (JsMap.delete String.eqb (keyToId (RunningProc.key p)) (processes m)) m in
  fire m.

Definition pruneDeadByPort (W : World) (port : Z) (m : t) : t :=
  match findByPort port m with
  | None => m
  | Some holder =>
      let '(ok, m) := isPortOpenNow W port 300 m in
      if ok then m
      else
        let m := kill (RunningProc.process holder) m in
        let m :=
          fold_left
            (fun m entry =>
               let '(id, p) := entry in
               if (RunningProc.localPort p =? port)%Z
               then setProcesses (JsMap.delete String.eqb id (processes m)) m
               else m)
            (processes m) m in
        fire m
  end.

Definition portInUse (port : Z) : string :=
  "Port " ++ numToString port ++ " is already used by another forward".

Definition sshArgs (item : SshTunnel.t) : list string :=
  [ "-v";
    "-o"; "ExitOnForwardFailure=yes";
    "-o"; "ServerAliveInterval=60";
    "-o"; "ServerAliveCountMax=3";
    "-o"; "ControlMaster=no";
    "-o"; "ControlPersist=no";
    "-o"; "StrictHostKeyChecking=no";
    "-NL"; numToString (SshTunnel.localPort item) ++ ":" ++ SshTunnel.remoteHost item
             ++ ":" ++ numToString (SshTunnel.remotePort item);
    SshTunnel.sshHost item ].

Definition kubectlArgs (env : EnvironmentConfig.t) (item : K8sForward.t) : list string :=
  app
    (match EnvironmentConfig.kubectlContext env with
     | Some ctx => if String.eqb ctx EmptyString then [] else ["--context"; ctx]
     | None => []
     end)
    [ "-n"; K8sForward.namespace item;
      "port-forward"; "services/" ++ K8sForward.serviceName item;
      numToString (K8sForward.localPort item) ++ ":"
        ++ numToString (K8sForward.remotePort item) ].

Definition start (W : World) (key : ForwardKey.t) (m : t) : Outcome * t :=
  if isRunning key m then (Returned, m)
  else
    match find (fun e => EnvironmentConfig.id e =? ForwardKey.envId key) (envs m) with
    | None => (Thrown ("Unknown env " ++ ForwardKey.envId key), m)
    | Some env =>
        let m := addSshKeysIfPresent W env m in
        match ForwardKey.kind key with
        | ssh =>
            match find (fun t => SshTunnel.id t =? ForwardKey.id key)
                       (EnvironmentConfig.sshTunnels env) with
            | None => (Thrown ("Unknown ssh tunnel " ++ ForwardKey.id key), m)
            | Some item =>
                let port := SshTunnel.localPort item in
                let launch m :=
                  (Returned, spawnAndTrack W key "ssh" (sshArgs item) port m) in
                match findByPort port m with
                | Some _ =>
                    let m := pruneDeadByPort W port m in
                    match findByPort port m with
                    | Some _ => (Thrown (portInUse port), m)
                    | None => launch m
                    end
                | None => launch m
                end
            end
        | k8s =>
            match find (fun f => K8sForward.id f =? ForwardKey.id key)
                       (EnvironmentConfig.k8sForwards env) with
            | None => (Thrown ("Unknown k8s forward " ++ ForwardKey.id key), m)
            | Some item =>
                let port := K8sForward.localPort item in
                let launch m :=
                  (Returned,
                   spawnAndTrack W key "kubectl" (kubectlArgs env item) port m) in
                match findByPort port m with
                | Some _ =>
                    let m := pruneDeadByPort W port m in
                    match findByPort port m with
                    | Some _ => (Thrown (portInUse port), m)
                    | None => launch m
                    end
                | None => launch m
                end
            end
        end
    end.

Definition stop (key : ForwardKey.t) (m : t) : t :=
  let id := keyToId key in
  match JsMap.get String.eqb id (processes m) with
  | Some running =>
      let m := kill (RunningProc.process running) m in
      let m := setProcesses (JsMap.delete String.eqb id (processes m)) m in
      fire m
  | None => m
  end.

Definition stopAllForEnv (envId : string) (m : t) : t :=
  let m :=
    fold_left
      (fun m entry =>
         let '(id, p) := entry in
         if ForwardKey.envId (RunningProc.key p) =? envId
         then setProcesses (JsMap.delete String.eqb id (processes m))
                           (kill (RunningProc.process p) m)
         else m)
      (processes m) m in
  fire m.

Definition stopAll (m : t) : t :=
  match processes m with
  | [] => m
  | _ =>
      let m :=
        fold_left
          (fun m entry =>
             let '(id, p) := entry in
             setProcesses (JsMap.delete String.eqb id (processes m))
                          (kill (RunningProc.process p) m))
          (processes m) m in
      fire m
  end.

(** *** Health sweep *)

(** [this.portFailureCounts.get(id) || 0]. *)
Definition failureCount (id : string) (m : t) : Z :=
  match JsMap.get String.eqb id (portFailureCounts m) with
  | Some n => n
  | None => 0
  end.

(** One turn of the [for] loop of [healthCheck]; [changed] is the local flag. *)
Definition healthStep (W : World) (acc : bool * t) (entry : string * RunningProc.t)
  : bool * t :=
  let '(changed, m) := acc in
  let '(id, p) := entry in
  match exitCode W (RunningProc.process p) with
  | Some code =>
      let m := appendLine ("Health: " ++ id ++ " process exited (code="
                             ++ numToString code ++ ").") m in
      let m := setProcesses (JsMap.delete String.eqb id (processes m)) m in
      let m := setCounts (JsMap.delete String.eqb id (portFailureCounts m)) m in
      (true, m)
  | None =>
      let age := (now W - RunningProc.startedAt p)%Z in
      if (age <? healthGraceMs)%Z then (changed, m)
      else
        let '(ok, m) := isPortOpenNow W (RunningProc.localPort p) 1200 m in
        if ok then
          (changed,
           if JsMap.has String.eqb id (portFailureCounts m)
           then setCounts (JsMap.delete String.eqb id (portFailureCounts m)) m
           else m)
        else
          let failures := (failureCount id m + 1)%Z in
          let m := appendLine ("Health: " ++ id ++ " port "
                                 ++ numToString (RunningProc.localPort p)
                                 ++ " closed (" ++ numToString failures ++ "/3).") m in
          let m := setCounts (JsMap.set String.eqb id failures (portFailureCounts m)) m in
          if (3 <=? failures)%Z then
            let m := kill (RunningProc.process p) m in
            let m := setProcesses (JsMap.delete String.eqb id (processes m)) m in
            let m := setCounts (JsMap.delete String.eqb id (portFailureCounts m)) m in
            let m := appendLine ("Health: " ++ id ++ " removed after "
                                   ++ numToString failures ++ " failures.") m in
            (true, m)
          else (changed, m)
  end.

Definition healthCheck (W : World) (m : t) : t :=
  let '(changed, m) := fold_left (healthStep W) (processes m) (false, m) in
  if changed then fire m else m.

End ForwardManager.

(** ** The earlier generation of [ForwardManager]

    The same file holds an earlier generation of the class: no change emitter,
    no health sweep and no pruning; [start] waits up to 5 s for the port and
    rolls back with [stop] when it never opens. Its [keyToId],
    [validateConfigDuplicates], [findByPort] and [isRunning] have the bodies of
    the current generation. The detached port check of its [spawnAndTrack]
    only raises a message in the editor and is left out.

    [start] awaits [waitForPort] after the launch, and the ['exit'] listener
    of the child just spawned can run during that wait. [start] therefore
    takes the ['exit'] event delivered to that child during the wait, if
    any, as its argument [exited]: the exit code and the signal, each
    possibly [null]. *)

Module Legacy.

Module RunningProc.
Record t := mk {
  key : ForwardKey.t;
  process : nat;
  command : string;
  args : list string;
  localPort : Z
}.
End RunningProc.

Record t := mk {
  envs : list EnvironmentConfig.t;
  processes : list (string * RunningProc.t);
  output : list string;
  spawned : list (string * list string);
  killed : list nat
}.

Definition create (es : list EnvironmentConfig.t) : t := mk es [] [] [] [].

Definition isRunning (key : ForwardKey.t) (m : t) : bool :=
  JsMap.has String.eqb (keyToId key) (processes m).

Definition findByPort (port : Z) (m : t) : option RunningProc.t :=
  find (fun p => RunningProc.localPort p =? port)%Z
       (JsMap.values (processes m)).

Definition validateConfigDuplicates (m : t) : list string :=
  configDuplicates (envs m).

Definition spawnAndTrack (key : ForwardKey.t) (cmd : string)
  (arguments : list string) (localPort : Z) (m : t) : t :=
  let child := List.length (spawned m) in
  mk (envs m)
     (JsMap.set String.eqb (keyToId key)
        (RunningProc.mk key child cmd arguments localPort) (processes m))
     (app (output m) ["Started: " ++ cmd ++ " " ++ join " " arguments])
     (spawned m ++ [(cmd, arguments)])%list
     (killed m).

(** The ['exit'] listener that [spawnAndTrack] registers on the child it
    spawns for [key] with [cmd] and [arguments]. *)
Definition onExit (key : ForwardKey.t) (cmd : string) (arguments : list string)
  (code : option Z) (signal : option string) (m : t) : t :=
  mk (envs m)
     (JsMap.delete String.eqb (keyToId key) (processes m))
     (app (output m)
          ["Stopped: " ++ cmd ++ " " ++ join " " arguments
             ++ " (code=" ++ showNullable numToString code
             ++ " signal=" ++ showNullable (fun s => s) signal ++ ")"])
     (spawned m)
     (killed m).

Definition stop (key : ForwardKey.t) (m : t) : t :=
  let id := keyToId key in
  match JsMap.get String.eqb id (processes m) with
  | Some running =>
      mk (envs m) (JsMap.delete String.eqb id (processes m)) (output m)
         (spawned m) (killed m ++ [RunningProc.process running])%list
  | None => m
  end.

(** [waitForPort(port, timeoutMs)]: whether a connect succeeds before the
    timeout. *)
Definition waitForPort (W : World) (port timeoutMs : Z) : bool :=
  portOpen W port timeoutMs.

(** The state when the wait of [start] for the port is over: the ['exit']
    listener of the child has run if its event was delivered meanwhile. *)
Definition afterWait (exited : option (option Z * option string))
  (key : ForwardKey.t) (cmd : string) (arguments : list string) (m : t) : t :=
  match exited with
  | Some (code, signal) => onExit key cmd arguments code signal m
  | None => m
  end.

Definition sshArgs (item : SshTunnel.t) : list string :=
  [ "-v";
    "-o"; "ExitOnForwardFailure=yes";
    "-o"; "ServerAliveInterval=60";
    "-o"; "StrictHostKeyChecking=no";
    "-NL"; numToString (SshTunnel.localPort item) ++ ":" ++ SshTunnel.remoteHost item
             ++ ":" ++ numToString (SshTunnel.remotePort item);
    SshTunnel.sshHost item ].

Definition start (W : World) (exited : option (option Z * option string))
  (key : ForwardKey.t) (m : t) : Outcome * t :=
  if isRunning key m then (Returned, m)
  else
    match find (fun e => EnvironmentConfig.id e =? ForwardKey.envId key) (envs m) with
    | None => (Thrown ("Unknown env " ++ ForwardKey.envId key), m)
    | Some env =>
        match ForwardKey.kind key with
        | ssh =>
            match find (fun t => SshTunnel.id t =? ForwardKey.id key)
                       (EnvironmentConfig.sshTunnels env) with
            | None => (Thrown ("Unknown ssh tunnel " ++ ForwardKey.id key), m)
            | Some item =>
                let port := SshTunnel.localPort item in
                match findByPort port m with
                | Some _ =>
                    (Thrown ("Port " ++ numToString port
                               ++ " is already used by another forward"), m)
                | None =>
                    let m := spawnAndTrack key "ssh" (sshArgs item) port m in
                    let ok := waitForPort W port 5000 in
                    let m := afterWait exited key "ssh" (sshArgs item) m in
                    if ok then (Returned, m)
                    else
                      (Thrown ("Could not connect for " ++ EnvironmentConfig.name env
                                 ++ ":" ++ ForwardKey.id key
                                 ++ ". Check config/credentials."),
                       stop key m)
                end
            end
        | k8s =>
            match find (fun f => K8sForward.id f =? ForwardKey.id key)
                       (EnvironmentConfig.k8sForwards env) with
            | None => (Thrown ("Unknown k8s forward " ++ ForwardKey.id key), m)
            | Some item =>
                let port := K8sForward.localPort item in
                match findByPort port m with
                | Some _ =>
                    (Thrown ("Port " ++ numToString port
                               ++ " is already used by another forward"), m)
                | None =>
                    let m := spawnAndTrack key "kubectl"
                               (ForwardManager.kubectlArgs env item) port m in
                    let ok := waitForPort W port 5000 in
                    let m := afterWait exited key "kubectl"
                               (ForwardManager.kubectlArgs env item) m in
                    if ok then (Returned, m)
                    else
                      (Thrown ("Could not start port-forward for "
                                 ++ EnvironmentConfig.name env ++ ":" ++ ForwardKey.id key
                                 ++ ". Check kubectl context and service."),
                       stop key m)
                end
            end
        end
    end.

End Legacy.

(** ** Vocabulary of the statements *)

(** A string without the separator [":"]. *)
Fixpoint colonFree (s : string) : bool :=
  match s with
  | EmptyString => true
  | String c rest => negb (Ascii.eqb c ":") && colonFree rest
  end.

(** The registry as a [Map] has pairwise distinct keys; [start] keeps the
    bound ports pairwise distinct as well (it launches only when
    [findByPort] finds nothing). *)
Definition wf (m : ForwardManager.t) : Prop :=
  NoDup (JsMap.keys (ForwardManager.processes m))
  /\ NoDup (map RunningProc.localPort (JsMap.values (ForwardManager.processes m))).

(** What [start] resolves a key to: the environment, the command, its
    arguments and the local port of the definition; [None] when the
    environment or the definition of the key's kind is unknown. *)
Definition resolve (es : list EnvironmentConfig.t) (key : ForwardKey.t)
  : option (EnvironmentConfig.t * string * list string * Z) :=
  match find (fun e => EnvironmentConfig.id e =? ForwardKey.envId key) es with
  | None => None
  | Some env =>
      match ForwardKey.kind key with
      | ssh =>
          match find (fun t => SshTunnel.id t =? ForwardKey.id key)
                     (EnvironmentConfig.sshTunnels env) with
          | Some item =>
              Some (env, "ssh", ForwardManager.sshArgs item, SshTunnel.localPort item)
          | None => None
          end
      | k8s =>
          match find (fun f => K8sForward.id f =? ForwardKey.id key)
                     (EnvironmentConfig.k8sForwards env) with
          | Some item =>
              Some (env, "kubectl", ForwardManager.kubectlArgs env item,
                    K8sForward.localPort item)
          | None => None
          end
      end
  end.

(** The key files of an environment that [addSshKeysIfPresent] hands to
    [ssh-add], and the [spawn] calls it makes for them. *)
Definition sshAddFiles (W : World) (env : EnvironmentConfig.t) : list string :=
  filter (existsSync W)
    (unique String.eqb
       (map (ForwardManager.expand W)
            (match EnvironmentConfig.sshAddKeys env with
             | Some ks => ks
             | None => []
             end))).

Definition sshAddCommands (W : World) (env : EnvironmentConfig.t)
  : list (string * list string) :=
  map (fun file => ("ssh-add", ["-q"; file])) (sshAddFiles W env).

(** The port gate and launch that follow resolution in [start]; the method
    writes it out once per kind. *)
Definition gateAndLaunch (W : World) (key : ForwardKey.t) (cmd : string)
  (arguments : list string) (port : Z) (m : ForwardManager.t)
  : Outcome * ForwardManager.t :=
  match ForwardManager.findByPort port m with
  | Some _ =>
      let m := ForwardManager.pruneDeadByPort W port m in
      match ForwardManager.findByPort port m with
      | Some _ => (Thrown (ForwardManager.portInUse port), m)
      | None => (Returned, ForwardManager.spawnAndTrack W key cmd arguments port m)
      end
  | None => (Returned, ForwardManager.spawnAndTrack W key cmd arguments port m)
  end.

(** Deleting, entry by entry, the keys of the entries of [l] that satisfy [v]. *)
Definition deleteWhere {V} (v : string * V -> bool) (l P : list (string * V))
  : list (string * V) :=
  fold_left (fun P e => if v e then JsMap.delete String.eqb (fst e) P else P) l P.

(** Whether an entry holds [port]. *)
Definition holdsPort (port : Z) (e : string * RunningProc.t) : bool :=
  (RunningProc.localPort (snd e) =? port)%Z.

(** Whether the sweep probes the port of an entry: its child has not exited
    and it is past the grace period. *)
Definition probes (W : World) (e : string * RunningProc.t) : bool :=
  match exitCode W (RunningProc.process (snd e)) with
  | Some _ => false
  | None => negb (now W - RunningProc.startedAt (snd e) <? ForwardManager.healthGraceMs)%Z
  end.

(** Whether the sweep kills an entry: it is probed, the probe fails and the
    failure count reaches 3. *)
Definition strikesOut (W : World) (m : ForwardManager.t) (e : string * RunningProc.t)
  : bool :=
  probes W e
  && negb (portOpen W (RunningProc.localPort (snd e)) 1200)
  && (3 <=? ForwardManager.failureCount (fst e) m + 1)%Z.

(** Whether the sweep removes an entry: its child has exited, or it strikes
    out. *)
Definition evicts (W : World) (m : ForwardManager.t) (e : string * RunningProc.t)
  : bool :=
  match exitCode W (RunningProc.process (snd e)) with
  | Some _ => true
  | None => strikesOut W m e
  end.

(** In world [W] the sweep probes the port of [p] and the probe fails. *)
Definition probeFails (W : World) (p : RunningProc.t) : Prop :=
  exitCode W (RunningProc.process p) = None
  /\ (ForwardManager.healthGraceMs <= now W - RunningProc.startedAt p)%Z
  /\ portOpen W (RunningProc.localPort p) 1200 = false.

(** The failure-count entry of an entry's key after the sweep has visited it. *)
Definition countAfter (W : World) (m : ForwardManager.t) (e : string * RunningProc.t)
  : option Z :=
  match exitCode W (RunningProc.process (snd e)) with
  | Some _ => None
  | None =>
      if probes W e then
        if portOpen W (RunningProc.localPort (snd e)) 1200 then None
        else if (3 <=? ForwardManager.failureCount (fst e) m + 1)%Z then None
             else Some (ForwardManager.failureCount (fst e) m + 1)%Z
      else JsMap.get String.eqb (fst e) (ForwardManager.portFailureCounts m)
  end.

(** Two states that differ at most in the output channel, the [spawn] log and
    the probe log. *)
Definition sameSupervision (m m' : ForwardManager.t) : Prop :=
  ForwardManager.envs m' = ForwardManager.envs m
  /\ ForwardManager.processes m' = ForwardManager.processes m
  /\ ForwardManager.portFailureCounts m' = ForwardManager.portFailureCounts m
  /\ ForwardManager.fired m' = ForwardManager.fired m
  /\ ForwardManager.killed m' = ForwardManager.killed m.

(** *** The duplicate report in the words of its description *)

(** Every forward definition of an environment with its port and label, SSH
    tunnels first. *)
Definition definitions (env : EnvironmentConfig.t) : list (Z * string) :=
  app (map (fun t => (SshTunnel.localPort t, "ssh:" ++ SshTunnel.id t))
           (EnvironmentConfig.sshTunnels env))
      (map (fun f => (K8sForward.localPort f, "k8s:" ++ K8sForward.id f))
           (EnvironmentConfig.k8sForwards env)).

(** The labels of all definitions on [port], in configuration order. *)
Definition labelsAt (port : Z) (defs : list (Z * string)) : list string :=
  map snd (filter (fun d => (fst d =? port)%Z) defs).

(** The ports used by more than one definition, each once, in order of
    first use. *)
Definition collidingPorts (env : EnvironmentConfig.t) : list Z :=
  filter (fun p => (1 <? List.length (labelsAt p (definitions env)))%nat)
         (unique Z.eqb (map fst (definitions env))).

(** One diagnostic per colliding port of each environment. *)
Definition duplicatesSpec (es : list EnvironmentConfig.t) : list string :=
  flat_map
    (fun env =>
       map (fun p => diagnostic env p (labelsAt p (definitions env)))
           (collidingPorts env))
    es.

(** The states the supervisor can be in: a fresh manager, and whatever its
    methods and the listeners of its children make of it, in any world. *)
Inductive reachable : ForwardManager.t -> Prop :=
| reach_create : forall es, reachable (ForwardManager.create es)
| reach_setEnvironments : forall es m,
    reachable m -> reachable (ForwardManager.setEnvironments es m)
| reach_start : forall W key m,
    reachable m -> reachable (snd (ForwardManager.start W key m))
| reach_stop : forall key m,
    reachable m -> reachable (ForwardManager.stop key m)
| reach_stopAllForEnv : forall envId m,
    reachable m -> reachable (ForwardManager.stopAllForEnv envId m)
| reach_stopAll : forall m,
    reachable m -> reachable (ForwardManager.stopAll m)
| reach_healthCheck : forall W m,
    reachable m -> reachable (ForwardManager.healthCheck W m)
| reach_onExit : forall p code signal m,
    reachable m -> reachable (ForwardManager.onExit p code signal m)
| reach_onError : forall p err m,
    reachable m -> reachable (ForwardManager.onError p err m).

(** ** Example data

    The environment of the specification's scenario, extended with a second
    tunnel on the same local port, a Kubernetes forward and a key file. *)

Definition exWorld (live : bool) (clock : Z) : World :=
  {| now := clock;
     portOpen := fun _ _ => live;
     exitCode := fun _ => None;
     existsSync := fun _ => true;
     joinHome := fun rest => "/home/dev" ++ rest |}.

Definition exEnv : EnvironmentConfig.t :=
  EnvironmentConfig.mk "stg" "Staging" None
    [ SshTunnel.mk "db" "database:3316" 3316 "1.2.3.4" 3306 "stg";
      SshTunnel.mk "replica" "replica:3316" 3316 "1.2.3.5" 3306 "stg" ]
    [ K8sForward.mk "svc" "service:18001" "ns" "svc" 18001 8001 ]
    (Some ["/keys/id_stg"]).

Definition kDb : ForwardKey.t := ForwardKey.mk "stg" ssh "db".
Definition kReplica : ForwardKey.t := ForwardKey.mk "stg" ssh "replica".
Definition kSvc : ForwardKey.t := ForwardKey.mk "stg" k8s "svc".
Definition kNope : ForwardKey.t := ForwardKey.mk "stg" ssh "nope".

(** A fresh manager, and the manager after [start(kDb)] at time 1000. *)
Definition exFresh : ForwardManager.t := ForwardManager.create [exEnv].

Definition exRunning : ForwardManager.t :=
  snd (ForwardManager.start (exWorld true 1000) kDb exFresh).

(** The registry record of [kDb] in [exRunning]. *)
Definition exDbProc : RunningProc.t :=
  RunningProc.mk kDb 1 "ssh"
    (ForwardManager.sshArgs (SshTunnel.mk "db" "database:3316" 3316 "1.2.3.4" 3306 "stg"))
    3316 1000.

(** [exRunning] after two sweeps, past the grace period, whose probes failed. *)
Definition exTwoStrikes : ForwardManager.t :=
  ForwardManager.healthCheck (exWorld false 33000)
    (ForwardManager.healthCheck (exWorld false 30000) exRunning).

(** Two environments whose keys share a string form, with one tunnel each
    on port 5432. *)
Definition exAmbiguous : list EnvironmentConfig.t :=
  [ EnvironmentConfig.mk "a" "A" None
      [SshTunnel.mk "ssh:b" "first" 5432 "10.0.0.1" 5432 "gw"] [] None;
    EnvironmentConfig.mk "a:ssh" "B" None
      [SshTunnel.mk "b" "second" 5432 "10.0.0.2" 5432 "gw"] [] None ].

Definition kFirst : ForwardKey.t := ForwardKey.mk "a" ssh "ssh:b".
Definition kSecond : ForwardKey.t := ForwardKey.mk "a:ssh" ssh "b".

(** [exEnv] before its replica tunnel was moved from port 3317 to 3316, and
    a manager that started the replica under that configuration, was handed
    [exEnv] and then started [kDb]. *)
Definition exEnvBefore : EnvironmentConfig.t :=
  EnvironmentConfig.mk "stg" "Staging" None
    [ SshTunnel.mk "db" "database:3316" 3316 "1.2.3.4" 3306 "stg";
      SshTunnel.mk "replica" "replica:3317" 3317 "1.2.3.5" 3306 "stg" ]
    [ K8sForward.mk "svc" "service:18001" "ns" "svc" 18001 8001 ]
    (Some ["/keys/id_stg"]).

Definition exReconfigured : ForwardManager.t :=
  snd (ForwardManager.start (exWorld true 3000) kDb
         (ForwardManager.setEnvironments [exEnv]
            (snd (ForwardManager.start (exWorld true 1000) kReplica
                    (ForwardManager.create [exEnvBefore]))))).

(** ** The rest of the program

    [mergeEnvs] of [config.ts], the message handlers of [extension.ts] and
    the blocking logic of the panel script. *)

(** [mergeEnvs]: one [Map] keyed by [env.id], filled from the global list and
    then from the workspace list; an absent list counts as empty. *)
Definition mergeEnvs (globalEnvs workspaceEnvs : option (list EnvironmentConfig.t))
  : list EnvironmentConfig.t :=
  let orEmpty := fun l : option (list EnvironmentConfig.t) =>
                   match l with Some es => es | None => [] end in
  JsMap.values
    (fold_left
       (fun map list =>
          fold_left
            (fun map env => JsMap.set String.eqb (EnvironmentConfig.id env) env map)
            list map)
       [orEmpty globalEnvs; orEmpty workspaceEnvs] []).

Module Extension.

(** [runningKeys()]: the string forms of the configured definitions whose key
    is registered, environment by environment, tunnels first. *)
Definition runningKeys (m : ForwardManager.t) : list string :=
  fold_left
    (fun ids env =>
       let ids :=
         fold_left
           (fun ids t =>
              let k := ForwardKey.mk (EnvironmentConfig.id env) ssh (SshTunnel.id t) in
              if ForwardManager.isRunning k m
              then app ids [EnvironmentConfig.id env ++ ":ssh:" ++ SshTunnel.id t]
              else ids)
           (EnvironmentConfig.sshTunnels env) ids in
       fold_left
         (fun ids f =>
            let k := ForwardKey.mk (EnvironmentConfig.id env) k8s (K8sForward.id f) in
            if ForwardManager.isRunning k m
            then app ids [EnvironmentConfig.id env ++ ":k8s:" ++ K8sForward.id f]
            else ids)
         (EnvironmentConfig.k8sForwards env) ids)
    (ForwardManager.getEnvironments m) [].

(** The payload of a [status] message. *)
Record Status := {
  running : list string;
  occupied : list Z;
  usage : list (Z * string)
}.

Definition status (m : ForwardManager.t) : Status :=
  {| running := runningKeys m;
     occupied := ForwardManager.getOccupiedPorts m;
     usage := ForwardManager.getPortUsage m |}.

(** The [toggle] message: stop a running key, start any other; an error is
    caught and shown, and a [status] message is posted either way. The result
    is the error message shown (if any), the status posted and the manager. *)
Definition toggle (W : World) (key : ForwardKey.t) (m : ForwardManager.t)
  : option string * Status * ForwardManager.t :=
  let '(shown, m) :=
    if ForwardManager.isRunning key m
    then (None, ForwardManager.stop key m)
    else match ForwardManager.start W key m with
         | (Returned, m) => (None, m)
         | (Thrown message, m) => (Some message, m)
         end in
  (shown, status m, m).

End Extension.

Module Panel.

(** [s.split(sep)] for a one-character separator. *)
Fixpoint split (sep : ascii) (s : string) : list string :=
  match s with
  | EmptyString => [EmptyString]
  | String c rest =>
      if Ascii.eqb c sep then EmptyString :: split sep rest
      else match split sep rest with
           | part :: parts => String c part :: parts
           | [] => [String c EmptyString]
           end
  end.

(** The key object of a [toggle] message: [parts[0]], [parts[1]], [parts[2]]
    of [keyId.split(':')], each [undefined] when the part is missing. *)
Definition toggleKey (keyId : string)
  : option string * option string * option string :=
  let parts := split ":" keyId in
  (nth_error parts 0, nth_error parts 1, nth_error parts 2).

(** [x === s] for a value that may be [undefined]. *)
Definition isString (x : option string) (s : string) : bool :=
  match x with Some y => y =? s | None => false end.

(** [portForKey(env, key)]; [None] is [undefined]. *)
Definition portForKey (env : EnvironmentConfig.t) (key : string) : option Z :=
  let parts := split ":" key in
  let kind := nth_error parts 1 in
  let id := nth_error parts 2 in
  if isString kind "ssh" then
    option_map SshTunnel.localPort
      (find (fun x => isString id (SshTunnel.id x)) (EnvironmentConfig.sshTunnels env))
  else if isString kind "k8s" then
    option_map K8sForward.localPort
      (find (fun x => isString id (K8sForward.id x)) (EnvironmentConfig.k8sForwards env))
  else None.

(** [window.state], as far as [blockedReason] reads it. *)
Record State := {
  running : option (list string);
  usage : option (list (Z * string))
}.

(** [blockedReason(env, key)]; the empty string means not blocked. *)
Definition blockedReason (state : option State) (env : EnvironmentConfig.t)
  (key : string) : string :=
  match state with
  | None => EmptyString
  | Some st =>
      match usage st with
      | None => EmptyString
      | Some use =>
          let port := portForKey env key in
          let holder :=
            match port with
            | Some p => find (fun u => (fst u =? p)%Z) use
            | None => None
            end in
          let isRunning :=
            match running st with
            | Some r => existsb (String.eqb key) r
            | None => false
            end in
          match holder with
          | Some h =>
              if negb isRunning
              then "Port " ++ showNullable numToString port ++ " in use by " ++ snd h
              else EmptyString
          | None => EmptyString
          end
      end
  end.

Definition isBlocked (state : option State) (env : EnvironmentConfig.t)
  (key : string) : bool :=
  negb (String.eqb (blockedReason state env key) EmptyString).

(** The state the panel holds after a [status] message of the extension. *)
Definition stateOf (msg : Extension.Status) : State :=
  {| running := Some (Extension.running msg);
     usage := Some (Extension.usage msg) |}.

End Panel.

(** The running definitions of one environment, as a list. *)
Definition runningOf (m : ForwardManager.t) (env : EnvironmentConfig.t) : list string :=
  app
    (map (fun t => keyToId (ForwardKey.mk (EnvironmentConfig.id env) ssh (SshTunnel.id t)))
         (filter (fun t => ForwardManager.isRunning (ForwardKey.mk (EnvironmentConfig.id env) ssh
                                                    (SshTunnel.id t)) m)
                 (EnvironmentConfig.sshTunnels env)))
    (map (fun f => keyToId (ForwardKey.mk (EnvironmentConfig.id env) k8s (K8sForward.id f)))
         (filter (fun f => ForwardManager.isRunning (ForwardKey.mk (EnvironmentConfig.id env) k8s
                                                    (K8sForward.id f)) m)
                 (EnvironmentConfig.k8sForwards env))).

(** ** Bookkeeping of the children

    What the registry, the [spawn] log and the [kill] log say about each
    other: the registered children are pairwise distinct; every entry is
    indexed by the string form of its key, records the command line its child
    was spawned with, an [ssh] or a [kubectl], and has not been sent [kill()];
    and every child that was sent [kill()] had been spawned as an [ssh] or a
    [kubectl]. *)
Definition tracked (m : ForwardManager.t) : Prop :=
  NoDup (map (fun e => RunningProc.process (snd e)) (ForwardManager.processes m))
  /\ Forall
       (fun e =>
          fst e = keyToId (RunningProc.key (snd e))
          /\ nth_error (ForwardManager.spawned m) (RunningProc.process (snd e))
             = Some (RunningProc.command (snd e), RunningProc.args (snd e))
          /\ (RunningProc.command (snd e) = "ssh"
              \/ RunningProc.command (snd e) = "kubectl")
          /\ ~ In (RunningProc.process (snd e)) (ForwardManager.killed m))
       (ForwardManager.processes m)
  /\ Forall
       (fun child =>
          exists cmd arguments,
            nth_error (ForwardManager.spawned m) child = Some (cmd, arguments)
            /\ (cmd = "ssh" \/ cmd = "kubectl"))
       (ForwardManager.killed m).

(** * Properties *)

(** ** Facts about [JsMap] *)

Section JsMapFacts.
Context {K V : Type}.
Variable eqb : K -> K -> bool.
Hypothesis eqb_eq : forall a b, eqb a b = true <-> a = b.

Implicit Type m : list (K * V).

Lemma eqb_refl' : forall a, eqb a a = true.
Proof. intro a. apply eqb_eq. reflexivity. Qed.

Lemma eqb_neq' : forall a b, a <> b -> eqb a b = false.
Proof.
  intros a b Hab. destruct (eqb a b) eqn:E; [|reflexivity].
  apply eqb_eq in E. contradiction.
Qed.

Lemma get_In : forall k (v : V) m, JsMap.get eqb k m = Some v -> In (k, v) m.
Proof.
  induction m as [|[k' v'] m IH]; simpl; [discriminate|].
  destruct (eqb k' k) eqn:E.
  - intros H. inversion H; subst. apply eqb_eq in E. subst. now left.
  - intros H. right. now apply IH.
Qed.

Lemma get_None_notin : forall k m, JsMap.get eqb k m = None -> ~ In k (JsMap.keys m).
Proof.
  induction m as [|[k' v'] m IH]; simpl; [tauto|].
  destruct (eqb k' k) eqn:E; [discriminate|].
  intros H [Hk|Hk].
  - subst. rewrite eqb_refl' in E. discriminate.
  - now apply IH.
Qed.

Lemma notin_get_None : forall k m, ~ In k (JsMap.keys m) -> JsMap.get eqb k m = None.
Proof.
  induction m as [|[k' v'] m IH]; simpl; [reflexivity|].
  intros H. rewrite eqb_neq' by tauto. apply IH. tauto.
Qed.

Lemma In_get : forall k (v : V) m,
  NoDup (JsMap.keys m) -> In (k, v) m -> JsMap.get eqb k m = Some v.
Proof.
  induction m as [|[k' v'] m IH]; simpl; [tauto|].
  intros Hnd [H|H].
  - inversion H; subst. now rewrite eqb_refl'.
  - inversion Hnd as [|? ? Hnotin Hnd']; subst.
    rewrite eqb_neq'.
    + now apply IH.
    + intros ->. apply Hnotin. change k with (fst (k, v)). now apply in_map.
Qed.

Lemma get_set_same : forall k (v : V) m, JsMap.get eqb k (JsMap.set eqb k v m) = Some v.
Proof.
  induction m as [|[k' v'] m IH]; simpl.
  - now rewrite eqb_refl'.
  - destruct (eqb k' k) eqn:E; simpl; rewrite E; [reflexivity|exact IH].
Qed.

Lemma get_set_other : forall k k' (v : V) m,
  k <> k' -> JsMap.get eqb k' (JsMap.set eqb k v m) = JsMap.get eqb k' m.
Proof.
  induction m as [|[k0 v0] m IH]; simpl; intros Hne.
  - now rewrite eqb_neq'.
  - destruct (eqb k0 k) eqn:E; simpl.
    + apply eqb_eq in E. subst. now rewrite eqb_neq'.
    + rewrite IH by assumption. reflexivity.
Qed.

Lemma get_delete_same : forall k (m : list (K * V)), JsMap.get eqb k (JsMap.delete eqb k m) = None.
Proof.
  induction m as [|[k' v'] m IH]; simpl; [reflexivity|].
  destruct (eqb k' k) eqn:E; simpl; [exact IH|]. now rewrite E.
Qed.

Lemma get_delete_other : forall k k' (m : list (K * V)),
  k <> k' -> JsMap.get eqb k' (JsMap.delete eqb k m) = JsMap.get eqb k' m.
Proof.
  induction m as [|[k0 v0] m IH]; simpl; intros Hne; [reflexivity|].
  destruct (eqb k0 k) eqn:E; simpl.
  - apply eqb_eq in E. subst. rewrite eqb_neq' by assumption. now apply IH.
  - rewrite IH by assumption. reflexivity.
Qed.

Lemma delete_notin : forall k (m : list (K * V)),
  ~ In k (JsMap.keys m) -> JsMap.delete eqb k m = m.
Proof.
  induction m as [|[k' v'] m IH]; simpl; [reflexivity|].
  intros H. rewrite eqb_neq' by tauto. f_equal. apply IH. tauto.
Qed.

Lemma delete_In : forall k e (m : list (K * V)), In e (JsMap.delete eqb k m) -> In e m.
Proof.
  induction m as [|[k' v'] m IH]; simpl; [tauto|].
  destruct (eqb k' k); simpl; intuition.
Qed.

Lemma delete_app : forall k (a b : list (K * V)),
  JsMap.delete eqb k (a ++ b) = (JsMap.delete eqb k a ++ JsMap.delete eqb k b)%list.
Proof.
  induction a as [|[k' v'] a IH]; simpl; intros b; [reflexivity|].
  destruct (eqb k' k); simpl; now rewrite IH.
Qed.

Lemma set_notin : forall k (v : V) m,
  ~ In k (JsMap.keys m) -> JsMap.set eqb k v m = (m ++ [(k, v)])%list.
Proof.
  induction m as [|[k' v'] m IH]; simpl; [reflexivity|].
  intros H. rewrite eqb_neq' by tauto. f_equal. apply IH. tauto.
Qed.

Lemma has_true_iff : forall k (m : list (K * V)),
  JsMap.has eqb k m = true <-> In k (JsMap.keys m).
Proof.
  intros k m. unfold JsMap.has. split.
  - destruct (JsMap.get eqb k m) eqn:E; [|discriminate]. intros _.
    apply get_In in E. change k with (fst (k, v)). now apply in_map.
  - intros Hin. destruct (JsMap.get eqb k m) eqn:E; [reflexivity|].
    now apply get_None_notin in E.
Qed.

End JsMapFacts.

(** ** C7: the registry index *)

Lemma append_colon_split : forall a b x y,
  colonFree a = true -> colonFree b = true ->
  a ++ ":" ++ x = b ++ ":" ++ y -> a = b /\ x = y.
Proof.
  induction a as [|c a IH]; intros [|d b] x y Ha Hb H; simpl in *.
  - inversion H. auto.
  - inversion H; subst. rewrite Ascii.eqb_refl in Hb. discriminate.
  - inversion H; subst. rewrite Ascii.eqb_refl in Ha. discriminate.
  - inversion H; subst.
    apply andb_true_iff in Ha as [_ Ha]. apply andb_true_iff in Hb as [_ Hb].
    destruct (IH b x y Ha Hb H2) as [-> ->]. auto.
Qed.

Lemma kindToString_colonFree : forall k, colonFree (kindToString k) = true.
Proof. destruct k; reflexivity. Qed.

Lemma kindToString_inj : forall k1 k2, kindToString k1 = kindToString k2 -> k1 = k2.
Proof. destruct k1, k2; simpl; intros H; try reflexivity; discriminate. Qed.

(** C7, as the code has it: the string form [envId:kind:id] is injective over
    the keys whose [envId] holds no [":"]; equal string forms of two such keys
    give equal [envId], [kind] and [id]. *)
Theorem keyToId_injective_colon_free : forall k1 k2,
  colonFree (ForwardKey.envId k1) = true ->
  colonFree (ForwardKey.envId k2) = true ->
  keyToId k1 = keyToId k2 ->
  ForwardKey.envId k1 = ForwardKey.envId k2
  /\ ForwardKey.kind k1 = ForwardKey.kind k2
  /\ ForwardKey.id k1 = ForwardKey.id k2.
Proof.
  intros [e1 c1 i1] [e2 c2 i2] H1 H2 H. unfold keyToId in H. simpl in *.
  apply append_colon_split in H as [He H]; try assumption.
  apply append_colon_split in H as [Hk Hi]; try apply kindToString_colonFree.
  apply kindToString_inj in Hk. auto.
Qed.

Lemma keyToId_injective_colon_free_witness :
  ForwardKey.envId (ForwardKey.mk "stg" ssh "db")
    = ForwardKey.envId (ForwardKey.mk "stg" ssh "db")
  /\ ForwardKey.kind (ForwardKey.mk "stg" ssh "db")
    = ForwardKey.kind (ForwardKey.mk "stg" ssh "db")
  /\ ForwardKey.id (ForwardKey.mk "stg" ssh "db")
    = ForwardKey.id (ForwardKey.mk "stg" ssh "db").
Proof.
  apply (keyToId_injective_colon_free
           (ForwardKey.mk "stg" ssh "db") (ForwardKey.mk "stg" ssh "db"));
    reflexivity.
Defined.

(** C7 as stated fails: two keys that differ in [envId] and [id] share the
    string form ["a:ssh:ssh:b"]. *)
Lemma keyToId_not_injective :
  keyToId (ForwardKey.mk "a" ssh "ssh:b") = keyToId (ForwardKey.mk "a:ssh" ssh "b")
  /\ ForwardKey.envId (ForwardKey.mk "a" ssh "ssh:b")
       <> ForwardKey.envId (ForwardKey.mk "a:ssh" ssh "b")
  /\ ForwardKey.id (ForwardKey.mk "a" ssh "ssh:b")
       <> ForwardKey.id (ForwardKey.mk "a:ssh" ssh "b").
Proof. repeat split; simpl; discriminate. Qed.

(** ** C9: the duplicate report *)

Lemma Zeqb_eq : forall a b : Z, (a =? b)%Z = true <-> a = b.
Proof. intros a b. apply Z.eqb_eq. Qed.

Lemma uniqueInto_snoc : forall {A} (eqb : A -> A -> bool) xs seen x,
  uniqueInto eqb seen (xs ++ [x])
  = if existsb (eqb x) (uniqueInto eqb seen xs)
    then uniqueInto eqb seen xs
    else (uniqueInto eqb seen xs ++ [x])%list.
Proof.
  induction xs as [|y xs IH]; intros seen x; simpl.
  - destruct (existsb (eqb x) seen); reflexivity.
  - destruct (existsb (eqb y) seen); apply IH.
Qed.

Lemma unique_snoc : forall {A} (eqb : A -> A -> bool) xs x,
  unique eqb (xs ++ [x])
  = if existsb (eqb x) (unique eqb xs) then unique eqb xs
    else (unique eqb xs ++ [x])%list.
Proof. intros. apply uniqueInto_snoc. Qed.

Lemma existsb_Zeqb_In : forall x (l : list Z),
  existsb (Z.eqb x) l = true <-> In x l.
Proof.
  intros x l. rewrite existsb_exists. split.
  - intros [y [Hy E]]. apply Z.eqb_eq in E. now subst.
  - intros H. exists x. split; [assumption|apply Z.eqb_refl].
Qed.

Lemma unique_In : forall (xs : list Z) x, In x (unique Z.eqb xs) <-> In x xs.
Proof.
  induction xs as [|y xs IH] using rev_ind; intros x.
  - simpl. tauto.
  - rewrite unique_snoc.
    destruct (existsb (Z.eqb y) (unique Z.eqb xs)) eqn:E.
    + apply existsb_Zeqb_In in E. rewrite in_app_iff, IH. simpl.
      apply IH in E. intuition. now subst.
    + rewrite !in_app_iff, IH. tauto.
Qed.

Lemma unique_NoDup : forall xs : list Z, NoDup (unique Z.eqb xs).
Proof.
  induction xs as [|y xs IH] using rev_ind.
  - constructor.
  - rewrite unique_snoc.
    destruct (existsb (Z.eqb y) (unique Z.eqb xs)) eqn:E; [assumption|].
    apply NoDup_app; [assumption| repeat constructor; simpl; tauto |].
    intros a Ha [<-|[]].
    apply existsb_Zeqb_In in Ha. congruence.
Qed.

Lemma labelsAt_snoc : forall p defs d,
  labelsAt p (defs ++ [d])
  = if (fst d =? p)%Z then (labelsAt p defs ++ [snd d])%list else labelsAt p defs.
Proof.
  intros p defs d. unfold labelsAt. rewrite filter_app, map_app. simpl.
  destruct (fst d =? p)%Z; simpl; [reflexivity|apply app_nil_r].
Qed.

Lemma labelsAt_unused : forall p defs, ~ In p (map fst defs) -> labelsAt p defs = [].
Proof.
  induction defs as [|d defs IH]; simpl; intros H; [reflexivity|].
  unfold labelsAt. simpl. destruct (fst d =? p)%Z eqn:E.
  - apply Z.eqb_eq in E. tauto.
  - apply IH. tauto.
Qed.

Lemma get_graph : forall {V} (L : Z -> V) U p,
  In p U -> JsMap.get Z.eqb p (map (fun q => (q, L q)) U) = Some (L p).
Proof.
  induction U as [|q U IH]; simpl; intros p H; [tauto|].
  destruct (q =? p)%Z eqn:E.
  - apply Z.eqb_eq in E. now subst.
  - apply IH. destruct H as [->|H]; [|assumption].
    rewrite Z.eqb_refl in E. discriminate.
Qed.

Lemma set_graph : forall {V} (L L' : Z -> V) U p,
  NoDup U -> In p U ->
  (forall q, In q U -> q <> p -> L' q = L q) ->
  JsMap.set Z.eqb p (L' p) (map (fun q => (q, L q)) U) = map (fun q => (q, L' q)) U.
Proof.
  induction U as [|q U IH]; simpl; intros p Hnd Hin Hsame; [tauto|].
  inversion Hnd as [|? ? Hq Hnd']; subst.
  destruct (q =? p)%Z eqn:E.
  - apply Z.eqb_eq in E. subst q. f_equal.
    apply map_ext_in. intros a Ha. f_equal. symmetry. apply Hsame; [tauto|].
    intros ->. contradiction.
  - assert (q <> p) by (intros ->; rewrite Z.eqb_refl in E; discriminate).
    rewrite (Hsame q) by auto. f_equal.
    apply IH; [assumption|destruct Hin; [contradiction|assumption]|].
    intros a Ha. apply Hsame. tauto.
Qed.

Lemma fold_add_defs : forall defs,
  fold_left (fun seen d => add (fst d) (snd d) seen) defs []
  = map (fun p => (p, labelsAt p defs)) (unique Z.eqb (map fst defs)).
Proof.
  induction defs as [|d defs IH] using rev_ind; [reflexivity|].
  rewrite fold_left_app. simpl. rewrite IH. clear IH.
  rewrite map_app. simpl. rewrite unique_snoc. unfold add.
  destruct (existsb (Z.eqb (fst d)) (unique Z.eqb (map fst defs))) eqn:E.
  - apply existsb_Zeqb_In in E.
    rewrite (get_graph (fun p => labelsAt p defs)) by assumption.
    replace (labelsAt (fst d) defs ++ [snd d])%list
      with (labelsAt (fst d) (defs ++ [d]))
      by (rewrite labelsAt_snoc, Z.eqb_refl; reflexivity).
    apply (set_graph (fun p => labelsAt p defs) (fun p => labelsAt p (defs ++ [d])));
      [apply unique_NoDup|assumption|].
    intros q _ Hq. rewrite labelsAt_snoc.
    destruct (fst d =? q)%Z eqn:Eq; [|reflexivity].
    apply Z.eqb_eq in Eq. congruence.
  - assert (Hnot : ~ In (fst d) (unique Z.eqb (map fst defs))).
    { intros H. apply existsb_Zeqb_In in H. congruence. }
    rewrite notin_get_None with (eqb := Z.eqb);
      [|exact Zeqb_eq
       |unfold JsMap.keys; rewrite map_map; simpl; now rewrite map_id].
    rewrite set_notin with (eqb := Z.eqb);
      [|exact Zeqb_eq
       |unfold JsMap.keys; rewrite map_map; simpl; now rewrite map_id].
    rewrite map_app. simpl. f_equal.
    + apply map_ext_in. intros q Hq. f_equal. rewrite labelsAt_snoc.
      destruct (fst d =? q)%Z eqn:Eq; [|reflexivity].
      apply Z.eqb_eq in Eq. subst q. contradiction.
    + rewrite labelsAt_snoc, Z.eqb_refl.
      rewrite labelsAt_unused; [reflexivity|].
      intros H. apply Hnot. now apply unique_In.
Qed.

Lemma fold_left_map_arg : forall {A B C} (f : A -> C -> A) (g : B -> C) l a,
  fold_left f (map g l) a = fold_left (fun a x => f a (g x)) l a.
Proof. induction l as [|x l IH]; simpl; intros a; [reflexivity|apply IH]. Qed.

Lemma seenPorts_spec : forall env,
  seenPorts env
  = map (fun p => (p, labelsAt p (definitions env)))
        (unique Z.eqb (map fst (definitions env))).
Proof.
  intros env. rewrite <- fold_add_defs. unfold seenPorts, definitions.
  rewrite fold_left_app, !fold_left_map_arg. reflexivity.
Qed.

Lemma reportEnv_spec : forall env errors,
  reportEnv env errors
  = (errors ++ map (fun p => diagnostic env p (labelsAt p (definitions env)))
                   (collidingPorts env))%list.
Proof.
  intros env errors. unfold reportEnv, collidingPorts.
  rewrite seenPorts_spec.
  generalize (unique Z.eqb (map fst (definitions env))) as U.
  intros U. revert errors.
  induction U as [|p U IH]; intros errors; simpl.
  - now rewrite app_nil_r.
  - destruct (1 <? List.length (labelsAt p (definitions env)))%nat; simpl.
    + rewrite IH, <- app_assoc. reflexivity.
    + apply IH.
Qed.

Lemma configDuplicates_spec : forall es, configDuplicates es = duplicatesSpec es.
Proof.
  intros es. unfold configDuplicates, duplicatesSpec.
  change (flat_map
            (fun env => map (fun p => diagnostic env p (labelsAt p (definitions env)))
                            (collidingPorts env)) es)
    with (([] : list string) ++ flat_map
            (fun env => map (fun p => diagnostic env p (labelsAt p (definitions env)))
                            (collidingPorts env)) es)%list.
  generalize ([] : list string) as acc.
  induction es as [|env es IH]; intros acc; simpl.
  - now rewrite app_nil_r.
  - rewrite IH, reportEnv_spec, <- app_assoc. reflexivity.
Qed.

(** C9: [validateConfigDuplicates] reads the configuration only. For each
    environment it yields one diagnostic per port used by more than one
    definition (the colliding ports are pairwise distinct), each listing the
    labels of all definitions on that port. Two managers with the same
    configuration give the same report whatever their registries hold, and an
    environment whose two SSH tunnels both declare port 3306 yields exactly one
    diagnostic, which names both. *)
Theorem validateConfigDuplicates_spec :
  (forall m,
     ForwardManager.validateConfigDuplicates m
     = duplicatesSpec (ForwardManager.envs m))
  /\ (forall env, NoDup (collidingPorts env))
  /\ (forall env p,
        In p (collidingPorts env)
        <-> (1 < List.length (filter (fun d => (fst d =? p)%Z) (definitions env)))%nat)
  /\ (forall m es,
        ForwardManager.validateConfigDuplicates (ForwardManager.setEnvironments es m)
        = ForwardManager.validateConfigDuplicates (ForwardManager.create es))
  /\ (forall envId name ctx keys id1 title1 host1 rport1 ssh1 id2 title2 host2 rport2 ssh2,
        ForwardManager.validateConfigDuplicates
          (ForwardManager.create
             [EnvironmentConfig.mk envId name ctx
                [SshTunnel.mk id1 title1 3306 host1 rport1 ssh1;
                 SshTunnel.mk id2 title2 3306 host2 rport2 ssh2]
                [] keys])
        = ["Env " ++ name ++ ": localPort 3306 used by ssh:" ++ id1 ++ ", ssh:" ++ id2]).
Proof.
  split; [|split; [|split; [|split]]].
  - intros m. apply configDuplicates_spec.
  - intros env. apply NoDup_filter, unique_NoDup.
  - intros env p. unfold collidingPorts, labelsAt. rewrite filter_In, unique_In.
    rewrite length_map, Nat.ltb_lt. split; [tauto|].
    intros H. split; [|assumption].
    destruct (filter (fun d => (fst d =? p)%Z) (definitions env)) as [|d l] eqn:E;
      [simpl in H; lia|].
    assert (Hd : In d (filter (fun d => (fst d =? p)%Z) (definitions env)))
      by (rewrite E; now left).
    apply filter_In in Hd as [Hd Hp]. apply Z.eqb_eq in Hp. subst p.
    now apply in_map.
  - reflexivity.
  - intros. reflexivity.
Qed.

(** ** Deleting from the registry *)

Lemma String_eqb_eq : forall a b : string, (a =? b) = true <-> a = b.
Proof. intros a b. apply String.eqb_eq. Qed.

Lemma delete_as_filter : forall {V} k (P : list (string * V)),
  JsMap.delete String.eqb k P = filter (fun e => negb (fst e =? k)) P.
Proof.
  induction P as [|[k' v'] P IH]; simpl; [reflexivity|].
  destruct (k' =? k); simpl; now rewrite IH.
Qed.

Lemma filter_twice : forall {A} (f g : A -> bool) l,
  filter f (filter g l) = filter (fun x => g x && f x) l.
Proof.
  induction l as [|x l IH]; simpl; [reflexivity|].
  destruct (g x); simpl; [destruct (f x)|]; now rewrite IH.
Qed.

Lemma filter_all : forall {A} (f : A -> bool) l,
  (forall x, In x l -> f x = true) -> filter f l = l.
Proof.
  induction l as [|x l IH]; simpl; intros H; [reflexivity|].
  rewrite H by auto. f_equal. apply IH. auto.
Qed.

Lemma deleteWhere_filter : forall {V} (v : string * V -> bool) l P,
  deleteWhere v l P
  = filter (fun e => negb (existsb (fun e' => v e' && (fst e' =? fst e)) l)) P.
Proof.
  unfold deleteWhere. induction l as [|e0 l IH]; intros P; simpl.
  - symmetry. now apply filter_all.
  - rewrite IH. destruct (v e0) eqn:E; simpl.
    + rewrite delete_as_filter, filter_twice. apply filter_ext. intros e.
      rewrite String.eqb_sym. now rewrite negb_orb.
    + reflexivity.
Qed.

Lemma keys_injective : forall {V} (P : list (string * V)) e e',
  NoDup (JsMap.keys P) -> In e P -> In e' P -> fst e = fst e' -> e = e'.
Proof.
  induction P as [|x P IH]; simpl; intros e e' Hnd He He' Hk; [tauto|].
  inversion Hnd as [|? ? Hx Hnd']; subst.
  destruct He as [->|He], He' as [->|He'].
  - reflexivity.
  - exfalso. apply Hx. rewrite Hk. now apply in_map.
  - exfalso. apply Hx. rewrite <- Hk. now apply in_map.
  - now apply IH.
Qed.

Lemma deleteWhere_self : forall {V} (v : string * V -> bool) P,
  NoDup (JsMap.keys P) ->
  deleteWhere v P P = filter (fun e => negb (v e)) P.
Proof.
  intros V v P Hnd. rewrite deleteWhere_filter. apply filter_ext_in.
  intros e He. f_equal. destruct (v e) eqn:E.
  - apply existsb_exists. exists e. rewrite E, String.eqb_refl. auto.
  - destruct (existsb _ P) eqn:X; [|reflexivity].
    apply existsb_exists in X as [e' [He' X]].
    apply andb_true_iff in X as [Hv Hk]. apply String.eqb_eq in Hk.
    assert (e' = e) by (eapply keys_injective; eauto). congruence.
Qed.

Lemma deleteWhere_ext_in : forall {V} (v v' : string * V -> bool) l P,
  (forall e, In e l -> v e = v' e) -> deleteWhere v l P = deleteWhere v' l P.
Proof.
  unfold deleteWhere. induction l as [|e0 l IH]; intros P H; simpl; [reflexivity|].
  rewrite (H e0) by (now left). apply IH. intros e He. apply H. now right.
Qed.

Lemma NoDup_map_filter : forall {A B} (f : A -> B) (c : A -> bool) l,
  NoDup (map f l) -> NoDup (map f (filter c l)).
Proof.
  induction l as [|x l IH]; simpl; intros H; [constructor|].
  inversion H as [|? ? Hx Hnd]; subst.
  destruct (c x); simpl; [|now apply IH].
  constructor; [|now apply IH].
  intros Hin. apply Hx. apply in_map_iff in Hin as [y [Hy Hin]].
  apply filter_In in Hin as [Hin _]. rewrite <- Hy. now apply in_map.
Qed.

Lemma get_filter_keep : forall {V} (c : string * V -> bool) P id p,
  NoDup (JsMap.keys P) -> In (id, p) P -> c (id, p) = true ->
  JsMap.get String.eqb id (filter c P) = Some p.
Proof.
  intros V c P id p Hnd Hin Hc.
  apply In_get; [exact String_eqb_eq|now apply NoDup_map_filter|].
  apply filter_In. auto.
Qed.

Lemma get_filter_drop : forall {V} (c : string * V -> bool) P id p,
  NoDup (JsMap.keys P) -> In (id, p) P -> c (id, p) = false ->
  JsMap.get String.eqb id (filter c P) = None.
Proof.
  intros V c P id p Hnd Hin Hc.
  apply notin_get_None; [exact String_eqb_eq|].
  intros H. apply in_map_iff in H as [[id' p'] [Hk H]]. simpl in Hk. subst id'.
  apply filter_In in H as [H Hc'].
  assert ((id, p') = (id, p)) by (eapply keys_injective; eauto).
  congruence.
Qed.

Lemma find_values_none : forall {V} (f : V -> bool) (P : list (string * V)),
  find f (JsMap.values P) = None <-> (forall e, In e P -> f (snd e) = false).
Proof.
  intros V f P. unfold JsMap.values. split.
  - intros H e He. eapply find_none in H; [exact H|]. now apply in_map.
  - intros H. induction P as [|x P IH]; simpl; [reflexivity|].
    rewrite (H x) by (now left). apply IH. intros e He. apply H. now right.
Qed.

(** ** [start]: resolution, key registration, the port gate *)

Import ForwardManager.

Lemma addSshKey_fold : forall W files m,
  let m' := fold_left (addSshKey W) files m in
  sameSupervision m m'
  /\ probed m' = probed m
  /\ spawned m'
     = (spawned m ++ map (fun file => ("ssh-add", ["-q"; file]))
                         (filter (existsSync W) files))%list.
Proof.
  intros W files. induction files as [|f files IH]; intros m; simpl.
  - unfold sameSupervision. rewrite app_nil_r. tauto.
  - specialize (IH (addSshKey W m f)). simpl in IH.
    destruct IH as [[He [Hp [Hc [Hf Hk]]]] [Hpr Hs]].
    unfold addSshKey in *. destruct (existsSync W f); simpl in *.
    + unfold sameSupervision. rewrite He, Hp, Hc, Hf, Hk, Hpr, Hs, <- app_assoc.
      simpl. tauto.
    + unfold sameSupervision. tauto.
Qed.

Lemma addSshKeysIfPresent_spec : forall W env m,
  sameSupervision m (addSshKeysIfPresent W env m)
  /\ probed (addSshKeysIfPresent W env m) = probed m
  /\ spawned (addSshKeysIfPresent W env m)
     = (spawned m ++ sshAddCommands W env)%list.
Proof.
  intros W env m. unfold addSshKeysIfPresent, sshAddCommands, sshAddFiles.
  destruct (match EnvironmentConfig.sshAddKeys env with
            | Some ks => ks
            | None => []
            end) as [|k ks] eqn:E.
  - simpl. unfold sameSupervision. rewrite app_nil_r. tauto.
  - apply addSshKey_fold.
Qed.

Lemma findByPort_ext : forall port m m',
  processes m' = processes m -> findByPort port m' = findByPort port m.
Proof. intros port m m' H. unfold findByPort. now rewrite H. Qed.

Lemma isRunning_ext : forall key m m',
  processes m' = processes m -> isRunning key m' = isRunning key m.
Proof. intros key m m' H. unfold isRunning. now rewrite H. Qed.

(** [start] on a key that is not running and resolves is the port gate and
    launch, after the key registration of the environment. *)
Lemma start_resolved : forall W key m env cmd arguments port,
  isRunning key m = false ->
  resolve (envs m) key = Some (env, cmd, arguments, port) ->
  start W key m
  = gateAndLaunch W key cmd arguments port (addSshKeysIfPresent W env m).
Proof.
  intros W key m env cmd arguments port Hrun Hres.
  unfold start, resolve, gateAndLaunch in *. rewrite Hrun.
  destruct (find _ (envs m)) as [env'|]; [|discriminate].
  destruct (ForwardKey.kind key).
  - destruct (find _ (EnvironmentConfig.sshTunnels env')) as [item|]; [|discriminate].
    inversion Hres; subst. reflexivity.
  - destruct (find _ (EnvironmentConfig.k8sForwards env')) as [item|]; [|discriminate].
    inversion Hres; subst. reflexivity.
Qed.

(** [start] on a key that is not running and does not resolve. *)
Lemma start_unresolved : forall W key m,
  isRunning key m = false ->
  resolve (envs m) key = None ->
  match find (fun e => EnvironmentConfig.id e =? ForwardKey.envId key) (envs m) with
  | None => start W key m = (Thrown ("Unknown env " ++ ForwardKey.envId key), m)
  | Some env =>
      start W key m
      = (Thrown (match ForwardKey.kind key with
                 | ssh => "Unknown ssh tunnel " ++ ForwardKey.id key
                 | k8s => "Unknown k8s forward " ++ ForwardKey.id key
                 end),
         addSshKeysIfPresent W env m)
  end.
Proof.
  intros W key m Hrun Hres. unfold start, resolve in *. rewrite Hrun.
  destruct (find _ (envs m)) as [env'|]; [|reflexivity].
  destruct (ForwardKey.kind key).
  - destruct (find _ (EnvironmentConfig.sshTunnels env')) as [item|];
      [discriminate|reflexivity].
  - destruct (find _ (EnvironmentConfig.k8sForwards env')) as [item|];
      [discriminate|reflexivity].
Qed.

Lemma not_running_notin : forall key m,
  isRunning key m = false -> ~ In (keyToId key) (JsMap.keys (processes m)).
Proof.
  intros key m H Hin. unfold isRunning in H.
  apply (has_true_iff String.eqb String_eqb_eq) in Hin. congruence.
Qed.

Lemma running_iff_get : forall key m,
  isRunning key m = true
  <-> exists p, JsMap.get String.eqb (keyToId key) (processes m) = Some p.
Proof.
  intros key m. unfold isRunning, JsMap.has.
  destruct (JsMap.get String.eqb (keyToId key) (processes m)) as [p|].
  - split; [intros _; now exists p|reflexivity].
  - split; [discriminate|intros [p Hp]; discriminate].
Qed.

Lemma findByPort_none_ports : forall port m,
  findByPort port m = None ->
  ~ In port (map RunningProc.localPort (JsMap.values (processes m))).
Proof.
  intros port m H Hin. unfold findByPort in H.
  apply in_map_iff in Hin as [p [Hp Hin]].
  eapply find_none in H; [|exact Hin]. simpl in H.
  rewrite Hp, Z.eqb_refl in H. discriminate.
Qed.

(** The launch itself: [spawnAndTrack] for a key that is not registered. *)
Lemma spawnAndTrack_spec : forall W key cmd arguments port m,
  isRunning key m = false ->
  let m' := spawnAndTrack W key cmd arguments port m in
  processes m'
  = (processes m
       ++ [(keyToId key,
            RunningProc.mk key (List.length (spawned m)) cmd arguments port (now W))])%list
  /\ spawned m' = (spawned m ++ [(cmd, arguments)])%list
  /\ fired m' = S (fired m)
  /\ envs m' = envs m
  /\ portFailureCounts m' = portFailureCounts m
  /\ killed m' = killed m
  /\ probed m' = probed m.
Proof.
  intros W key cmd arguments port m Hrun. unfold spawnAndTrack. simpl.
  rewrite set_notin with (eqb := String.eqb);
    [|exact String_eqb_eq|now apply not_running_notin].
  repeat split; reflexivity.
Qed.

Lemma spawnAndTrack_wf : forall W key cmd arguments port m,
  wf m -> isRunning key m = false -> findByPort port m = None ->
  wf (spawnAndTrack W key cmd arguments port m).
Proof.
  intros W key cmd arguments port m [Hk Hp] Hrun Hfree.
  destruct (spawnAndTrack_spec W key cmd arguments port m Hrun) as [HP _].
  unfold wf. rewrite HP. unfold JsMap.keys, JsMap.values in *.
  rewrite !map_app. simpl. split.
  - apply NoDup_app; [assumption|repeat constructor; simpl; tauto|].
    intros a Ha [<-|[]]. now apply not_running_notin in Hrun.
  - apply NoDup_app; [assumption|repeat constructor; simpl; tauto|].
    intros a Ha [<-|[]]. now apply findByPort_none_ports in Hfree.
Qed.

(** The loop of [pruneDeadByPort]. *)
Lemma prune_loop : forall port l m,
  let m' :=
    fold_left
      (fun m entry =>
         let '(id, p) := entry in
         if (RunningProc.localPort p =? port)%Z
         then setProcesses (JsMap.delete String.eqb id (processes m)) m
         else m) l m in
  processes m' = deleteWhere (holdsPort port) l (processes m)
  /\ envs m' = envs m /\ portFailureCounts m' = portFailureCounts m
  /\ fired m' = fired m /\ spawned m' = spawned m /\ killed m' = killed m
  /\ probed m' = probed m.
Proof.
  intros port l. unfold deleteWhere, holdsPort.
  induction l as [|[id p] l IH]; intros m; simpl; [repeat split; reflexivity|].
  destruct (RunningProc.localPort p =? port)%Z.
  - specialize (IH (setProcesses (JsMap.delete String.eqb id (processes m)) m)).
    simpl in IH. exact IH.
  - apply IH.
Qed.

Lemma pruneDeadByPort_live : forall W port m holder,
  findByPort port m = Some holder ->
  portOpen W port 300 = true ->
  let m' := pruneDeadByPort W port m in
  sameSupervision m m' /\ spawned m' = spawned m
  /\ probed m' = (probed m ++ [port])%list.
Proof.
  intros W port m holder Hh Hlive. unfold pruneDeadByPort. rewrite Hh. simpl.
  rewrite Hlive. unfold sameSupervision. simpl. tauto.
Qed.

Lemma pruneDeadByPort_stale : forall W port m holder,
  NoDup (JsMap.keys (processes m)) ->
  findByPort port m = Some holder ->
  portOpen W port 300 = false ->
  let m' := pruneDeadByPort W port m in
  processes m' = filter (fun e => negb (holdsPort port e)) (processes m)
  /\ killed m' = (killed m ++ [RunningProc.process holder])%list
  /\ probed m' = (probed m ++ [port])%list
  /\ fired m' = S (fired m)
  /\ envs m' = envs m /\ portFailureCounts m' = portFailureCounts m
  /\ spawned m' = spawned m.
Proof.
  intros W port m holder Hnd Hh Hstale. unfold pruneDeadByPort.
  rewrite Hh. simpl. rewrite Hstale.
  match goal with
  | |- context [fold_left ?f ?l ?m0] =>
      destruct (prune_loop port l m0) as [HP [He [Hc [Hf [Hs [Hk Hpr]]]]]]
  end.
  simpl in *. rewrite HP, He, Hc, Hf, Hs, Hk, Hpr.
  rewrite deleteWhere_self by assumption. repeat split; reflexivity.
Qed.

Lemma filter_keys_incl : forall {V} (c : string * V -> bool) P k,
  In k (JsMap.keys (filter c P)) -> In k (JsMap.keys P).
Proof.
  intros V c P k H. unfold JsMap.keys in *.
  apply in_map_iff in H as [e [He H]]. apply filter_In in H as [H _].
  rewrite <- He. now apply in_map.
Qed.

Lemma wf_filter : forall m m' c,
  wf m -> processes m' = filter c (processes m) -> wf m'.
Proof.
  intros m m' c [Hk Hp] H. unfold wf. rewrite H. split.
  - now apply NoDup_map_filter.
  - unfold JsMap.values in *. rewrite map_map in *.
    now apply NoDup_map_filter.
Qed.

Lemma pruneDeadByPort_frame : forall W port m,
  let m' := pruneDeadByPort W port m in
  envs m' = envs m /\ portFailureCounts m' = portFailureCounts m
  /\ spawned m' = spawned m
  /\ exists c, processes m' = filter c (processes m).
Proof.
  intros W port m. unfold pruneDeadByPort.
  destruct (findByPort port m) as [holder|].
  - simpl. destruct (portOpen W port 300).
    + simpl. repeat split. exists (fun _ => true). symmetry. now apply filter_all.
    + match goal with
      | |- context [fold_left ?f ?l ?m0] =>
          destruct (prune_loop port l m0) as [HP [He [Hc [Hf [Hs [Hk Hpr]]]]]]
      end.
      simpl in *. rewrite HP, He, Hc, Hs. repeat split.
      rewrite deleteWhere_filter. eexists. reflexivity.
  - simpl. repeat split. exists (fun _ => true). symmetry. now apply filter_all.
Qed.

(** The three ways through the port gate. *)
Lemma gate_free : forall W key cmd arguments port m,
  findByPort port m = None ->
  gateAndLaunch W key cmd arguments port m
  = (Returned, spawnAndTrack W key cmd arguments port m).
Proof. intros. unfold gateAndLaunch. now rewrite H. Qed.

Lemma gate_live : forall W key cmd arguments port m holder,
  findByPort port m = Some holder ->
  portOpen W port 300 = true ->
  gateAndLaunch W key cmd arguments port m
  = (Thrown (portInUse port), pruneDeadByPort W port m).
Proof.
  intros W key cmd arguments port m holder Hh Hlive. unfold gateAndLaunch.
  rewrite Hh.
  destruct (pruneDeadByPort_live W port m holder Hh Hlive) as [[_ [HP _]] _].
  rewrite (findByPort_ext port m _ HP), Hh. reflexivity.
Qed.

Lemma gate_stale : forall W key cmd arguments port m holder,
  NoDup (JsMap.keys (processes m)) ->
  findByPort port m = Some holder ->
  portOpen W port 300 = false ->
  gateAndLaunch W key cmd arguments port m
  = (Returned, spawnAndTrack W key cmd arguments port (pruneDeadByPort W port m))
  /\ findByPort port (pruneDeadByPort W port m) = None.
Proof.
  intros W key cmd arguments port m holder Hnd Hh Hstale.
  destruct (pruneDeadByPort_stale W port m holder Hnd Hh Hstale) as [HP _].
  assert (Hnone : findByPort port (pruneDeadByPort W port m) = None).
  { unfold findByPort. apply find_values_none. intros e He.
    rewrite HP in He. apply filter_In in He as [_ He].
    unfold holdsPort in He. now apply negb_true_iff in He. }
  split; [|assumption]. unfold gateAndLaunch. now rewrite Hh, Hnone.
Qed.

Lemma gate_returned : forall W key cmd arguments port m m1,
  gateAndLaunch W key cmd arguments port m = (Returned, m1) ->
  exists mX,
    m1 = spawnAndTrack W key cmd arguments port mX
    /\ findByPort port mX = None
    /\ envs mX = envs m /\ portFailureCounts mX = portFailureCounts m
    /\ spawned mX = spawned m
    /\ exists c, processes mX = filter c (processes m).
Proof.
  intros W key cmd arguments port m m1 H. unfold gateAndLaunch in H.
  destruct (findByPort port m) as [holder|] eqn:Hh.
  - destruct (findByPort port (pruneDeadByPort W port m)) eqn:Hh'; [discriminate|].
    inversion H; subst. exists (pruneDeadByPort W port m).
    destruct (pruneDeadByPort_frame W port m) as [He [Hc [Hs Hf]]].
    repeat split; assumption.
  - inversion H; subst. exists m. repeat split; try assumption.
    exists (fun _ => true). symmetry. now apply filter_all.
Qed.

Lemma find_set_holder : forall {V} (f : V -> bool) k v (P : list (string * V)),
  (forall e, In e P -> f (snd e) = false) -> f v = true ->
  find f (JsMap.values (JsMap.set String.eqb k v P)) = Some v.
Proof.
  induction P as [|[k' v'] P IH]; simpl; intros Hnone Hv.
  - now rewrite Hv.
  - destruct (k' =? k); simpl.
    + now rewrite Hv.
    + pose proof (Hnone (k', v') (or_introl eq_refl)) as Hv'. simpl in Hv'.
      rewrite Hv'. apply IH; auto.
Qed.

Lemma one_entry_per_key : forall {V} (P : list (string * V)) k,
  NoDup (JsMap.keys P) -> In k (JsMap.keys P) ->
  List.length (filter (fun e => fst e =? k) P) = 1%nat.
Proof.
  induction P as [|[k' v'] P IH]; simpl; intros k Hnd Hin; [tauto|].
  inversion Hnd as [|? ? Hk Hnd']; subst.
  destruct (k' =? k) eqn:E; simpl.
  - apply String.eqb_eq in E. subst k'. f_equal.
    rewrite (proj2 (List.length_zero_iff_nil _)); [reflexivity|].
    destruct (filter (fun e => fst e =? k) P) as [|e l] eqn:F; [reflexivity|].
    assert (He : In e (filter (fun e => fst e =? k) P)) by (rewrite F; now left).
    apply filter_In in He as [He Hek]. apply String.eqb_eq in Hek.
    exfalso. apply Hk. rewrite <- Hek. now apply in_map.
  - apply IH; [assumption|]. destruct Hin as [->|Hin]; [|assumption].
    rewrite String.eqb_refl in E. discriminate.
Qed.

(** ** C2: starting a running key *)

(** C2: for every key already in the registry, [start] returns without
    error and leaves the whole state as it was (nothing is spawned, killed,
    logged or notified); the registry holds exactly one entry for the key. *)
Theorem start_idempotent : forall W key m,
  wf m ->
  isRunning key m = true ->
  start W key m = (Returned, m)
  /\ List.length (filter (fun e => fst e =? keyToId key) (processes m)) = 1%nat.
Proof.
  intros W key m [Hnd _] Hrun. split.
  - unfold start. now rewrite Hrun.
  - apply one_entry_per_key; [assumption|].
    unfold isRunning in Hrun.
    now apply (has_true_iff String.eqb String_eqb_eq) in Hrun.
Qed.

(** The earlier generation returns at once as well. *)
Lemma legacy_start_idempotent : forall W exited key m,
  Legacy.isRunning key m = true -> Legacy.start W exited key m = (Returned, m).
Proof. intros W exited key m H. unfold Legacy.start. now rewrite H. Qed.

Ltac solve_wf :=
  unfold wf; vm_compute; split;
  repeat (constructor; [simpl; intuition discriminate|]); constructor.

Lemma start_idempotent_witness :
  start (exWorld true 2000) kDb exRunning = (Returned, exRunning)
  /\ List.length (filter (fun e => fst e =? keyToId kDb) (processes exRunning)) = 1%nat.
Proof. apply start_idempotent; [solve_wf|reflexivity]. Defined.

(** ** C3: the SSH command *)

(** What a successful [start] of a key that was not running leaves behind. *)
Lemma start_launches : forall W key m m' env cmd arguments port,
  isRunning key m = false ->
  resolve (envs m) key = Some (env, cmd, arguments, port) ->
  start W key m = (Returned, m') ->
  spawned m' = (spawned m ++ sshAddCommands W env ++ [(cmd, arguments)])%list
  /\ envs m' = envs m
  /\ portFailureCounts m' = portFailureCounts m
  /\ isRunning key m' = true
  /\ (exists p, findByPort port m' = Some p
                /\ JsMap.get String.eqb (keyToId key) (processes m') = Some p
                /\ RunningProc.key p = key /\ RunningProc.command p = cmd
                /\ RunningProc.args p = arguments /\ RunningProc.localPort p = port
                /\ RunningProc.startedAt p = now W)
  /\ (forall key', isRunning key' m = false -> keyToId key' <> keyToId key ->
                   isRunning key' m' = false).
Proof.
  intros W key m m' env cmd arguments port Hrun Hres Hstart.
  rewrite (start_resolved W key m env cmd arguments port Hrun Hres) in Hstart.
  destruct (addSshKeysIfPresent_spec W env m) as [[He [HP [Hc _]]] [_ Hs]].
  apply gate_returned in Hstart
    as [mX [-> [Hfree [HeX [HcX [HsX [c HPX]]]]]]].
  unfold spawnAndTrack. simpl. repeat split.
  - rewrite HsX, Hs, <- app_assoc. reflexivity.
  - congruence.
  - congruence.
  - unfold isRunning, JsMap.has. simpl.
    now rewrite (get_set_same String.eqb String_eqb_eq).
  - eexists. split; [|split; [apply (get_set_same String.eqb String_eqb_eq)|]].
    + unfold findByPort. simpl. apply find_set_holder.
      * exact (proj1 (find_values_none _ _) Hfree).
      * simpl. apply Z.eqb_refl.
    + simpl. repeat split; reflexivity.
  - intros key' Hrun' Hne. unfold isRunning, JsMap.has. simpl.
    rewrite (get_set_other String.eqb String_eqb_eq) by congruence.
    rewrite notin_get_None with (eqb := String.eqb);
      [reflexivity|exact String_eqb_eq|].
    intros Hin. rewrite HPX in Hin. apply filter_keys_incl in Hin.
    rewrite HP in Hin. now apply not_running_notin in Hrun'.
Qed.

Lemma start_returned_resolves : forall W key m m',
  isRunning key m = false ->
  start W key m = (Returned, m') ->
  exists env cmd arguments port,
    resolve (envs m) key = Some (env, cmd, arguments, port).
Proof.
  intros W key m m' Hrun Hstart.
  destruct (resolve (envs m) key) as [[[[env cmd] arguments] port]|] eqn:Hres.
  - now exists env, cmd, arguments, port.
  - pose proof (start_unresolved W key m Hrun Hres) as H.
    destruct (find _ (envs m)); rewrite H in Hstart; discriminate.
Qed.

(** C3, as the code has it: every [start] of the current generation of
    [ForwardManager] on an SSH key that launches anything launches [ssh]
    with exactly the argument list
    [-v -o ExitOnForwardFailure=yes -o ServerAliveInterval=60
     -o ServerAliveCountMax=3 -o ControlMaster=no -o ControlPersist=no
     -o StrictHostKeyChecking=no -NL localPort:remoteHost:remotePort sshHost]
    of the resolved tunnel definition, in that order; it is the last [spawn]
    of the call (after the [ssh-add] calls for the environment's key files)
    and the command recorded in the registry. *)
Theorem start_ssh_command : forall W key m m',
  ForwardKey.kind key = ssh ->
  isRunning key m = false ->
  start W key m = (Returned, m') ->
  exists env item,
    find (fun e => EnvironmentConfig.id e =? ForwardKey.envId key) (envs m) = Some env
    /\ find (fun t => SshTunnel.id t =? ForwardKey.id key)
            (EnvironmentConfig.sshTunnels env) = Some item
    /\ let arguments :=
         [ "-v";
           "-o"; "ExitOnForwardFailure=yes";
           "-o"; "ServerAliveInterval=60";
           "-o"; "ServerAliveCountMax=3";
           "-o"; "ControlMaster=no";
           "-o"; "ControlPersist=no";
           "-o"; "StrictHostKeyChecking=no";
           "-NL"; numToString (SshTunnel.localPort item) ++ ":"
                    ++ SshTunnel.remoteHost item ++ ":"
                    ++ numToString (SshTunnel.remotePort item);
           SshTunnel.sshHost item ] in
       spawned m' = (spawned m ++ sshAddCommands W env ++ [("ssh", arguments)])%list
       /\ exists p,
            JsMap.get String.eqb (keyToId key) (processes m') = Some p
            /\ RunningProc.command p = "ssh" /\ RunningProc.args p = arguments.
Proof.
  intros W key m m' Hkind Hrun Hstart.
  destruct (start_returned_resolves W key m m' Hrun Hstart)
    as [env [cmd [arguments [port Hres]]]].
  destruct (start_launches W key m m' env cmd arguments port Hrun Hres Hstart)
    as [Hs [_ [_ [_ [[p [_ [Hget [_ [Hcmd [Hargs _]]]]]] _]]]]].
  unfold resolve in Hres. rewrite Hkind in Hres.
  destruct (find _ (envs m)) as [env'|] eqn:Henv; [|discriminate].
  destruct (find _ (EnvironmentConfig.sshTunnels env')) as [item|] eqn:Hitem;
    [|discriminate].
  injection Hres as E1 E2 E3 E4. subst env' cmd arguments port.
  exists env, item.
  split; [reflexivity|]. split; [exact Hitem|]. cbv zeta.
  split; [exact Hs|]. exists p. auto.
Qed.

Lemma start_ssh_command_witness :
  exists env item,
    find (fun e => EnvironmentConfig.id e =? ForwardKey.envId kDb) (envs exFresh)
      = Some env
    /\ find (fun t => SshTunnel.id t =? ForwardKey.id kDb)
            (EnvironmentConfig.sshTunnels env) = Some item
    /\ let arguments :=
         [ "-v";
           "-o"; "ExitOnForwardFailure=yes";
           "-o"; "ServerAliveInterval=60";
           "-o"; "ServerAliveCountMax=3";
           "-o"; "ControlMaster=no";
           "-o"; "ControlPersist=no";
           "-o"; "StrictHostKeyChecking=no";
           "-NL"; numToString (SshTunnel.localPort item) ++ ":"
                    ++ SshTunnel.remoteHost item ++ ":"
                    ++ numToString (SshTunnel.remotePort item);
           SshTunnel.sshHost item ] in
       spawned exRunning
       = (spawned exFresh ++ sshAddCommands (exWorld true 1000) env
            ++ [("ssh", arguments)])%list
       /\ exists p,
            JsMap.get String.eqb (keyToId kDb) (processes exRunning) = Some p
            /\ RunningProc.command p = "ssh" /\ RunningProc.args p = arguments.
Proof.
  apply (start_ssh_command (exWorld true 1000) kDb exFresh exRunning);
    reflexivity.
Defined.

(** The scenario of the specification: the command line of [kDb]. *)
Example start_ssh_command_scenario :
  spawned exRunning
  = [ ("ssh-add", ["-q"; "/keys/id_stg"]);
      ("ssh", [ "-v"; "-o"; "ExitOnForwardFailure=yes"; "-o";
                "ServerAliveInterval=60"; "-o"; "ServerAliveCountMax=3"; "-o";
                "ControlMaster=no"; "-o"; "ControlPersist=no"; "-o";
                "StrictHostKeyChecking=no"; "-NL"; "3316:1.2.3.4:3306"; "stg" ]) ]
  /\ getOccupiedPorts exRunning = [3316%Z]
  /\ getOccupiedPorts (stop kDb exRunning) = [].
Proof. repeat split. Qed.

(** The Kubernetes forward of the same environment, with and without a
    [kubectl] context. *)
Example start_kubectl_command_scenario :
  spawned (snd (start (exWorld true 1000) kSvc (create [exEnv])))
  = [ ("ssh-add", ["-q"; "/keys/id_stg"]);
      ("kubectl", ["-n"; "ns"; "port-forward"; "services/svc"; "18001:8001"]) ]
  /\ kubectlArgs
       (EnvironmentConfig.mk "stg" "Staging" (Some "stg4") [] [] None)
       (K8sForward.mk "svc" "service:18001" "ns" "svc" 18001 8001)
     = ["--context"; "stg4"; "-n"; "ns"; "port-forward"; "services/svc"; "18001:8001"].
Proof. repeat split. Qed.

(** C3 as stated fails: it speaks of every SSH-kind [start], and the [start]
    of the earlier generation launches [ssh] for [kDb] with ten arguments,
    without [ServerAliveCountMax], [ControlMaster] and [ControlPersist],
    which is not the list of the claim. *)
Lemma start_ssh_command_counterexample :
  Legacy.spawned (snd (Legacy.start (exWorld true 1000) None kDb (Legacy.create [exEnv])))
  = [ ("ssh", [ "-v";
                "-o"; "ExitOnForwardFailure=yes";
                "-o"; "ServerAliveInterval=60";
                "-o"; "StrictHostKeyChecking=no";
                "-NL"; "3316:1.2.3.4:3306";
                "stg" ]) ]
  /\ Legacy.spawned
       (snd (Legacy.start (exWorld true 1000) None kDb (Legacy.create [exEnv])))
     <> [ ("ssh", [ "-v";
                    "-o"; "ExitOnForwardFailure=yes";
                    "-o"; "ServerAliveInterval=60";
                    "-o"; "ServerAliveCountMax=3";
                    "-o"; "ControlMaster=no";
                    "-o"; "ControlPersist=no";
                    "-o"; "StrictHostKeyChecking=no";
                    "-NL"; "3316:1.2.3.4:3306";
                    "stg" ]) ].
Proof. split; [reflexivity|vm_compute; discriminate]. Qed.

(** The list of the earlier generation for any tunnel: whatever happens
    during the wait for the port, the one [spawn] of the call is [ssh] with
    these ten arguments. *)
Lemma legacy_start_ssh_arguments : forall W exited key m env item,
  ForwardKey.kind key = ssh ->
  Legacy.isRunning key m = false ->
  find (fun e => EnvironmentConfig.id e =? ForwardKey.envId key) (Legacy.envs m) = Some env ->
  find (fun t => SshTunnel.id t =? ForwardKey.id key)
       (EnvironmentConfig.sshTunnels env) = Some item ->
  Legacy.findByPort (SshTunnel.localPort item) m = None ->
  Legacy.spawned (snd (Legacy.start W exited key m))
  = app (Legacy.spawned m)
        [ ("ssh", [ "-v";
                    "-o"; "ExitOnForwardFailure=yes";
                    "-o"; "ServerAliveInterval=60";
                    "-o"; "StrictHostKeyChecking=no";
                    "-NL"; numToString (SshTunnel.localPort item) ++ ":"
                             ++ SshTunnel.remoteHost item ++ ":"
                             ++ numToString (SshTunnel.remotePort item);
                    SshTunnel.sshHost item ]) ].
Proof.
  intros W exited key m env item Hkind Hrun Henv Hitem Hfree.
  unfold Legacy.start. rewrite Hrun, Henv, Hkind, Hitem. cbv zeta. rewrite Hfree.
  assert (Hstop : forall s, Legacy.spawned (Legacy.stop key s) = Legacy.spawned s).
  { intros s. unfold Legacy.stop.
    destruct (JsMap.get String.eqb (keyToId key) (Legacy.processes s)); reflexivity. }
  destruct (Legacy.waitForPort W (SshTunnel.localPort item) 5000); cbn [snd];
    [|rewrite Hstop]; destruct exited as [[code signal]|]; reflexivity.
Qed.

(** The earlier generation passes a shorter list: it has no
    [ServerAliveCountMax], [ControlMaster] or [ControlPersist] option. *)
Lemma legacy_start_ssh_command :
  Legacy.spawned (snd (Legacy.start (exWorld true 1000) None kDb (Legacy.create [exEnv])))
  = [ ("ssh", [ "-v"; "-o"; "ExitOnForwardFailure=yes"; "-o";
                "ServerAliveInterval=60"; "-o"; "StrictHostKeyChecking=no";
                "-NL"; "3316:1.2.3.4:3306"; "stg" ]) ].
Proof. reflexivity. Qed.

(** ** C4: the port gate *)

(** C4: let [start] be called on a key that is not running and resolves to a
    definition on [port]. If no registered forward holds [port], it launches
    without probing. If one does, it probes [port] first: when the port does
    not accept a connection, the holder's process is killed, every entry on
    [port] leaves the registry, the gate is passed and the key is launched;
    when the port accepts a connection, [start] throws the port-conflict
    error and the registry stays as it was. *)
Theorem start_port_gate : forall W key m env cmd arguments port,
  wf m ->
  isRunning key m = false ->
  resolve (envs m) key = Some (env, cmd, arguments, port) ->
  let entry :=
    (keyToId key,
     RunningProc.mk key (List.length (spawned m ++ sshAddCommands W env))
                    cmd arguments port (now W)) in
  (findByPort port m = None ->
   exists m', start W key m = (Returned, m')
     /\ processes m' = (processes m ++ [entry])%list
     /\ killed m' = killed m /\ probed m' = probed m)
  /\ (forall holder,
        findByPort port m = Some holder ->
        portOpen W port 300 = false ->
        exists m', start W key m = (Returned, m')
          /\ processes m'
             = (filter (fun e => negb (holdsPort port e)) (processes m) ++ [entry])%list
          /\ killed m' = (killed m ++ [RunningProc.process holder])%list
          /\ probed m' = (probed m ++ [port])%list)
  /\ (forall holder,
        findByPort port m = Some holder ->
        portOpen W port 300 = true ->
        exists m', start W key m = (Thrown (portInUse port), m')
          /\ processes m' = processes m
          /\ killed m' = killed m
          /\ probed m' = (probed m ++ [port])%list).
Proof.
  intros W key m env cmd arguments port [Hnd Hports] Hrun Hres entry.
  rewrite (start_resolved W key m env cmd arguments port Hrun Hres).
  destruct (addSshKeysIfPresent_spec W env m) as [[He [HP [Hc [Hf Hk]]]] [Hpr Hs]].
  set (m0 := addSshKeysIfPresent W env m) in *.
  assert (Hrun0 : isRunning key m0 = false)
    by (rewrite (isRunning_ext key m m0 HP); exact Hrun).
  split; [|split].
  - intros Hfree. rewrite <- (findByPort_ext port m m0 HP) in Hfree.
    rewrite (gate_free W key cmd arguments port m0 Hfree).
    destruct (spawnAndTrack_spec W key cmd arguments port m0 Hrun0)
      as [HP' [_ [_ [_ [_ [Hk' Hpr']]]]]].
    eexists. split; [reflexivity|].
    rewrite HP', Hk', Hpr', HP, Hk, Hpr, Hs. auto.
  - intros holder Hh Hstale. rewrite <- (findByPort_ext port m m0 HP) in Hh.
    assert (Hnd0 : NoDup (JsMap.keys (processes m0))) by (rewrite HP; exact Hnd).
    destruct (gate_stale W key cmd arguments port m0 holder Hnd0 Hh Hstale)
      as [-> _].
    destruct (pruneDeadByPort_stale W port m0 holder Hnd0 Hh Hstale)
      as [HPp [Hkp [Hprp [_ [_ [_ Hsp]]]]]].
    set (m1 := pruneDeadByPort W port m0) in *.
    assert (Hrun1 : isRunning key m1 = false).
    { unfold isRunning. apply not_true_is_false. intros Hin.
      apply (has_true_iff String.eqb String_eqb_eq) in Hin.
      rewrite HPp in Hin. apply filter_keys_incl in Hin.
      now apply not_running_notin in Hrun0. }
    destruct (spawnAndTrack_spec W key cmd arguments port m1 Hrun1)
      as [HP' [_ [_ [_ [_ [Hk' Hpr']]]]]].
    eexists. split; [reflexivity|].
    rewrite HP', Hk', Hpr', HPp, Hkp, Hprp, Hsp, HP, Hk, Hpr, Hs. auto.
  - intros holder Hh Hlive. rewrite <- (findByPort_ext port m m0 HP) in Hh.
    rewrite (gate_live W key cmd arguments port m0 holder Hh Hlive).
    destruct (pruneDeadByPort_live W port m0 holder Hh Hlive)
      as [[_ [HPp [_ [_ Hkp]]]] [_ Hprp]].
    eexists. split; [reflexivity|].
    rewrite HPp, Hkp, Hprp, HP, Hk, Hpr. auto.
Qed.

Lemma start_port_gate_witness :
  exists m',
    start (exWorld false 2000) kReplica exRunning = (Returned, m')
    /\ JsMap.keys (processes m') = ["stg:ssh:replica"]
    /\ killed m' = [1%nat]
    /\ probed m' = [3316%Z].
Proof.
  edestruct (start_port_gate (exWorld false 2000) kReplica exRunning)
    as [_ [H _]]; [solve_wf|reflexivity|reflexivity|].
  edestruct H as [m' [Hs [HP [Hk Hp]]]]; [reflexivity|reflexivity|].
  exists m'. rewrite HP, Hk, Hp. repeat split; try exact Hs; reflexivity.
Defined.

(** ** C1: two keys on one port *)

(** C1, as the code has it: let [k1] and [k2] have different string forms,
    resolve to definitions on the same [port], and neither be running. If
    [start(k1)] returns and the probe of [port] then finds it accepting
    connections, [start(k2)] throws "Port <port> is already used by another
    forward". The message carries the port; the holder is found through
    [findByPort], which answers with the entry of [k1]. The registry, the
    failure counts, the kills and the notifications are as [start(k1)] left
    them, [k1] is still registered, [k2] is not, and the only processes
    [start(k2)] spawned are the [ssh-add] calls for its environment's key
    files. *)
Theorem start_conflict_when_port_live :
  forall W1 W2 m m1 k1 k2 env1 cmd1 args1 env2 cmd2 args2 port,
  keyToId k1 <> keyToId k2 ->
  isRunning k1 m = false ->
  isRunning k2 m = false ->
  resolve (envs m) k1 = Some (env1, cmd1, args1, port) ->
  resolve (envs m) k2 = Some (env2, cmd2, args2, port) ->
  start W1 k1 m = (Returned, m1) ->
  portOpen W2 port 300 = true ->
  exists m2,
    start W2 k2 m1 = (Thrown (portInUse port), m2)
    /\ portInUse port = "Port " ++ numToString port ++ " is already used by another forward"
    /\ (exists p, findByPort port m2 = Some p /\ RunningProc.key p = k1)
    /\ processes m2 = processes m1
    /\ isRunning k1 m2 = true
    /\ isRunning k2 m2 = false
    /\ portFailureCounts m2 = portFailureCounts m1
    /\ fired m2 = fired m1
    /\ killed m2 = killed m1
    /\ spawned m2 = (spawned m1 ++ sshAddCommands W2 env2)%list.
Proof.
  intros W1 W2 m m1 k1 k2 env1 cmd1 args1 env2 cmd2 args2 port
         Hne Hrun1 Hrun2 Hres1 Hres2 Hstart Hlive.
  destruct (start_launches W1 k1 m m1 env1 cmd1 args1 port Hrun1 Hres1 Hstart)
    as [_ [He1 [_ [Hk1 [[p [Hp [_ [Hkey _]]]] Hothers]]]]].
  assert (Hrun2' : isRunning k2 m1 = false) by (apply Hothers; auto).
  rewrite <- He1 in Hres2.
  rewrite (start_resolved W2 k2 m1 env2 cmd2 args2 port Hrun2' Hres2).
  destruct (addSshKeysIfPresent_spec W2 env2 m1) as [[He [HP [Hc [Hf Hk]]]] [Hpr Hs]].
  set (m0 := addSshKeysIfPresent W2 env2 m1) in *.
  assert (Hp0 : findByPort port m0 = Some p)
    by (rewrite (findByPort_ext port m1 m0 HP); exact Hp).
  rewrite (gate_live W2 k2 cmd2 args2 port m0 p Hp0 Hlive).
  destruct (pruneDeadByPort_live W2 port m0 p Hp0 Hlive)
    as [[_ [HPp [Hcp [Hfp Hkp]]]] [Hsp _]].
  set (m2 := pruneDeadByPort W2 port m0) in *.
  assert (HP2 : processes m2 = processes m1) by congruence.
  exists m2. split; [reflexivity|]. split; [reflexivity|].
  split; [exists p; split; [rewrite (findByPort_ext port m1 m2 HP2)|]; assumption|].
  split; [exact HP2|].
  split; [rewrite (isRunning_ext k1 m1 m2 HP2); exact Hk1|].
  split; [rewrite (isRunning_ext k2 m1 m2 HP2); exact Hrun2'|].
  repeat split; congruence.
Qed.

Lemma start_conflict_when_port_live_witness :
  exists m2,
    start (exWorld true 2000) kReplica exRunning = (Thrown (portInUse 3316), m2)
    /\ portInUse 3316 = "Port " ++ numToString 3316 ++ " is already used by another forward"
    /\ (exists p, findByPort 3316 m2 = Some p /\ RunningProc.key p = kDb)
    /\ processes m2 = processes exRunning
    /\ isRunning kDb m2 = true
    /\ isRunning kReplica m2 = false
    /\ portFailureCounts m2 = portFailureCounts exRunning
    /\ fired m2 = fired exRunning
    /\ killed m2 = killed exRunning
    /\ spawned m2 = (spawned exRunning ++ sshAddCommands (exWorld true 2000) exEnv)%list.
Proof.
  eapply (start_conflict_when_port_live (exWorld true 1000) (exWorld true 2000)
            exFresh exRunning kDb kReplica);
    try reflexivity.
  vm_compute. discriminate.
Defined.

(** C1 as stated fails. Right after [start(kDb)] the port may not accept
    connections yet: [start(kReplica)] then returns, [kDb] is killed and
    dropped from the registry and [kReplica] is registered on the port. When
    the port is live, the message of the error names the port only. Two
    distinct keys with one string form are one registry entry: the second
    [start] returns at once. And a key that was started under an earlier
    configuration is running already when its definition is moved onto the
    port of another: its [start] returns at once, too. *)
Lemma start_conflict_counterexample :
  (fst (start (exWorld false 1000) kDb exFresh) = Returned
   /\ fst (start (exWorld false 2000) kReplica
             (snd (start (exWorld false 1000) kDb exFresh))) = Returned
   /\ isRunning kDb
        (snd (start (exWorld false 2000) kReplica
                (snd (start (exWorld false 1000) kDb exFresh)))) = false
   /\ isRunning kReplica
        (snd (start (exWorld false 2000) kReplica
                (snd (start (exWorld false 1000) kDb exFresh)))) = true)
  /\ fst (start (exWorld true 2000) kReplica exRunning)
     = Thrown "Port 3316 is already used by another forward"
  /\ (kFirst <> kSecond
      /\ resolve exAmbiguous kFirst
         = Some (nth 0 exAmbiguous exEnv, "ssh",
                 sshArgs (SshTunnel.mk "ssh:b" "first" 5432 "10.0.0.1" 5432 "gw"), 5432%Z)
      /\ resolve exAmbiguous kSecond
         = Some (nth 1 exAmbiguous exEnv, "ssh",
                 sshArgs (SshTunnel.mk "b" "second" 5432 "10.0.0.2" 5432 "gw"), 5432%Z)
      /\ fst (start (exWorld true 1000) kFirst (create exAmbiguous)) = Returned
      /\ start (exWorld true 2000) kSecond
           (snd (start (exWorld true 1000) kFirst (create exAmbiguous)))
         = (Returned, snd (start (exWorld true 1000) kFirst (create exAmbiguous))))
  /\ (getPortUsage exReconfigured = [(3317%Z, "stg:ssh:replica"); (3316%Z, "stg:ssh:db")]
      /\ option_map snd (resolve (envs exReconfigured) kDb) = Some 3316%Z
      /\ option_map snd (resolve (envs exReconfigured) kReplica) = Some 3316%Z
      /\ start (exWorld true 4000) kReplica exReconfigured = (Returned, exReconfigured)).
Proof. repeat split. discriminate. Qed.

(** ** C10: unknown environment, unknown definition *)

(** C10, as the code has it: let [start] be called on a key that is not
    running. If no environment has the key's [envId], it throws
    "Unknown env <envId>" and the state is untouched. If the environment
    exists but has no definition of the key's kind and [id], it throws
    "Unknown ssh tunnel <id>" or "Unknown k8s forward <id>"; by then the
    environment's key files have been handed to [ssh-add], so the [spawn] log
    has grown by those calls, while the configuration, the registry, the
    failure counts, the kills, the probes and the notifications are as
    before: no forwarding process is spawned or registered. *)
Theorem start_unknown_leaves_supervision : forall W key m,
  isRunning key m = false ->
  resolve (envs m) key = None ->
  (find (fun e => EnvironmentConfig.id e =? ForwardKey.envId key) (envs m) = None ->
   start W key m = (Thrown ("Unknown env " ++ ForwardKey.envId key), m))
  /\ (forall env,
        find (fun e => EnvironmentConfig.id e =? ForwardKey.envId key) (envs m)
          = Some env ->
        exists m',
          start W key m
          = (Thrown (match ForwardKey.kind key with
                     | ssh => "Unknown ssh tunnel " ++ ForwardKey.id key
                     | k8s => "Unknown k8s forward " ++ ForwardKey.id key
                     end), m')
          /\ envs m' = envs m
          /\ processes m' = processes m
          /\ portFailureCounts m' = portFailureCounts m
          /\ fired m' = fired m
          /\ killed m' = killed m
          /\ probed m' = probed m
          /\ spawned m' = (spawned m ++ sshAddCommands W env)%list).
Proof.
  intros W key m Hrun Hres.
  pose proof (start_unresolved W key m Hrun Hres) as H.
  split.
  - intros Hnone. now rewrite Hnone in H.
  - intros env Henv. rewrite Henv in H.
    destruct (addSshKeysIfPresent_spec W env m) as [[He [HP [Hc [Hf Hk]]]] [Hpr Hs]].
    exists (addSshKeysIfPresent W env m). repeat split; assumption.
Qed.

Lemma start_unknown_leaves_supervision_witness :
  exists m',
    start (exWorld true 2000) kNope exRunning = (Thrown "Unknown ssh tunnel nope", m')
    /\ envs m' = envs exRunning
    /\ processes m' = processes exRunning
    /\ portFailureCounts m' = portFailureCounts exRunning
    /\ fired m' = fired exRunning
    /\ killed m' = killed exRunning
    /\ probed m' = probed exRunning
    /\ spawned m' = (spawned exRunning ++ sshAddCommands (exWorld true 2000) exEnv)%list.
Proof.
  destruct (start_unknown_leaves_supervision (exWorld true 2000) kNope exRunning
              eq_refl eq_refl) as [_ H].
  exact (H exEnv eq_refl).
Defined.

(** C10 as stated fails: the environment resolves, the tunnel does not, and
    [start] has spawned [ssh-add] for the environment's key file before it
    throws. *)
Lemma start_unknown_counterexample :
  start (exWorld true 1000) kNope exFresh
  = (Thrown "Unknown ssh tunnel nope",
     ForwardManager.mk [exEnv] [] [] ["ssh-add attempted for /keys/id_stg"] 0
       [("ssh-add", ["-q"; "/keys/id_stg"])] [] [])
  /\ spawned exFresh = []
  /\ spawned (snd (start (exWorld true 1000) kNope exFresh))
     = [("ssh-add", ["-q"; "/keys/id_stg"])].
Proof. repeat split. Qed.

(** ** The health sweep *)

Lemma verdicts_ext : forall W m m' e,
  JsMap.get String.eqb (fst e) (portFailureCounts m')
  = JsMap.get String.eqb (fst e) (portFailureCounts m) ->
  evicts W m' e = evicts W m e
  /\ strikesOut W m' e = strikesOut W m e
  /\ countAfter W m' e = countAfter W m e.
Proof.
  intros W m m' e H.
  unfold evicts, strikesOut, countAfter, failureCount. rewrite H. auto.
Qed.

(** One turn of the loop, field by field. *)
Lemma healthStep_spec : forall W changed m e,
  let r := healthStep W (changed, m) e in
  processes (snd r)
  = (if evicts W m e then JsMap.delete String.eqb (fst e) (processes m)
     else processes m)
  /\ fst r = changed || evicts W m e
  /\ killed (snd r)
     = (killed m ++ if strikesOut W m e then [RunningProc.process (snd e)] else [])%list
  /\ probed (snd r)
     = (probed m ++ if probes W e then [RunningProc.localPort (snd e)] else [])%list
  /\ fired (snd r) = fired m /\ envs (snd r) = envs m /\ spawned (snd r) = spawned m
  /\ (forall id, id <> fst e ->
        JsMap.get String.eqb id (portFailureCounts (snd r))
        = JsMap.get String.eqb id (portFailureCounts m))
  /\ JsMap.get String.eqb (fst e) (portFailureCounts (snd r)) = countAfter W m e.
Proof.
  intros W changed m [id p].
  unfold healthStep, countAfter, evicts, strikesOut, probes. simpl.
  destruct (exitCode W (RunningProc.process p)) as [code|]; simpl.
  - rewrite orb_true_r, !app_nil_r.
    rewrite (get_delete_same String.eqb). repeat split.
    intros id' Hne. apply (get_delete_other String.eqb String_eqb_eq). congruence.
  - destruct (now W - RunningProc.startedAt p <? healthGraceMs)%Z; simpl.
    + rewrite orb_false_r, !app_nil_r. repeat split; intros; reflexivity.
    + destruct (portOpen W (RunningProc.localPort p) 1200); simpl.
      * rewrite orb_false_r, app_nil_r.
        unfold JsMap.has.
        destruct (JsMap.get String.eqb id (portFailureCounts m)) eqn:G; simpl.
        -- rewrite (get_delete_same String.eqb). repeat split.
           intros id' Hne.
           apply (get_delete_other String.eqb String_eqb_eq). congruence.
        -- repeat split; intros; try reflexivity. exact G.
      * unfold failureCount. simpl.
        destruct (3 <=? _)%Z eqn:T; simpl.
        -- rewrite orb_true_r, (get_delete_same String.eqb). repeat split.
           intros id' Hne.
           rewrite (get_delete_other String.eqb String_eqb_eq) by congruence.
           apply (get_set_other String.eqb String_eqb_eq). congruence.
        -- rewrite orb_false_r, app_nil_r, (get_set_same String.eqb String_eqb_eq).
           repeat split.
           intros id' Hne.
           apply (get_set_other String.eqb String_eqb_eq). congruence.
Qed.

Lemma existsb_ext_in : forall {A} (f g : A -> bool) l,
  (forall x, In x l -> f x = g x) -> existsb f l = existsb g l.
Proof.
  induction l as [|x l IH]; simpl; intros H; [reflexivity|].
  rewrite (H x) by auto. f_equal. apply IH. auto.
Qed.

(** The whole loop over a list of entries with pairwise distinct keys, in
    terms of the state it starts from. *)
Lemma healthLoop_spec : forall W l changed m,
  NoDup (JsMap.keys l) ->
  let r := fold_left (healthStep W) l (changed, m) in
  processes (snd r) = deleteWhere (evicts W m) l (processes m)
  /\ fst r = changed || existsb (evicts W m) l
  /\ killed (snd r)
     = (killed m ++ map (fun e => RunningProc.process (snd e))
                        (filter (strikesOut W m) l))%list
  /\ probed (snd r)
     = (probed m ++ map (fun e => RunningProc.localPort (snd e))
                        (filter (probes W) l))%list
  /\ fired (snd r) = fired m /\ envs (snd r) = envs m /\ spawned (snd r) = spawned m
  /\ (forall id, ~ In id (JsMap.keys l) ->
        JsMap.get String.eqb id (portFailureCounts (snd r))
        = JsMap.get String.eqb id (portFailureCounts m))
  /\ (forall e, In e l ->
        JsMap.get String.eqb (fst e) (portFailureCounts (snd r)) = countAfter W m e).
Proof.
  intros W l. induction l as [|e l IH]; intros changed m Hnd.
  - simpl. rewrite orb_false_r, !app_nil_r. repeat split; tauto.
  - cbn [fold_left JsMap.keys map] in *.
    inversion Hnd as [|? ? Hfresh Hnd']; subst.
    destruct (healthStep_spec W changed m e)
      as [HP [Hc [Hk [Hpr [Hf [He [Hs [Hothers Hself]]]]]]]].
    destruct (healthStep W (changed, m) e) as [c1 m1]. cbn [fst snd] in *.
    destruct (IH c1 m1 Hnd')
      as [IHP [IHc [IHk [IHpr [IHf [IHe [IHs [IHothers IHself]]]]]]]].
    cbn [existsb filter In].
    assert (Hsame : forall e', In e' l ->
              evicts W m1 e' = evicts W m e'
              /\ strikesOut W m1 e' = strikesOut W m e'
              /\ countAfter W m1 e' = countAfter W m e').
    { intros e' He'. apply verdicts_ext. apply Hothers.
      intros Heq. apply Hfresh. rewrite <- Heq. now apply in_map. }
    repeat split.
    + rewrite IHP, HP.
      rewrite (deleteWhere_ext_in (evicts W m1) (evicts W m))
        by (intros e' He'; apply Hsame; exact He').
      unfold deleteWhere. reflexivity.
    + rewrite IHc, Hc, <- orb_assoc. f_equal. f_equal.
      apply existsb_ext_in. intros e' He'. now apply Hsame.
    + rewrite IHk, Hk, <- app_assoc. f_equal.
      rewrite (filter_ext_in (strikesOut W m1) (strikesOut W m))
        by (intros e' He'; apply Hsame; exact He').
      destruct (strikesOut W m e); reflexivity.
    + rewrite IHpr, Hpr, <- app_assoc. f_equal.
      destruct (probes W e); reflexivity.
    + congruence.
    + congruence.
    + congruence.
    + intros id Hid. rewrite IHothers by tauto. apply Hothers.
      intros ->. tauto.
    + intros e' [<-|He'].
      * rewrite IHothers by assumption. exact Hself.
      * rewrite IHself by assumption. now apply Hsame.
Qed.

(** The sweep, in terms of the state it starts from. *)
Lemma healthCheck_spec : forall W m,
  NoDup (JsMap.keys (processes m)) ->
  let m' := healthCheck W m in
  processes m' = filter (fun e => negb (evicts W m e)) (processes m)
  /\ fired m' = (if existsb (evicts W m) (processes m) then S (fired m) else fired m)
  /\ killed m'
     = (killed m ++ map (fun e => RunningProc.process (snd e))
                        (filter (strikesOut W m) (processes m)))%list
  /\ probed m'
     = (probed m ++ map (fun e => RunningProc.localPort (snd e))
                        (filter (probes W) (processes m)))%list
  /\ envs m' = envs m /\ spawned m' = spawned m
  /\ (forall id, ~ In id (JsMap.keys (processes m)) ->
        JsMap.get String.eqb id (portFailureCounts m')
        = JsMap.get String.eqb id (portFailureCounts m))
  /\ (forall e, In e (processes m) ->
        JsMap.get String.eqb (fst e) (portFailureCounts m') = countAfter W m e).
Proof.
  intros W m Hnd. unfold healthCheck.
  destruct (healthLoop_spec W (processes m) false m Hnd)
    as [HP [Hc [Hk [Hpr [Hf [He [Hs [Hothers Hself]]]]]]]].
  destruct (fold_left (healthStep W) (processes m) (false, m)) as [c1 m1].
  simpl in *. subst c1. rewrite deleteWhere_self in HP by assumption.
  destruct (existsb (evicts W m) (processes m)); simpl;
    repeat split; try assumption; congruence.
Qed.

Lemma NoDup_map_injective : forall {A B} (f : A -> B) l x y,
  NoDup (map f l) -> In x l -> In y l -> f x = f y -> x = y.
Proof.
  induction l as [|a l IH]; simpl; intros x y Hnd Hx Hy Hf; [tauto|].
  inversion Hnd as [|? ? Ha Hnd']; subst.
  destruct Hx as [->|Hx], Hy as [->|Hy].
  - reflexivity.
  - exfalso. apply Ha. rewrite Hf. now apply in_map.
  - exfalso. apply Ha. rewrite <- Hf. now apply in_map.
  - now apply IH.
Qed.

Lemma healthCheck_wf : forall W m, wf m -> wf (healthCheck W m).
Proof.
  intros W m Hwf. destruct (healthCheck_spec W m (proj1 Hwf)) as [HP _].
  eapply wf_filter; eauto.
Qed.

(** What the sweep makes of one registered entry. *)
Lemma healthCheck_entry : forall W m id p,
  NoDup (JsMap.keys (processes m)) ->
  JsMap.get String.eqb id (processes m) = Some p ->
  JsMap.get String.eqb id (processes (healthCheck W m))
  = (if evicts W m (id, p) then None else Some p)
  /\ JsMap.get String.eqb id (portFailureCounts (healthCheck W m))
     = countAfter W m (id, p)
  /\ (strikesOut W m (id, p) = true ->
      In (RunningProc.process p) (killed (healthCheck W m))).
Proof.
  intros W m id p Hnd Hget.
  apply (get_In String.eqb String_eqb_eq) in Hget.
  destruct (healthCheck_spec W m Hnd) as [HP [_ [Hk [_ [_ [_ [_ Hself]]]]]]].
  split; [|split].
  - rewrite HP. destruct (evicts W m (id, p)) eqn:E.
    + apply (get_filter_drop _ _ id p); try assumption. now rewrite E.
    + apply get_filter_keep; try assumption. now rewrite E.
  - exact (Hself (id, p) Hget).
  - intros Hstrike. rewrite Hk. apply in_or_app. right.
    apply in_map_iff. exists (id, p). split; [reflexivity|].
    apply filter_In. auto.
Qed.

(** A sweep whose probe of a registered forward fails. *)
Lemma failed_sweep : forall W m id p,
  wf m ->
  JsMap.get String.eqb id (processes m) = Some p ->
  probeFails W p ->
  ((failureCount id m + 1 < 3)%Z ->
   JsMap.get String.eqb id (processes (healthCheck W m)) = Some p
   /\ failureCount id (healthCheck W m) = (failureCount id m + 1)%Z)
  /\ ((3 <= failureCount id m + 1)%Z ->
      JsMap.get String.eqb id (processes (healthCheck W m)) = None
      /\ In (RunningProc.process p) (killed (healthCheck W m))
      /\ JsMap.get String.eqb id (portFailureCounts (healthCheck W m)) = None).
Proof.
  intros W m id p [Hnd _] Hget [Hexit [Hage Hfail]].
  destruct (healthCheck_entry W m id p Hnd Hget) as [HP [Hc Hk]].
  assert (Hold : probes W (id, p) = true).
  { unfold probes. cbn [fst snd]. rewrite Hexit.
    apply negb_true_iff, Z.ltb_ge. exact Hage. }
  unfold evicts, countAfter, strikesOut in *. cbn [fst snd] in *.
  rewrite Hexit, Hold, Hfail in *. cbn [negb andb] in *.
  split.
  - intros Hlt. apply Z.leb_gt in Hlt. rewrite Hlt in *. split; [exact HP|].
    unfold failureCount at 1. now rewrite Hc.
  - intros Hge. apply Z.leb_le in Hge. rewrite Hge in *. auto.
Qed.

(** ** C6: the grace period *)

(** C6: the grace period [healthGraceMs] is 20000 ms, and a registered
    forward whose child has not exited and whose age is below it comes out of
    the sweep as it went in, whatever the probe oracle answers: it is still
    registered with the same record, its failure count is untouched, its port
    is not among the ports the sweep probed, and it is not among the entries
    whose process the sweep killed. *)
Theorem healthCheck_grace : forall W m id p,
  wf m ->
  JsMap.get String.eqb id (processes m) = Some p ->
  exitCode W (RunningProc.process p) = None ->
  (now W - RunningProc.startedAt p < healthGraceMs)%Z ->
  healthGraceMs = 20000%Z
  /\ JsMap.get String.eqb id (processes (healthCheck W m)) = Some p
  /\ JsMap.get String.eqb id (portFailureCounts (healthCheck W m))
     = JsMap.get String.eqb id (portFailureCounts m)
  /\ (exists ports,
        probed (healthCheck W m) = (probed m ++ ports)%list
        /\ ~ In (RunningProc.localPort p) ports)
  /\ (exists victims,
        killed (healthCheck W m)
        = (killed m ++ map (fun e => RunningProc.process (snd e)) victims)%list
        /\ ~ In (id, p) victims).
Proof.
  intros W m id p [Hnd Hports] Hget Hexit Hage.
  apply (get_In String.eqb String_eqb_eq) in Hget.
  destruct (healthCheck_spec W m Hnd) as [HP [_ [Hk [Hpr [_ [_ [_ Hself]]]]]]].
  assert (Hyoung : probes W (id, p) = false).
  { unfold probes. simpl. rewrite Hexit.
    apply negb_false_iff, Z.ltb_lt. exact Hage. }
  assert (Hstay : evicts W m (id, p) = false).
  { unfold evicts, strikesOut. simpl. now rewrite Hexit, Hyoung. }
  split; [reflexivity|].
  split; [|split; [|split]]; cycle 3.
  - eexists. split; [exact Hk|].
    intros Hin. apply filter_In in Hin as [_ Hstrike].
    unfold strikesOut in Hstrike. rewrite Hyoung in Hstrike. discriminate.
  - rewrite HP. apply get_filter_keep; try assumption. now rewrite Hstay.
  - specialize (Hself (id, p) Hget). cbn [fst] in Hself. rewrite Hself.
    unfold countAfter. cbn [fst snd]. now rewrite Hexit, Hyoung.
  - eexists. split; [exact Hpr|].
    intros Hin. apply in_map_iff in Hin as [e [Hport He]].
    apply filter_In in He as [He Hprobed].
    assert (e = (id, p)).
    { apply (NoDup_map_injective
               (fun e => RunningProc.localPort (snd e)) (processes m));
        try assumption.
      unfold JsMap.values in Hports. now rewrite map_map in Hports. }
    subst e. congruence.
Qed.

Lemma healthCheck_grace_witness :
  healthGraceMs = 20000%Z
  /\ JsMap.get String.eqb "stg:ssh:db" (processes (healthCheck (exWorld false 5000) exRunning))
  = Some exDbProc
  /\ JsMap.get String.eqb "stg:ssh:db"
       (portFailureCounts (healthCheck (exWorld false 5000) exRunning))
     = JsMap.get String.eqb "stg:ssh:db" (portFailureCounts exRunning)
  /\ (exists ports,
        probed (healthCheck (exWorld false 5000) exRunning)
        = (probed exRunning ++ ports)%list
        /\ ~ In 3316%Z ports)
  /\ (exists victims,
        killed (healthCheck (exWorld false 5000) exRunning)
        = (killed exRunning ++ map (fun e => RunningProc.process (snd e)) victims)%list
        /\ ~ In ("stg:ssh:db", exDbProc) victims).
Proof.
  apply (healthCheck_grace (exWorld false 5000) exRunning "stg:ssh:db");
    [solve_wf|reflexivity|reflexivity|reflexivity].
Defined.

(** ** C5: the failure threshold *)

(** The threshold in terms of the count stored under the key: take a
    registered forward past the grace period whose child has not
    exited, and let [n] be its failure count before the sweep. If the probe
    of its port succeeds, it stays registered and its count is cleared (it
    reads 0). If the probe fails and [n + 1 < 3], it stays registered with
    count [n + 1]: with two failures on record it is still running. If the
    probe fails and [n + 1 >= 3], the third failure in a row, its process is
    killed, it leaves the registry and its count is cleared. *)
Theorem healthCheck_threshold : forall W m id p,
  wf m ->
  JsMap.get String.eqb id (processes m) = Some p ->
  exitCode W (RunningProc.process p) = None ->
  (healthGraceMs <= now W - RunningProc.startedAt p)%Z ->
  (portOpen W (RunningProc.localPort p) 1200 = true ->
   JsMap.get String.eqb id (processes (healthCheck W m)) = Some p
   /\ JsMap.get String.eqb id (portFailureCounts (healthCheck W m)) = None
   /\ failureCount id (healthCheck W m) = 0%Z)
  /\ (portOpen W (RunningProc.localPort p) 1200 = false ->
      (failureCount id m + 1 < 3)%Z ->
      JsMap.get String.eqb id (processes (healthCheck W m)) = Some p
      /\ failureCount id (healthCheck W m) = (failureCount id m + 1)%Z)
  /\ (portOpen W (RunningProc.localPort p) 1200 = false ->
      (3 <= failureCount id m + 1)%Z ->
      JsMap.get String.eqb id (processes (healthCheck W m)) = None
      /\ In (RunningProc.process p) (killed (healthCheck W m))
      /\ JsMap.get String.eqb id (portFailureCounts (healthCheck W m)) = None
      /\ failureCount id (healthCheck W m) = 0%Z).
Proof.
  intros W m id p Hwf Hget Hexit Hage.
  split; [|split].
  - intros Hok.
    destruct (healthCheck_entry W m id p (proj1 Hwf) Hget) as [HP [Hc _]].
    assert (Hold : probes W (id, p) = true).
    { unfold probes. cbn [fst snd]. rewrite Hexit.
      apply negb_true_iff, Z.ltb_ge. exact Hage. }
    unfold evicts, countAfter, strikesOut in *. cbn [fst snd] in *.
    rewrite Hexit, Hold, Hok in *. cbn [negb andb] in *.
    split; [exact HP|]. split; [exact Hc|].
    unfold failureCount. now rewrite Hc.
  - intros Hfail Hlt.
    destruct (failed_sweep W m id p Hwf Hget) as [H _];
      [unfold probeFails; auto|].
    exact (H Hlt).
  - intros Hfail Hge.
    destruct (failed_sweep W m id p Hwf Hget) as [_ H];
      [unfold probeFails; auto|].
    destruct (H Hge) as [HP [Hk Hc]].
    split; [exact HP|]. split; [exact Hk|]. split; [exact Hc|].
    unfold failureCount. now rewrite Hc.
Qed.

Lemma healthCheck_threshold_witness :
  JsMap.get String.eqb "stg:ssh:db"
    (processes (healthCheck (exWorld false 36000) exTwoStrikes)) = None
  /\ In 1%nat (killed (healthCheck (exWorld false 36000) exTwoStrikes))
  /\ JsMap.get String.eqb "stg:ssh:db"
       (portFailureCounts (healthCheck (exWorld false 36000) exTwoStrikes)) = None
  /\ failureCount "stg:ssh:db" (healthCheck (exWorld false 36000) exTwoStrikes) = 0%Z.
Proof.
  edestruct (healthCheck_threshold (exWorld false 36000) exTwoStrikes "stg:ssh:db")
    as [_ [_ H]];
    [solve_wf|reflexivity|reflexivity|vm_compute; discriminate|].
  apply H; [reflexivity|vm_compute; discriminate].
Defined.

(** Three sweeps in a row whose probe of a forward fails, starting from a
    clear count: after two it is still registered with count 2, the third
    evicts it. *)
Lemma three_failed_sweeps : forall W1 W2 W3 m id p,
  wf m ->
  JsMap.get String.eqb id (processes m) = Some p ->
  failureCount id m = 0%Z ->
  probeFails W1 p -> probeFails W2 p -> probeFails W3 p ->
  JsMap.get String.eqb id
    (processes (healthCheck W2 (healthCheck W1 m))) = Some p
  /\ failureCount id (healthCheck W2 (healthCheck W1 m)) = 2%Z
  /\ JsMap.get String.eqb id
       (processes (healthCheck W3 (healthCheck W2 (healthCheck W1 m)))) = None
  /\ In (RunningProc.process p)
        (killed (healthCheck W3 (healthCheck W2 (healthCheck W1 m)))).
Proof.
  intros W1 W2 W3 m id p Hwf Hget Hzero F1 F2 F3.
  destruct (failed_sweep W1 m id p Hwf Hget F1) as [H1 _].
  destruct H1 as [Hget1 Hc1]; [lia|].
  pose proof (healthCheck_wf W1 m Hwf) as Hwf1.
  destruct (failed_sweep W2 _ id p Hwf1 Hget1 F2) as [H2 _].
  destruct H2 as [Hget2 Hc2]; [lia|].
  pose proof (healthCheck_wf W2 _ Hwf1) as Hwf2.
  destruct (failed_sweep W3 _ id p Hwf2 Hget2 F3) as [_ H3].
  destruct H3 as [Hget3 [Hk3 _]]; [lia|].
  repeat split; try assumption. lia.
Qed.

(** The count is kept per key: [stop] leaves it, and so does [start]. A
    forward stopped with two failures on record and started again is evicted
    by the first failed probe after its grace period. *)
Lemma stop_keeps_failure_count : forall key m,
  portFailureCounts (stop key m) = portFailureCounts m.
Proof.
  intros key m. unfold stop.
  destruct (JsMap.get String.eqb (keyToId key) (processes m)); reflexivity.
Qed.

Example restart_continues_failure_count :
  failureCount "stg:ssh:db" exTwoStrikes = 2%Z
  /\ isRunning kDb exTwoStrikes = true
  /\ failureCount "stg:ssh:db"
       (snd (start (exWorld false 40000) kDb (stop kDb exTwoStrikes))) = 2%Z
  /\ isRunning kDb
       (snd (start (exWorld false 40000) kDb (stop kDb exTwoStrikes))) = true
  /\ isRunning kDb
       (healthCheck (exWorld false 70000)
          (snd (start (exWorld false 40000) kDb (stop kDb exTwoStrikes)))) = false.
Proof. repeat split. Qed.

(** C5: the code evicts on the count stored under the key, and that count
    outlives the forward. [kDb] is started, fails the probe of two sweeps
    (count 2) and is stopped; [stop] leaves the count where [healthCheck]
    clears it at each of its own removals. [kDb] is started again at 40000
    with a new child, and the sweep at 70000 probes its port once, for the
    first time in the life of this forward, finds it closed and evicts it:
    the new child is sent [kill()] after one failed probe, not three. The
    same forward started at the same time on a fresh manager survives the
    same sweep with count 1. *)
Theorem healthCheck_threshold_after_restart :
  isRunning kDb exTwoStrikes = true
  /\ failureCount "stg:ssh:db" exTwoStrikes = 2%Z
  /\ killed (stop kDb exTwoStrikes) = [1%nat]
  /\ failureCount "stg:ssh:db" (stop kDb exTwoStrikes) = 2%Z
  /\ JsMap.get String.eqb "stg:ssh:db"
       (processes (snd (start (exWorld true 40000) kDb (stop kDb exTwoStrikes))))
     = Some (RunningProc.mk kDb 3 "ssh"
               (sshArgs (SshTunnel.mk "db" "database:3316" 3316 "1.2.3.4" 3306 "stg"))
               3316 40000)
  /\ failureCount "stg:ssh:db"
       (snd (start (exWorld true 40000) kDb (stop kDb exTwoStrikes))) = 2%Z
  /\ probed (healthCheck (exWorld false 70000)
               (snd (start (exWorld true 40000) kDb (stop kDb exTwoStrikes))))
     = (probed (snd (start (exWorld true 40000) kDb (stop kDb exTwoStrikes)))
          ++ [3316%Z])%list
  /\ isRunning kDb
       (healthCheck (exWorld false 70000)
          (snd (start (exWorld true 40000) kDb (stop kDb exTwoStrikes)))) = false
  /\ killed (healthCheck (exWorld false 70000)
               (snd (start (exWorld true 40000) kDb (stop kDb exTwoStrikes))))
     = [1%nat; 3%nat]
  /\ isRunning kDb
       (healthCheck (exWorld false 70000)
          (snd (start (exWorld true 40000) kDb exFresh))) = true
  /\ failureCount "stg:ssh:db"
       (healthCheck (exWorld false 70000)
          (snd (start (exWorld true 40000) kDb exFresh))) = 1%Z.
Proof. vm_compute. repeat split. Qed.

(** ** C8: change notifications *)

Lemma stop_not_running : forall key m, isRunning key m = false -> stop key m = m.
Proof.
  intros key m H. unfold stop. unfold isRunning, JsMap.has in H.
  destruct (JsMap.get String.eqb (keyToId key) (processes m)); [discriminate|reflexivity].
Qed.

Lemma stop_running : forall key m,
  isRunning key m = true ->
  fired (stop key m) = S (fired m)
  /\ processes (stop key m)
     = filter (fun e => negb (fst e =? keyToId key)) (processes m)
  /\ isRunning key (stop key m) = false.
Proof.
  intros key m H. unfold stop. unfold isRunning, JsMap.has in *.
  destruct (JsMap.get String.eqb (keyToId key) (processes m)); [|discriminate].
  simpl. rewrite (get_delete_same String.eqb), delete_as_filter. auto.
Qed.

Lemma stopAll_loop : forall l m,
  let m' :=
    fold_left
      (fun m entry =>
         let '(id, p) := entry in
         setProcesses (JsMap.delete String.eqb id (processes m))
                      (kill (RunningProc.process p) m)) l m in
  processes m' = deleteWhere (fun _ => true) l (processes m)
  /\ fired m' = fired m.
Proof.
  unfold deleteWhere. induction l as [|[id p] l IH]; intros m; simpl; [auto|].
  specialize (IH (setProcesses (JsMap.delete String.eqb id (processes m))
                               (kill (RunningProc.process p) m))).
  simpl in IH. exact IH.
Qed.

Lemma stopAllForEnv_loop : forall envId l m,
  let m' :=
    fold_left
      (fun m entry =>
         let '(id, p) := entry in
         if ForwardKey.envId (RunningProc.key p) =? envId
         then setProcesses (JsMap.delete String.eqb id (processes m))
                           (kill (RunningProc.process p) m)
         else m) l m in
  processes m'
  = deleteWhere (fun e => ForwardKey.envId (RunningProc.key (snd e)) =? envId)
                l (processes m)
  /\ fired m' = fired m.
Proof.
  intros envId. unfold deleteWhere.
  induction l as [|[id p] l IH]; intros m; simpl; [auto|].
  destruct (ForwardKey.envId (RunningProc.key p) =? envId).
  - specialize (IH (setProcesses (JsMap.delete String.eqb id (processes m))
                                 (kill (RunningProc.process p) m))).
    simpl in IH. exact IH.
  - apply IH.
Qed.

Lemma filter_shrinks : forall {A} (c : A -> bool) l,
  existsb c l = true ->
  (List.length (filter (fun x => negb (c x)) l) < List.length l)%nat.
Proof.
  induction l as [|x l IH]; simpl; [discriminate|].
  destruct (c x); simpl; intros H.
  - pose proof (filter_length_le (fun x => negb (c x)) l). lia.
  - apply IH in H. lia.
Qed.

Lemma filter_none_dropped : forall {A} (c : A -> bool) l,
  existsb c l = false -> filter (fun x => negb (c x)) l = l.
Proof.
  induction l as [|x l IH]; simpl; [reflexivity|].
  destruct (c x); simpl; [discriminate|]. intros H. f_equal. now apply IH.
Qed.

(** The notifications of one [start]. *)
Lemma start_fired : forall W key m o m',
  wf m ->
  start W key m = (o, m') ->
  match o with
  | Thrown _ => fired m' = fired m /\ processes m' = processes m
  | Returned =>
      if isRunning key m then m' = m
      else exists env cmd arguments port,
             resolve (envs m) key = Some (env, cmd, arguments, port)
             /\ isRunning key m' = true
             /\ fired m' = match findByPort port m with
                           | None => S (fired m)
                           | Some _ => S (S (fired m))
                           end
  end.
Proof.
  intros W key m o m' [Hnd _] Hstart.
  destruct (isRunning key m) eqn:Hrun.
  - unfold start in Hstart. rewrite Hrun in Hstart. inversion Hstart; subst. reflexivity.
  - destruct (resolve (envs m) key) as [[[[env cmd] arguments] port]|] eqn:Hres.
    + pose proof Hstart as Hstart'.
      rewrite (start_resolved W key m env cmd arguments port Hrun Hres) in Hstart.
      destruct (addSshKeysIfPresent_spec W env m) as [[He [HP [Hc [Hf Hk]]]] [Hpr Hs]].
      set (m0 := addSshKeysIfPresent W env m) in *.
      assert (Hrun0 : isRunning key m0 = false)
        by (rewrite (isRunning_ext key m m0 HP); exact Hrun).
      assert (Hnd0 : NoDup (JsMap.keys (processes m0))) by (rewrite HP; exact Hnd).
      destruct (findByPort port m) as [holder|] eqn:Hhm;
        pose proof Hhm as Hh; rewrite <- (findByPort_ext port m m0 HP) in Hh.
      * destruct (portOpen W port 300) eqn:Hprobe.
        -- rewrite (gate_live W key cmd arguments port m0 holder Hh Hprobe) in Hstart.
           inversion Hstart; subst.
           destruct (pruneDeadByPort_live W port m0 holder Hh Hprobe)
             as [[_ [HPp [_ [Hfp _]]]] _].
           split; congruence.
        -- destruct (gate_stale W key cmd arguments port m0 holder Hnd0 Hh Hprobe)
             as [Hgate _].
           rewrite Hgate in Hstart. inversion Hstart; subst.
           destruct (pruneDeadByPort_stale W port m0 holder Hnd0 Hh Hprobe)
             as [_ [_ [_ [Hfp _]]]].
           exists env, cmd, arguments, port. split; [reflexivity|]. split.
           ++ now destruct (start_launches W key m _ env cmd arguments port
                              Hrun Hres Hstart') as [_ [_ [_ [R _]]]].
           ++ rewrite Hhm. unfold spawnAndTrack. simpl. simpl in Hfp.
              now rewrite Hfp, Hf.
      * rewrite (gate_free W key cmd arguments port m0 Hh) in Hstart.
        inversion Hstart; subst.
        exists env, cmd, arguments, port. split; [reflexivity|]. split.
        -- now destruct (start_launches W key m _ env cmd arguments port
                           Hrun Hres Hstart') as [_ [_ [_ [R _]]]].
        -- rewrite Hhm. unfold spawnAndTrack. simpl. now rewrite Hf.
    + pose proof (start_unresolved W key m Hrun Hres) as H.
      destruct (find _ (envs m)) as [env|].
      * rewrite H in Hstart. inversion Hstart; subst.
        destruct (addSshKeysIfPresent_spec W env m) as [[_ [HP [_ [Hf _]]]] _].
        auto.
      * rewrite H in Hstart. inversion Hstart; subst. auto.
Qed.

(** [stopAllForEnv] ends in an unguarded [fire()]: unlike [stop], [stopAll]
    and [healthCheck] it notifies on every call. *)
Lemma stopAllForEnv_fires_always : forall envId m,
  fired (stopAllForEnv envId m) = S (fired m).
Proof.
  intros envId m. unfold stopAllForEnv.
  destruct (stopAllForEnv_loop envId (processes m) m) as [_ Hf].
  simpl in *. now rewrite Hf.
Qed.

(** C8, as the code has it, for a manager [m] and any key, environment and
    world. [stop] on a key that is not running changes nothing and fires
    nothing; on a running key it removes the entry and fires once.
    [stopAll] on an empty registry changes nothing and fires nothing;
    otherwise it empties the registry and fires once. [stopAllForEnv] removes
    the entries of the environment and fires once when that changed the
    registry. [healthCheck] fires once when the sweep removed an entry and not
    at all when the registry came out as it went in. [start] fires nothing
    when it throws or when the key was already running; a launch fires once,
    and twice when a stale holder of the port was pruned first. The [exit]
    and [error] listeners of a child fire once whenever they run, whether or
    not its entry was still registered. *)
Theorem change_notifications : forall W m key envId,
  wf m ->
  (isRunning key m = false -> stop key m = m)
  /\ (isRunning key m = true ->
      fired (stop key m) = S (fired m) /\ isRunning key (stop key m) = false)
  /\ (processes m = [] -> stopAll m = m)
  /\ (processes m <> [] ->
      fired (stopAll m) = S (fired m) /\ processes (stopAll m) = [])
  /\ (processes (stopAllForEnv envId m)
      = filter (fun e => negb (ForwardKey.envId (RunningProc.key (snd e)) =? envId))
               (processes m)
      /\ (processes (stopAllForEnv envId m) <> processes m ->
          fired (stopAllForEnv envId m) = S (fired m)))
  /\ (processes (healthCheck W m) = processes m
      /\ fired (healthCheck W m) = fired m
      \/ (List.length (processes (healthCheck W m)) < List.length (processes m))%nat
         /\ fired (healthCheck W m) = S (fired m))
  /\ (forall o m',
        start W key m = (o, m') ->
        match o with
        | Thrown _ => fired m' = fired m /\ processes m' = processes m
        | Returned =>
            if isRunning key m then m' = m
            else exists env cmd arguments port,
                   resolve (envs m) key = Some (env, cmd, arguments, port)
                   /\ isRunning key m' = true
                   /\ fired m' = match findByPort port m with
                                 | None => S (fired m)
                                 | Some _ => S (S (fired m))
                                 end
        end)
  /\ (forall p code signal, fired (onExit p code signal m) = S (fired m))
  /\ (forall p err, fired (onError p err m) = S (fired m)).
Proof.
  intros W m key envId Hwf. pose proof Hwf as [Hnd _].
  split; [apply stop_not_running|].
  split; [intros H; destruct (stop_running key m H) as [? [? ?]]; auto|].
  split; [intros H; unfold stopAll; now rewrite H|].
  split.
  { intros H. unfold stopAll.
    destruct (stopAll_loop (processes m) m) as [HP Hf]. cbv zeta in HP, Hf.
    rewrite deleteWhere_self in HP by assumption.
    assert (Hall : forall P : list (string * RunningProc.t),
              filter (fun _ => negb true) P = [])
      by (induction P; simpl; auto).
    rewrite Hall in HP.
    destruct (processes m) as [|e l]; [contradiction|].
    simpl. simpl in HP, Hf. now rewrite HP, Hf. }
  split.
  { split; [|intros _; apply stopAllForEnv_fires_always].
    unfold stopAllForEnv.
    destruct (stopAllForEnv_loop envId (processes m) m) as [HP _]. simpl in *.
    rewrite HP. now rewrite deleteWhere_self by assumption. }
  split.
  { destruct (healthCheck_spec W m Hnd) as [HP [Hf _]].
    destruct (existsb (evicts W m) (processes m)) eqn:E.
    - right. rewrite HP, Hf. split; [now apply filter_shrinks|reflexivity].
    - left. rewrite HP, Hf. split; [now apply filter_none_dropped|reflexivity]. }
  split; [intros o m' Hstart; now apply (start_fired W key m o m')|].
  split; reflexivity.
Qed.

Lemma change_notifications_witness :
  fired (stop kDb exRunning) = S (fired exRunning)
  /\ isRunning kDb (stop kDb exRunning) = false.
Proof.
  destruct (change_notifications (exWorld true 2000) exRunning kDb "stg")
    as [_ [H _]]; [solve_wf|].
  apply H. reflexivity.
Defined.

(** C8 as stated fails. A batch stop over an environment with no running
    forward fires although the running set is as before; the [exit] listener
    of a stopped child fires again although its entry is gone already; and a
    [start] that prunes a stale holder fires twice. *)
Lemma change_notifications_counterexample :
  (processes (stopAllForEnv "prod" exRunning) = processes exRunning
   /\ fired (stopAllForEnv "prod" exRunning) = S (fired exRunning))
  /\ (processes (stopAllForEnv "stg" exFresh) = processes exFresh
      /\ fired (stopAllForEnv "stg" exFresh) = S (fired exFresh))
  /\ (processes
        (onExit exDbProc None (Some "SIGTERM")
                (stop kDb exRunning))
      = processes (stop kDb exRunning)
      /\ fired
           (onExit exDbProc None (Some "SIGTERM")
                   (stop kDb exRunning))
         = S (fired (stop kDb exRunning)))
  /\ fired (snd (start (exWorld false 2000) kReplica exRunning))
     = S (S (fired exRunning)).
Proof. repeat split. Qed.

(** ** The registry invariant *)

Lemma wf_same_processes : forall m m',
  wf m -> processes m' = processes m -> wf m'.
Proof. intros m m' H E. unfold wf in *. now rewrite E. Qed.

Lemma start_wf : forall W key m, wf m -> wf (snd (start W key m)).
Proof.
  intros W key m Hwf.
  destruct (isRunning key m) eqn:Hrun.
  - unfold start. now rewrite Hrun.
  - destruct (resolve (envs m) key) as [[[[env cmd] arguments] port]|] eqn:Hres.
    + rewrite (start_resolved W key m env cmd arguments port Hrun Hres).
      destruct (addSshKeysIfPresent_spec W env m) as [[_ [HP _]] _].
      set (m0 := addSshKeysIfPresent W env m) in *.
      assert (Hwf0 : wf m0) by (eapply wf_same_processes; eauto).
      assert (Hrun0 : isRunning key m0 = false)
        by (rewrite (isRunning_ext key m m0 HP); exact Hrun).
      destruct (findByPort port m0) as [holder|] eqn:Hh.
      * destruct (portOpen W port 300) eqn:Hprobe.
        -- rewrite (gate_live W key cmd arguments port m0 holder Hh Hprobe).
           destruct (pruneDeadByPort_live W port m0 holder Hh Hprobe)
             as [[_ [HPp _]] _].
           simpl. eapply wf_same_processes; eauto.
        -- destruct (gate_stale W key cmd arguments port m0 holder
                       (proj1 Hwf0) Hh Hprobe) as [-> Hfree].
           destruct (pruneDeadByPort_stale W port m0 holder (proj1 Hwf0) Hh Hprobe)
             as [HPp _].
           simpl. apply spawnAndTrack_wf; [eapply wf_filter; eauto| |assumption].
           unfold isRunning. apply not_true_is_false. intros Hin.
           apply (has_true_iff String.eqb String_eqb_eq) in Hin.
           rewrite HPp in Hin. apply filter_keys_incl in Hin.
           now apply not_running_notin in Hrun0.
      * rewrite (gate_free W key cmd arguments port m0 Hh). simpl.
        now apply spawnAndTrack_wf.
    + pose proof (start_unresolved W key m Hrun Hres) as H.
      destruct (find _ (envs m)) as [env|]; rewrite H; simpl; [|assumption].
      destruct (addSshKeysIfPresent_spec W env m) as [[_ [HP _]] _].
      eapply wf_same_processes; eauto.
Qed.

(** Every reachable state has a registry with pairwise distinct keys and
    pairwise distinct ports. *)
Lemma reachable_wf : forall m, reachable m -> wf m.
Proof.
  induction 1 as [es|es m _ IH|W key m _ IH|key m _ IH|envId m _ IH|m _ IH
                 |W m _ IH|p code signal m _ IH|p err m _ IH].
  - unfold wf. simpl. split; constructor.
  - exact IH.
  - now apply start_wf.
  - destruct (isRunning key m) eqn:Hrun.
    + destruct (stop_running key m Hrun) as [_ [HP _]]. eapply wf_filter; eauto.
    + now rewrite stop_not_running.
  - unfold stopAllForEnv.
    destruct (stopAllForEnv_loop envId (processes m) m) as [HP _].
    cbv zeta in HP. rewrite deleteWhere_filter in HP.
    eapply wf_filter; [exact IH|exact HP].
  - unfold stopAll. destruct (processes m) as [|e l] eqn:E; [exact IH|].
    rewrite <- E.
    destruct (stopAll_loop (processes m) m) as [HP _].
    cbv zeta in HP. rewrite deleteWhere_filter in HP.
    eapply wf_filter; [exact IH|exact HP].
  - now apply healthCheck_wf.
  - eapply wf_filter; [exact IH|]. unfold onExit. simpl. apply delete_as_filter.
  - eapply wf_filter; [exact IH|]. unfold onError. simpl. apply delete_as_filter.
Qed.

(** * Further properties of the program *)

(** ** [Array.from(new Set(xs))] for any decidable equality *)

Section UniqueFacts.
Context {A : Type}.
Variable eqb : A -> A -> bool.
Hypothesis eqb_eq : forall a b, eqb a b = true <-> a = b.

Lemma existsb_eqb_In : forall x (l : list A), existsb (eqb x) l = true <-> In x l.
Proof.
  intros x l. rewrite existsb_exists. split.
  - intros [y [Hy E]]. apply eqb_eq in E. now subst.
  - intros H. exists x. split; [assumption|now apply eqb_eq].
Qed.

Lemma uniqueInto_In : forall xs seen x,
  In x (uniqueInto eqb seen xs) <-> In x seen \/ In x xs.
Proof.
  induction xs as [|y xs IH]; intros seen x; simpl.
  - tauto.
  - destruct (existsb (eqb y) seen) eqn:E; rewrite IH.
    + apply existsb_eqb_In in E. split; [tauto|].
      intros [H|[H|H]]; [tauto|subst; tauto|tauto].
    + rewrite in_app_iff. simpl. tauto.
Qed.

Lemma uniqueInto_NoDup : forall xs seen,
  NoDup seen -> NoDup (uniqueInto eqb seen xs).
Proof.
  induction xs as [|y xs IH]; intros seen Hnd; simpl; [assumption|].
  destruct (existsb (eqb y) seen) eqn:E; apply IH; [assumption|].
  apply NoDup_app; [assumption|repeat constructor; simpl; tauto|].
  intros a Ha [<-|[]]. apply existsb_eqb_In in Ha. congruence.
Qed.

Lemma unique_spec : forall xs,
  NoDup (unique eqb xs) /\ forall x, In x (unique eqb xs) <-> In x xs.
Proof.
  intros xs. split.
  - apply uniqueInto_NoDup. constructor.
  - intros x. unfold unique. rewrite uniqueInto_In. simpl. tauto.
Qed.

End UniqueFacts.

(** ** [mergeEnvs] *)

Lemma keys_set : forall {V} k (v : V) M,
  JsMap.keys (JsMap.set String.eqb k v M)
  = if existsb (String.eqb k) (JsMap.keys M) then JsMap.keys M
    else (JsMap.keys M ++ [k])%list.
Proof.
  induction M as [|[k' v'] M IH]; simpl; [reflexivity|].
  rewrite (String.eqb_sym k k'). destruct (k' =? k); simpl; [reflexivity|].
  rewrite IH. destruct (existsb (String.eqb k) (JsMap.keys M)); reflexivity.
Qed.

Lemma keys_fold_set : forall {V} (f : V -> string) l M,
  JsMap.keys (fold_left (fun M x => JsMap.set String.eqb (f x) x M) l M)
  = uniqueInto String.eqb (JsMap.keys M) (map f l).
Proof.
  induction l as [|x l IH]; intros M; simpl; [reflexivity|].
  rewrite IH, keys_set.
  destruct (existsb (String.eqb (f x)) (JsMap.keys M)); reflexivity.
Qed.

Lemma find_app : forall {A} (p : A -> bool) a b,
  find p (a ++ b) = match find p a with Some y => Some y | None => find p b end.
Proof.
  induction a as [|x a IH]; intros b; simpl; [reflexivity|].
  destruct (p x); [reflexivity|apply IH].
Qed.

Lemma get_fold_set : forall {V} (f : V -> string) k l M,
  JsMap.get String.eqb k (fold_left (fun M x => JsMap.set String.eqb (f x) x M) l M)
  = match find (fun x => f x =? k) (rev l) with
    | Some x => Some x
    | None => JsMap.get String.eqb k M
    end.
Proof.
  induction l as [|x l IH]; intros M; simpl; [reflexivity|].
  rewrite IH, find_app. destruct (find (fun x => f x =? k) (rev l)); [reflexivity|].
  simpl. destruct (f x =? k) eqn:E.
  - apply String.eqb_eq in E. subst k.
    apply (get_set_same String.eqb String_eqb_eq).
  - apply (get_set_other String.eqb String_eqb_eq).
    intros Heq. rewrite Heq, String.eqb_refl in E. discriminate.
Qed.

Lemma fold_set_indexed : forall {V} (f : V -> string) l M,
  Forall (fun e => fst e = f (snd e)) M ->
  Forall (fun e => fst e = f (snd e))
         (fold_left (fun M x => JsMap.set String.eqb (f x) x M) l M).
Proof.
  induction l as [|x l IH]; intros M HM; simpl; [assumption|].
  apply IH. clear IH. induction M as [|[k' v'] M IHM]; simpl.
  - repeat constructor.
  - inversion HM as [|? ? Hk HM']; subst. simpl in Hk.
    destruct (k' =? f x) eqn:E.
    + apply String.eqb_eq in E. constructor; [exact E|assumption].
    + constructor; [exact Hk|now apply IHM].
Qed.

Lemma find_values_indexed : forall {V} (f : V -> string) k (M : list (string * V)),
  Forall (fun e => fst e = f (snd e)) M ->
  find (fun v => f v =? k) (JsMap.values M) = JsMap.get String.eqb k M.
Proof.
  induction M as [|[k' v'] M IH]; simpl; intros HM; [reflexivity|].
  inversion HM as [|? ? Hk HM']; subst. simpl in Hk. subst k'.
  destruct (f v' =? k); [reflexivity|now apply IH].
Qed.

Lemma values_In_fold_set : forall {V} (f : V -> string) l M v,
  In v (JsMap.values (fold_left (fun M x => JsMap.set String.eqb (f x) x M) l M)) ->
  In v (JsMap.values M) \/ In v l.
Proof.
  induction l as [|x l IH]; intros M v H; simpl in *; [tauto|].
  apply IH in H as [H|H]; [|tauto].
  assert (Hset : forall M', In v (JsMap.values (JsMap.set String.eqb (f x) x M')) ->
                            In v (JsMap.values M') \/ x = v).
  { induction M' as [|[k' v'] M' IHM]; simpl; [tauto|].
    destruct (k' =? f x); simpl; tauto. }
  apply Hset in H. tauto.
Qed.

Lemma mergeEnvs_unfold : forall g w,
  mergeEnvs g w
  = JsMap.values
      (fold_left (fun M env => JsMap.set String.eqb (EnvironmentConfig.id env) env M)
                 ((match g with Some es => es | None => [] end)
                    ++ (match w with Some es => es | None => [] end))%list []).
Proof. intros g w. unfold mergeEnvs. simpl. now rewrite fold_left_app. Qed.

(** X1: [mergeEnvs]: looking an environment up by id in the merged list gives the
    last environment of that id in the workspace list, and when the workspace
    list has none, the last one in the global list: the workspace overrides
    the global configuration. An absent list counts as empty. *)
Theorem mergeEnvs_workspace_overrides : forall g w i,
  let globalEnvs := match g with Some es => es | None => [] end in
  let workspaceEnvs := match w with Some es => es | None => [] end in
  find (fun e => EnvironmentConfig.id e =? i) (mergeEnvs g w)
  = match find (fun e => EnvironmentConfig.id e =? i) (rev workspaceEnvs) with
    | Some e => Some e
    | None => find (fun e => EnvironmentConfig.id e =? i) (rev globalEnvs)
    end.
Proof.
  intros g w i globalEnvs workspaceEnvs. rewrite mergeEnvs_unfold.
  fold globalEnvs workspaceEnvs.
  rewrite (find_values_indexed EnvironmentConfig.id)
    by (apply fold_set_indexed; constructor).
  rewrite get_fold_set, rev_app_distr, find_app. simpl.
  destruct (find _ (rev workspaceEnvs)); [reflexivity|].
  destruct (find _ (rev globalEnvs)); reflexivity.
Qed.

(** X2: [mergeEnvs]: the merged list has one environment per id, in the order in
    which the ids first appear (global list first), and every environment in
    it comes from one of the two lists. *)
Theorem mergeEnvs_ids : forall g w,
  let globalEnvs := match g with Some es => es | None => [] end in
  let workspaceEnvs := match w with Some es => es | None => [] end in
  map EnvironmentConfig.id (mergeEnvs g w)
  = unique String.eqb (map EnvironmentConfig.id (globalEnvs ++ workspaceEnvs))
  /\ NoDup (map EnvironmentConfig.id (mergeEnvs g w))
  /\ (forall i, In i (map EnvironmentConfig.id (mergeEnvs g w))
                <-> In i (map EnvironmentConfig.id (globalEnvs ++ workspaceEnvs)))
  /\ (forall e, In e (mergeEnvs g w) -> In e globalEnvs \/ In e workspaceEnvs).
Proof.
  intros g w globalEnvs workspaceEnvs. rewrite mergeEnvs_unfold.
  fold globalEnvs workspaceEnvs.
  assert (Hids : map EnvironmentConfig.id
                   (JsMap.values
                      (fold_left
                         (fun M env => JsMap.set String.eqb (EnvironmentConfig.id env) env M)
                         (globalEnvs ++ workspaceEnvs) []))
                 = unique String.eqb
                     (map EnvironmentConfig.id (globalEnvs ++ workspaceEnvs))).
  { unfold unique.
    change (@nil string)
      with (JsMap.keys (@nil (string * EnvironmentConfig.t))).
    rewrite <- (keys_fold_set EnvironmentConfig.id).
    pose proof (fold_set_indexed EnvironmentConfig.id (globalEnvs ++ workspaceEnvs) []
                  (Forall_nil _)) as HM.
    induction HM as [|[k v] M Hk _ IH]; simpl; [reflexivity|].
    simpl in Hk. now rewrite IH, Hk. }
  destruct (unique_spec String.eqb String_eqb_eq
              (map EnvironmentConfig.id (globalEnvs ++ workspaceEnvs))) as [Hnd Hin].
  split; [exact Hids|]. rewrite Hids. split; [exact Hnd|]. split; [exact Hin|].
  intros e He. apply values_In_fold_set in He as [[]|He].
  now apply in_app_or.
Qed.

(** ** [getAllConfiguredPorts] *)

(** X3: [getAllConfiguredPorts] lists every local port of the configuration once:
    a port is in the list exactly when some SSH tunnel or Kubernetes forward
    of some environment declares it, and no port is listed twice. The
    registry plays no part. *)
Theorem getAllConfiguredPorts_spec : forall m,
  NoDup (getAllConfiguredPorts m)
  /\ forall port,
       In port (getAllConfiguredPorts m)
       <-> exists env,
             In env (envs m)
             /\ ((exists t, In t (EnvironmentConfig.sshTunnels env)
                            /\ SshTunnel.localPort t = port)
                 \/ (exists f, In f (EnvironmentConfig.k8sForwards env)
                               /\ K8sForward.localPort f = port)).
Proof.
  intros m. unfold getAllConfiguredPorts.
  match goal with
  | |- context [unique Z.eqb ?l] =>
      destruct (unique_spec Z.eqb Zeqb_eq l) as [Hnd Hin]
  end.
  split; [exact Hnd|]. intros port. rewrite Hin, in_flat_map.
  split.
  - intros [env [Henv H]]. exists env. split; [assumption|].
    apply in_app_or in H as [H|H]; apply in_map_iff in H as [x [Hx H]]; eauto.
  - intros [env [Henv [[t [Ht Hp]]|[f [Hf Hp]]]]]; exists env; split; try assumption;
      apply in_or_app; [left|right]; apply in_map_iff; eauto.
Qed.

(** ** The bookkeeping invariant *)

Lemma nth_error_grows : forall {A} (l extra : list A) i x,
  nth_error l i = Some x -> nth_error (l ++ extra) i = Some x.
Proof.
  intros A l extra i x H. rewrite nth_error_app1; [assumption|].
  apply nth_error_Some. congruence.
Qed.

(** Spawning more, removing entries and killing only removed children keeps
    the bookkeeping. *)
Lemma tracked_removal : forall m m' c victims extra,
  tracked m ->
  spawned m' = (spawned m ++ extra)%list ->
  processes m' = filter c (processes m) ->
  killed m' = (killed m ++ map (fun e => RunningProc.process (snd e)) victims)%list ->
  (forall e, In e victims -> In e (processes m) /\ c e = false) ->
  tracked m'.
Proof.
  intros m m' c victims extra [Hnd [Hent Hkil]] Hs HP Hk Hvic.
  unfold tracked. rewrite Hs, HP, Hk. rewrite Forall_forall in Hent, Hkil.
  split; [now apply NoDup_map_filter|]. split.
  - apply Forall_forall. intros e He. apply filter_In in He as [He Hc].
    destruct (Hent e He) as [Hid [Hnth [Hcmd Hnk]]].
    split; [exact Hid|]. split; [now apply nth_error_grows|]. split; [exact Hcmd|].
    intros Hin. apply in_app_or in Hin as [Hin|Hin]; [contradiction|].
    apply in_map_iff in Hin as [v [Hv Hin]].
    destruct (Hvic v Hin) as [HvP Hcv].
    assert (v = e)
      by (apply (NoDup_map_injective
                   (fun e => RunningProc.process (snd e)) (processes m)); assumption).
    congruence.
  - apply Forall_forall. intros child Hin.
    apply in_app_or in Hin as [Hin|Hin].
    + destruct (Hkil child Hin) as [cmd [a [Hnth Hcmd]]].
      exists cmd, a. split; [now apply nth_error_grows|exact Hcmd].
    + apply in_map_iff in Hin as [v [Hv Hin]]. subst child.
      destruct (Hvic v Hin) as [HvP _].
      destruct (Hent v HvP) as [_ [Hnth [Hcmd _]]].
      eexists _, _. split; [apply nth_error_grows; exact Hnth|exact Hcmd].
Qed.

Lemma tracked_launch : forall W key cmd arguments port m,
  tracked m ->
  isRunning key m = false ->
  cmd = "ssh" \/ cmd = "kubectl" ->
  tracked (spawnAndTrack W key cmd arguments port m).
Proof.
  intros W key cmd arguments port m [Hnd [Hent Hkil]] Hrun Hcmd.
  destruct (spawnAndTrack_spec W key cmd arguments port m Hrun)
    as [HP [Hs [_ [_ [_ [Hk _]]]]]].
  unfold tracked. rewrite HP, Hs, Hk. rewrite Forall_forall in Hent, Hkil.
  assert (Hold : forall e, In e (processes m) ->
                   (RunningProc.process (snd e) < List.length (spawned m))%nat).
  { intros e He. destruct (Hent e He) as [_ [Hnth _]].
    apply nth_error_Some. congruence. }
  split; [|split].
  - rewrite map_app. simpl.
    apply NoDup_app; [assumption|repeat constructor; simpl; tauto|].
    intros a Ha [<-|[]]. apply in_map_iff in Ha as [e [He Ha]].
    apply Hold in Ha. lia.
  - apply Forall_forall. intros e He. apply in_app_or in He as [He|[<-|[]]].
    + destruct (Hent e He) as [Hid [Hnth [Hc Hnk]]].
      repeat split; try assumption. now apply nth_error_grows.
    + simpl. split; [reflexivity|]. split; [|split; [exact Hcmd|]].
      * rewrite nth_error_app2 by lia. now rewrite Nat.sub_diag.
      * intros Hin. destruct (Hkil _ Hin) as [c [a [Hnth _]]].
        assert (List.length (spawned m) < List.length (spawned m))%nat; [|lia].
        apply nth_error_Some. congruence.
  - apply Forall_forall. intros child Hin.
    destruct (Hkil child Hin) as [c [a [Hnth Hc]]].
    exists c, a. split; [now apply nth_error_grows|exact Hc].
Qed.

Lemma tracked_same : forall m m',
  tracked m -> spawned m' = spawned m -> processes m' = processes m ->
  killed m' = killed m -> tracked m'.
Proof.
  intros m m' H Hs HP Hk. unfold tracked in *. now rewrite Hs, HP, Hk.
Qed.

Lemma stopAll_loop_kills : forall l m,
  let m' :=
    fold_left
      (fun m entry =>
         let '(id, p) := entry in
         setProcesses (JsMap.delete String.eqb id (processes m))
                      (kill (RunningProc.process p) m)) l m in
  killed m' = (killed m ++ map (fun e => RunningProc.process (snd e)) l)%list
  /\ spawned m' = spawned m /\ envs m' = envs m
  /\ portFailureCounts m' = portFailureCounts m /\ probed m' = probed m.
Proof.
  induction l as [|[id p] l IH]; intros m; simpl.
  - rewrite app_nil_r. auto.
  - specialize (IH (setProcesses (JsMap.delete String.eqb id (processes m))
                                 (kill (RunningProc.process p) m))).
    simpl in IH. destruct IH as [Hk H]. rewrite Hk, <- app_assoc. auto.
Qed.

Lemma stopAllForEnv_loop_kills : forall envId l m,
  let m' :=
    fold_left
      (fun m entry =>
         let '(id, p) := entry in
         if ForwardKey.envId (RunningProc.key p) =? envId
         then setProcesses (JsMap.delete String.eqb id (processes m))
                           (kill (RunningProc.process p) m)
         else m) l m in
  killed m'
  = (killed m
       ++ map (fun e => RunningProc.process (snd e))
              (filter (fun e => ForwardKey.envId (RunningProc.key (snd e)) =? envId) l))%list
  /\ spawned m' = spawned m /\ envs m' = envs m
  /\ portFailureCounts m' = portFailureCounts m /\ probed m' = probed m.
Proof.
  intros envId. induction l as [|[id p] l IH]; intros m; simpl.
  - rewrite app_nil_r. auto.
  - destruct (ForwardKey.envId (RunningProc.key p) =? envId); simpl.
    + specialize (IH (setProcesses (JsMap.delete String.eqb id (processes m))
                                   (kill (RunningProc.process p) m))).
      simpl in IH. destruct IH as [Hk H]. rewrite Hk, <- app_assoc. auto.
    + apply IH.
Qed.

Lemma findByPort_entry : forall port m holder,
  findByPort port m = Some holder ->
  RunningProc.localPort holder = port
  /\ exists id, In (id, holder) (processes m).
Proof.
  intros port m holder H. unfold findByPort in H. apply find_some in H as [Hin Hp].
  apply Z.eqb_eq in Hp. split; [exact Hp|].
  unfold JsMap.values in Hin. apply in_map_iff in Hin as [[id p] [Hs Hin]].
  simpl in Hs. subst p. now exists id.
Qed.

Lemma resolve_command : forall es key env cmd arguments port,
  resolve es key = Some (env, cmd, arguments, port) ->
  cmd = "ssh" \/ cmd = "kubectl".
Proof.
  intros es key env cmd arguments port H. unfold resolve in H.
  destruct (find _ es) as [env'|]; [|discriminate].
  destruct (ForwardKey.kind key).
  - destruct (find _ (EnvironmentConfig.sshTunnels env')); inversion H; auto.
  - destruct (find _ (EnvironmentConfig.k8sForwards env')); inversion H; auto.
Qed.

Lemma addSshKeysIfPresent_tracked : forall W env m,
  tracked m -> tracked (addSshKeysIfPresent W env m).
Proof.
  intros W env m H.
  destruct (addSshKeysIfPresent_spec W env m) as [[_ [HP [_ [_ Hk]]]] [_ Hs]].
  apply (tracked_removal m _ (fun _ => true) [] (sshAddCommands W env) H Hs).
  - rewrite HP. symmetry. now apply filter_all.
  - simpl. now rewrite app_nil_r.
  - intros e [].
Qed.

Lemma start_tracked : forall W key m,
  wf m -> tracked m -> tracked (snd (start W key m)).
Proof.
  intros W key m Hwf Htr.
  destruct (isRunning key m) eqn:Hrun.
  - unfold start. now rewrite Hrun.
  - destruct (resolve (envs m) key) as [[[[env cmd] arguments] port]|] eqn:Hres.
    + rewrite (start_resolved W key m env cmd arguments port Hrun Hres).
      pose proof (resolve_command _ _ _ _ _ _ Hres) as Hcmd.
      destruct (addSshKeysIfPresent_spec W env m) as [[_ [HP _]] _].
      pose proof (addSshKeysIfPresent_tracked W env m Htr) as Htr0.
      set (m0 := addSshKeysIfPresent W env m) in *.
      assert (Hwf0 : wf m0) by (eapply wf_same_processes; eauto).
      assert (Hrun0 : isRunning key m0 = false)
        by (rewrite (isRunning_ext key m m0 HP); exact Hrun).
      destruct (findByPort port m0) as [holder|] eqn:Hh.
      * destruct (portOpen W port 300) eqn:Hprobe.
        -- rewrite (gate_live W key cmd arguments port m0 holder Hh Hprobe).
           destruct (pruneDeadByPort_live W port m0 holder Hh Hprobe)
             as [[_ [HPp [_ [_ Hkp]]]] [Hsp _]].
           simpl. now apply (tracked_same m0).
        -- destruct (gate_stale W key cmd arguments port m0 holder
                       (proj1 Hwf0) Hh Hprobe) as [-> Hfree].
           destruct (pruneDeadByPort_stale W port m0 holder (proj1 Hwf0) Hh Hprobe)
             as [HPp [Hkp [_ [_ [_ [_ Hsp]]]]]].
           destruct (findByPort_entry port m0 holder Hh) as [Hport [idh Hin]].
           simpl. apply tracked_launch; [| |exact Hcmd].
           ++ apply (tracked_removal m0 _ (fun e => negb (holdsPort port e))
                       [(idh, holder)] [] Htr0).
              ** now rewrite app_nil_r.
              ** exact HPp.
              ** exact Hkp.
              ** intros e [<-|[]]. split; [exact Hin|].
                 unfold holdsPort. simpl. now rewrite Hport, Z.eqb_refl.
           ++ unfold isRunning. apply not_true_is_false. intros Hin'.
              apply (has_true_iff String.eqb String_eqb_eq) in Hin'.
              rewrite HPp in Hin'. apply filter_keys_incl in Hin'.
              now apply not_running_notin in Hrun0.
      * rewrite (gate_free W key cmd arguments port m0 Hh). simpl.
        now apply tracked_launch.
    + pose proof (start_unresolved W key m Hrun Hres) as H.
      destruct (find _ (envs m)) as [env|]; rewrite H; simpl; [|assumption].
      now apply addSshKeysIfPresent_tracked.
Qed.

(** Every reachable state keeps the bookkeeping of the children. *)
Lemma reachable_tracked : forall m, reachable m -> tracked m.
Proof.
  induction 1 as [es|es m Hr IH|W key m Hr IH|key m Hr IH|envId m Hr IH|m Hr IH
                 |W m Hr IH|p code signal m Hr IH|p err m Hr IH];
    try (pose proof (reachable_wf m Hr) as Hwf).
  - unfold tracked. simpl. repeat split; constructor.
  - exact IH.
  - now apply start_tracked.
  - destruct (isRunning key m) eqn:Hrun; [|now rewrite stop_not_running].
    destruct (stop_running key m Hrun) as [_ [HP _]].
    apply running_iff_get in Hrun as [p Hget].
    apply (tracked_removal m _ (fun e => negb (fst e =? keyToId key))
             [(keyToId key, p)] [] IH).
    + unfold stop. rewrite Hget. simpl. now rewrite app_nil_r.
    + exact HP.
    + unfold stop. rewrite Hget. reflexivity.
    + intros e [<-|[]]. split.
      * now apply (get_In String.eqb String_eqb_eq).
      * simpl. now rewrite String.eqb_refl.
  - unfold stopAllForEnv.
    destruct (stopAllForEnv_loop envId (processes m) m) as [HP _].
    destruct (stopAllForEnv_loop_kills envId (processes m) m) as [Hk [Hs _]].
    cbv zeta in HP, Hk, Hs. rewrite deleteWhere_self in HP by apply Hwf.
    eapply (tracked_removal m _ _ _ [] IH).
    + simpl. rewrite Hs. now rewrite app_nil_r.
    + simpl. exact HP.
    + simpl. exact Hk.
    + intros e He. apply filter_In in He as [He Hm]. simpl. now rewrite Hm.
  - unfold stopAll. destruct (processes m) as [|e0 l] eqn:E; [exact IH|].
    rewrite <- E.
    destruct (stopAll_loop (processes m) m) as [HP _].
    destruct (stopAll_loop_kills (processes m) m) as [Hk [Hs _]].
    cbv zeta in HP, Hk, Hs. rewrite deleteWhere_self in HP by apply Hwf.
    eapply (tracked_removal m _ _ (processes m) [] IH).
    + simpl. rewrite Hs. now rewrite app_nil_r.
    + simpl. exact HP.
    + simpl. exact Hk.
    + intros e He. auto.
  - destruct (healthCheck_spec W m (proj1 Hwf)) as [HP [_ [Hk [_ [_ [Hs _]]]]]].
    eapply (tracked_removal m _ _ _ [] IH).
    + rewrite Hs. now rewrite app_nil_r.
    + exact HP.
    + exact Hk.
    + intros e He. apply filter_In in He as [He Hstrike]. split; [exact He|].
      unfold evicts. destruct (exitCode W (RunningProc.process (snd e))); simpl;
        [reflexivity|now rewrite Hstrike].
  - eapply (tracked_removal m _ _ [] [] IH).
    + simpl. now rewrite app_nil_r.
    + unfold onExit. simpl. apply delete_as_filter.
    + simpl. now rewrite app_nil_r.
    + intros e [].
  - eapply (tracked_removal m _ _ [] [] IH).
    + simpl. now rewrite app_nil_r.
    + unfold onError. simpl. apply delete_as_filter.
    + simpl. now rewrite app_nil_r.
    + intros e [].
Qed.

Lemma exRunning_reachable : reachable exRunning.
Proof. exact (reach_start _ _ _ (reach_create _)). Qed.

Lemma find_unique_image : forall {A} (f : A -> Z) l x,
  NoDup (map f l) -> In x l -> find (fun y => (f y =? f x)%Z) l = Some x.
Proof.
  induction l as [|a l IH]; simpl; intros x Hnd Hin; [tauto|].
  inversion Hnd as [|? ? Ha Hnd']; subst.
  destruct Hin as [->|Hin]; [now rewrite Z.eqb_refl|].
  destruct (f a =? f x)%Z eqn:E; [|now apply IH].
  apply Z.eqb_eq in E. exfalso. apply Ha. rewrite E. now apply in_map.
Qed.

(** ** The registry queries in reachable states *)

(** X4: In every state the supervisor can reach, no two running forwards hold
    the same local port and no two have the same registry key:
    [getOccupiedPorts] has no duplicate, [getPortUsage] names each registry
    key once, in registry order, and [findByPort] on the port of a registered
    forward answers with that forward. *)
Theorem running_forwards_exclusive : forall m,
  reachable m ->
  NoDup (getOccupiedPorts m)
  /\ NoDup (map snd (getPortUsage m))
  /\ map snd (getPortUsage m) = JsMap.keys (processes m)
  /\ (forall id p,
        JsMap.get String.eqb id (processes m) = Some p ->
        findByPort (RunningProc.localPort p) m = Some p
        /\ In (RunningProc.localPort p, id) (getPortUsage m)).
Proof.
  intros m Hr. destruct (reachable_wf m Hr) as [Hkeys Hports].
  destruct (reachable_tracked m Hr) as [_ [Hent _]]. rewrite Forall_forall in Hent.
  assert (Hidx : map snd (getPortUsage m) = JsMap.keys (processes m)).
  { unfold getPortUsage, JsMap.keys, JsMap.values. rewrite !map_map.
    apply map_ext_in. intros e He. simpl. symmetry. now apply Hent. }
  split; [exact Hports|]. split; [now rewrite Hidx|]. split; [exact Hidx|].
  intros id p Hget. apply (get_In String.eqb String_eqb_eq) in Hget.
  split.
  - unfold findByPort. apply (find_unique_image RunningProc.localPort);
      [exact Hports|].
    unfold JsMap.values. apply in_map_iff. now exists (id, p).
  - unfold getPortUsage, JsMap.values. rewrite map_map.
    apply in_map_iff. exists (id, p). simpl. split; [|exact Hget].
    f_equal. symmetry. exact (proj1 (Hent (id, p) Hget)).
Qed.

Lemma running_forwards_exclusive_witness :
  NoDup (getOccupiedPorts exRunning)
  /\ NoDup (map snd (getPortUsage exRunning))
  /\ map snd (getPortUsage exRunning) = JsMap.keys (processes exRunning)
  /\ (forall id p,
        JsMap.get String.eqb id (processes exRunning) = Some p ->
        findByPort (RunningProc.localPort p) exRunning = Some p
        /\ In (RunningProc.localPort p, id) (getPortUsage exRunning)).
Proof. exact (running_forwards_exclusive exRunning exRunning_reachable). Defined.

(** X5: In every reachable state, a registry entry is filed under the string form
    of its own key, its child is one the manager spawned, with exactly the
    [ssh] or [kubectl] command line the entry records, and that child has not
    been sent [kill()]. *)
Theorem registry_records_spawned_command : forall m id p,
  reachable m ->
  JsMap.get String.eqb id (processes m) = Some p ->
  id = keyToId (RunningProc.key p)
  /\ isRunning (RunningProc.key p) m = true
  /\ nth_error (spawned m) (RunningProc.process p)
     = Some (RunningProc.command p, RunningProc.args p)
  /\ (RunningProc.command p = "ssh" \/ RunningProc.command p = "kubectl")
  /\ ~ In (RunningProc.process p) (killed m).
Proof.
  intros m id p Hr Hget.
  destruct (reachable_tracked m Hr) as [_ [Hent _]]. rewrite Forall_forall in Hent.
  pose proof (get_In String.eqb String_eqb_eq _ _ _ Hget) as Hin.
  destruct (Hent (id, p) Hin) as [Hid [Hnth [Hcmd Hnk]]]. simpl in *.
  split; [exact Hid|]. split; [|auto].
  apply running_iff_get. exists p. now rewrite <- Hid.
Qed.

Lemma registry_records_spawned_command_witness :
  "stg:ssh:db" = keyToId (RunningProc.key exDbProc)
  /\ isRunning (RunningProc.key exDbProc) exRunning = true
  /\ nth_error (spawned exRunning) (RunningProc.process exDbProc)
     = Some (RunningProc.command exDbProc, RunningProc.args exDbProc)
  /\ (RunningProc.command exDbProc = "ssh" \/ RunningProc.command exDbProc = "kubectl")
  /\ ~ In (RunningProc.process exDbProc) (killed exRunning).
Proof.
  exact (registry_records_spawned_command exRunning "stg:ssh:db" exDbProc
           exRunning_reachable eq_refl).
Defined.

(** X6: In every reachable state, a child that was sent [kill()] is one the
    manager had spawned as [ssh] or [kubectl] (never an [ssh-add] helper),
    and no registry entry refers to it any more. *)
Theorem killed_children_are_unregistered : forall m child,
  reachable m ->
  In child (killed m) ->
  (exists cmd arguments,
     nth_error (spawned m) child = Some (cmd, arguments)
     /\ (cmd = "ssh" \/ cmd = "kubectl"))
  /\ forall id p, In (id, p) (processes m) -> RunningProc.process p <> child.
Proof.
  intros m child Hr Hin.
  destruct (reachable_tracked m Hr) as [_ [Hent Hkil]].
  rewrite Forall_forall in Hent, Hkil. split; [now apply Hkil|].
  intros id p Hp Heq. destruct (Hent (id, p) Hp) as [_ [_ [_ Hnk]]].
  simpl in Hnk. congruence.
Qed.

Lemma killed_children_are_unregistered_witness :
  (exists cmd arguments,
     nth_error (spawned (stop kDb exRunning)) 1 = Some (cmd, arguments)
     /\ (cmd = "ssh" \/ cmd = "kubectl"))
  /\ forall id p, In (id, p) (processes (stop kDb exRunning)) ->
                  RunningProc.process p <> 1%nat.
Proof.
  apply (killed_children_are_unregistered (stop kDb exRunning) 1).
  - exact (reach_stop kDb exRunning exRunning_reachable).
  - simpl. auto.
Defined.

(** ** [stop], [stopAllForEnv], [stopAll] *)

Lemma deleteWhere_all : forall {V} (P : list (string * V)),
  deleteWhere (fun _ => true) P P = [].
Proof.
  intros V P. rewrite deleteWhere_filter.
  induction P as [|e P IH] using rev_ind; [reflexivity|].
  rewrite filter_app. simpl. rewrite existsb_app. simpl.
  rewrite String.eqb_refl, orb_true_r. simpl. rewrite app_nil_r.
  erewrite filter_ext_in; [exact IH|].
  intros a Ha. simpl. rewrite !existsb_app. simpl.
  destruct (existsb (fun e' => fst e' =? fst a) P) eqn:E; [reflexivity|].
  exfalso. apply not_true_iff_false in E. apply E.
  apply existsb_exists. exists a. split; [exact Ha|apply String.eqb_refl].
Qed.

(** X7: [stop] is local to its key: it sends [kill()] to the child registered
    under the key and to no other, removes that entry, leaves every other
    entry, the failure counts and the configuration alone, and a second
    [stop] of the same key changes nothing. *)
Theorem stop_is_local : forall key m p,
  JsMap.get String.eqb (keyToId key) (processes m) = Some p ->
  killed (stop key m) = (killed m ++ [RunningProc.process p])%list
  /\ isRunning key (stop key m) = false
  /\ (forall id, id <> keyToId key ->
        JsMap.get String.eqb id (processes (stop key m))
        = JsMap.get String.eqb id (processes m))
  /\ portFailureCounts (stop key m) = portFailureCounts m
  /\ envs (stop key m) = envs m
  /\ spawned (stop key m) = spawned m
  /\ stop key (stop key m) = stop key m.
Proof.
  intros key m p Hget.
  assert (Hgone : isRunning key (stop key m) = false).
  { unfold stop. rewrite Hget. unfold isRunning, JsMap.has. simpl.
    now rewrite (get_delete_same String.eqb). }
  split; [unfold stop; now rewrite Hget|]. split; [exact Hgone|].
  split.
  { intros id Hne. unfold stop. rewrite Hget. simpl.
    apply (get_delete_other String.eqb String_eqb_eq). congruence. }
  split; [unfold stop; now rewrite Hget|].
  split; [unfold stop; now rewrite Hget|].
  split; [unfold stop; now rewrite Hget|].
  now apply stop_not_running.
Qed.

Lemma stop_is_local_witness :
  killed (stop kDb exRunning) = (killed exRunning ++ [RunningProc.process exDbProc])%list
  /\ isRunning kDb (stop kDb exRunning) = false
  /\ (forall id, id <> keyToId kDb ->
        JsMap.get String.eqb id (processes (stop kDb exRunning))
        = JsMap.get String.eqb id (processes exRunning))
  /\ portFailureCounts (stop kDb exRunning) = portFailureCounts exRunning
  /\ envs (stop kDb exRunning) = envs exRunning
  /\ spawned (stop kDb exRunning) = spawned exRunning
  /\ stop kDb (stop kDb exRunning) = stop kDb exRunning.
Proof. exact (stop_is_local kDb exRunning exDbProc eq_refl). Defined.

(** X8: [stopAllForEnv] sends [kill()] to exactly the children of the forwards of
    the given environment, in registry order; those entries leave the
    registry and the entries of every other environment stay, in their
    order. Failure counts and configuration are untouched. *)
Theorem stopAllForEnv_spec : forall envId m,
  wf m ->
  let ofEnv := fun e : string * RunningProc.t =>
                 ForwardKey.envId (RunningProc.key (snd e)) =? envId in
  killed (stopAllForEnv envId m)
  = (killed m ++ map (fun e => RunningProc.process (snd e))
                     (filter ofEnv (processes m)))%list
  /\ processes (stopAllForEnv envId m)
     = filter (fun e => negb (ofEnv e)) (processes m)
  /\ (forall id p,
        JsMap.get String.eqb id (processes m) = Some p ->
        JsMap.get String.eqb id (processes (stopAllForEnv envId m))
        = if ForwardKey.envId (RunningProc.key p) =? envId then None else Some p)
  /\ portFailureCounts (stopAllForEnv envId m) = portFailureCounts m
  /\ envs (stopAllForEnv envId m) = envs m
  /\ spawned (stopAllForEnv envId m) = spawned m.
Proof.
  intros envId m [Hnd _] ofEnv. unfold stopAllForEnv.
  destruct (stopAllForEnv_loop envId (processes m) m) as [HP _].
  destruct (stopAllForEnv_loop_kills envId (processes m) m) as [Hk [Hs [He [Hc _]]]].
  cbv zeta in HP, Hk, Hs, He, Hc. rewrite deleteWhere_self in HP by assumption.
  simpl. fold ofEnv in HP, Hk. rewrite HP, Hk, Hs, He, Hc.
  repeat split.
  intros id p Hget. apply (get_In String.eqb String_eqb_eq) in Hget.
  destruct (ForwardKey.envId (RunningProc.key p) =? envId) eqn:E.
  - apply (get_filter_drop _ _ id p); try assumption.
    unfold ofEnv. simpl. now rewrite E.
  - apply get_filter_keep; try assumption. unfold ofEnv. simpl. now rewrite E.
Qed.

Lemma stopAllForEnv_spec_witness :
  killed (stopAllForEnv "stg" exRunning) = [1%nat]
  /\ processes (stopAllForEnv "stg" exRunning) = [].
Proof.
  destruct (stopAllForEnv_spec "stg" exRunning) as [Hk [HP _]]; [solve_wf|].
  rewrite Hk, HP. split; reflexivity.
Defined.

(** X9: [stopAll] sends [kill()] to the child of every registered forward, once
    each and in registry order, and leaves the registry empty, so that no
    port is reported as occupied; failure counts and configuration are
    untouched. *)
Theorem stopAll_spec : forall m,
  killed (stopAll m)
  = (killed m ++ map RunningProc.process (JsMap.values (processes m)))%list
  /\ processes (stopAll m) = []
  /\ getOccupiedPorts (stopAll m) = []
  /\ portFailureCounts (stopAll m) = portFailureCounts m
  /\ envs (stopAll m) = envs m
  /\ spawned (stopAll m) = spawned m.
Proof.
  intros m. unfold stopAll.
  destruct (stopAll_loop (processes m) m) as [HP _].
  destruct (stopAll_loop_kills (processes m) m) as [Hk [Hs [He [Hc _]]]].
  cbv zeta in HP, Hk, Hs, He, Hc. rewrite deleteWhere_all in HP.
  unfold JsMap.values in *. rewrite map_map.
  destruct (processes m) as [|e l] eqn:E.
  - simpl. rewrite E, app_nil_r. unfold getOccupiedPorts. rewrite E.
    repeat split.
  - rewrite <- E in *. unfold getOccupiedPorts.
    set (loop := fold_left _ (processes m) m) in *. clearbody loop.
    simpl. rewrite HP, Hk, Hs, He, Hc. repeat split.
Qed.

(** ** [runningKeys] and the [toggle] message ([extension.ts]) *)

Lemma fold_push_if : forall {A} (c : A -> bool) (g : A -> string) l ids,
  fold_left (fun ids x => if c x then app ids [g x] else ids) l ids
  = (ids ++ map g (filter c l))%list.
Proof.
  induction l as [|x l IH]; intros ids; simpl; [now rewrite app_nil_r|].
  rewrite IH. destruct (c x); simpl; [now rewrite <- app_assoc|reflexivity].
Qed.

Lemma runningKeys_loop : forall m es ids,
  fold_left
    (fun ids env =>
       let ids :=
         fold_left
           (fun ids t =>
              let k := ForwardKey.mk (EnvironmentConfig.id env) ssh (SshTunnel.id t) in
              if ForwardManager.isRunning k m
              then app ids [EnvironmentConfig.id env ++ ":ssh:" ++ SshTunnel.id t]
              else ids)
           (EnvironmentConfig.sshTunnels env) ids in
       fold_left
         (fun ids f =>
            let k := ForwardKey.mk (EnvironmentConfig.id env) k8s (K8sForward.id f) in
            if ForwardManager.isRunning k m
            then app ids [EnvironmentConfig.id env ++ ":k8s:" ++ K8sForward.id f]
            else ids)
         (EnvironmentConfig.k8sForwards env) ids)
    es ids
  = (ids ++ flat_map (runningOf m) es)%list.
Proof.
  intros m es. induction es as [|env es IH]; intros ids; simpl;
    [now rewrite app_nil_r|].
  rewrite IH. clear IH.
  rewrite (fold_push_if
             (fun t => isRunning (ForwardKey.mk (EnvironmentConfig.id env) ssh
                                                (SshTunnel.id t)) m)
             (fun t => EnvironmentConfig.id env ++ ":ssh:" ++ SshTunnel.id t)).
  rewrite (fold_push_if
             (fun f => isRunning (ForwardKey.mk (EnvironmentConfig.id env) k8s
                                                (K8sForward.id f)) m)
             (fun f => EnvironmentConfig.id env ++ ":k8s:" ++ K8sForward.id f)).
  unfold runningOf. rewrite <- !app_assoc. reflexivity.
Qed.

Lemma runningKeys_unfold : forall m,
  Extension.runningKeys m = flat_map (runningOf m) (envs m).
Proof. intros m. unfold Extension.runningKeys. apply runningKeys_loop. Qed.

Lemma runningKeys_ext : forall m m',
  envs m' = envs m -> processes m' = processes m ->
  Extension.runningKeys m' = Extension.runningKeys m.
Proof.
  intros m m' He HP. rewrite !runningKeys_unfold, He.
  unfold runningOf, isRunning. now rewrite HP.
Qed.

Lemma status_ext : forall m m',
  envs m' = envs m -> processes m' = processes m ->
  Extension.status m' = Extension.status m.
Proof.
  intros m m' He HP. unfold Extension.status, getOccupiedPorts, getPortUsage.
  now rewrite (runningKeys_ext m m' He HP), HP.
Qed.

Lemma runningKeys_registered : forall m s,
  In s (Extension.runningKeys m) -> In s (JsMap.keys (processes m)).
Proof.
  intros m s H. rewrite runningKeys_unfold in H.
  apply in_flat_map in H as [env [_ H]]. unfold runningOf in H.
  apply in_app_or in H as [H|H]; apply in_map_iff in H as [x [<- H]];
    apply filter_In in H as [_ H]; unfold isRunning in H;
    now apply (has_true_iff String.eqb String_eqb_eq) in H.
Qed.

Lemma runningKeys_lists_resolved : forall m key env cmd arguments port,
  resolve (envs m) key = Some (env, cmd, arguments, port) ->
  isRunning key m = true ->
  In (keyToId key) (Extension.runningKeys m).
Proof.
  intros m [envId kind id] env cmd arguments port Hres Hrun.
  rewrite runningKeys_unfold. unfold resolve in Hres. simpl in Hres.
  destruct (find _ (envs m)) as [env'|] eqn:Henv; [|discriminate].
  apply find_some in Henv as [Henv Hid]. apply String.eqb_eq in Hid.
  apply in_flat_map. exists env'. split; [exact Henv|].
  unfold runningOf. apply in_or_app. destruct kind.
  - destruct (find _ (EnvironmentConfig.sshTunnels env')) as [item|] eqn:Hitem;
      [|discriminate].
    apply find_some in Hitem as [Hitem Hi]. apply String.eqb_eq in Hi.
    left. apply in_map_iff. exists item. rewrite Hid, Hi. split; [reflexivity|].
    apply filter_In. split; [exact Hitem|]. cbv beta. now rewrite Hi.
  - destruct (find _ (EnvironmentConfig.k8sForwards env')) as [item|] eqn:Hitem;
      [|discriminate].
    apply find_some in Hitem as [Hitem Hi]. apply String.eqb_eq in Hi.
    right. apply in_map_iff. exists item. rewrite Hid, Hi. split; [reflexivity|].
    apply filter_In. split; [exact Hitem|]. cbv beta. now rewrite Hi.
Qed.

(** X10: [runningKeys] is what the panel shows as switched on: every string it
    lists is a key of the registry, and it lists the string form of every
    running key whose definition [start] would resolve in the current
    configuration. A forward whose environment has left the configuration
    stays registered and occupies its port, but is not listed. *)
Theorem runningKeys_spec :
  (forall m s, In s (Extension.runningKeys m) -> In s (JsMap.keys (processes m)))
  /\ (forall m key,
        resolve (envs m) key <> None ->
        isRunning key m = true ->
        In (keyToId key) (Extension.runningKeys m))
  /\ (forall m es key,
        (forall env, In env es -> EnvironmentConfig.id env <> ForwardKey.envId key) ->
        colonFree (ForwardKey.envId key) = true ->
        (forall env, In env es -> colonFree (EnvironmentConfig.id env) = true) ->
        ~ In (keyToId key) (Extension.runningKeys (setEnvironments es m))
        /\ isRunning key (setEnvironments es m) = isRunning key m
        /\ getOccupiedPorts (setEnvironments es m) = getOccupiedPorts m).
Proof.
  split; [exact runningKeys_registered|]. split.
  - intros m key Hres Hrun.
    destruct (resolve (envs m) key) as [[[[env cmd] arguments] port]|] eqn:E;
      [|contradiction].
    now apply (runningKeys_lists_resolved m key env cmd arguments port).
  - intros m es key Hgone Hkey Hes. split; [|split; reflexivity].
    rewrite runningKeys_unfold. simpl. intros Hin.
    apply in_flat_map in Hin as [env [Henv Hin]]. unfold runningOf in Hin.
    apply in_app_or in Hin as [Hin|Hin]; apply in_map_iff in Hin as [x [Hx _]];
      unfold keyToId in Hx; simpl in Hx;
      apply append_colon_split in Hx as [Hx _]; auto;
      now apply (Hgone env).
Qed.

Lemma runningKeys_spec_witness :
  In "stg:ssh:db" (Extension.runningKeys exRunning)
  /\ ~ In "stg:ssh:db" (Extension.runningKeys (setEnvironments [] exRunning))
  /\ isRunning kDb (setEnvironments [] exRunning) = true.
Proof.
  destruct runningKeys_spec as [_ [Hlisted Hgone]].
  split; [apply (Hlisted exRunning kDb); [vm_compute; discriminate|reflexivity]|].
  destruct (Hgone exRunning [] kDb) as [Hnot [Hrun _]];
    [intros env []|reflexivity|intros env []|].
  split; [exact Hnot|rewrite Hrun; reflexivity].
Defined.

(** X11: A [toggle] of a key that is not running, resolves and finds its port
    free, followed by a second [toggle] of the same key: the first shows no
    error and reports the key as running and its port as occupied; the second
    shows no error either, sends [kill()] to the child just spawned, and
    leaves the registry and the reported status exactly as they were before
    the first. *)
Theorem toggle_twice : forall W1 W2 key m env cmd arguments port,
  isRunning key m = false ->
  resolve (envs m) key = Some (env, cmd, arguments, port) ->
  findByPort port m = None ->
  let on := Extension.toggle W1 key m in
  let off := Extension.toggle W2 key (snd on) in
  fst (fst on) = None
  /\ In (keyToId key) (Extension.running (snd (fst on)))
  /\ In port (Extension.occupied (snd (fst on)))
  /\ fst (fst off) = None
  /\ processes (snd off) = processes m
  /\ snd (fst off) = Extension.status m
  /\ killed (snd off)
     = (killed m ++ [List.length (spawned m ++ sshAddCommands W1 env)])%list.
Proof.
  intros W1 W2 key m env cmd arguments port Hrun Hres Hfree on off.
  destruct (addSshKeysIfPresent_spec W1 env m) as [[He [HP [_ [_ Hk]]]] [_ Hs]].
  assert (Hstart : start W1 key m
                   = (Returned, spawnAndTrack W1 key cmd arguments port
                                  (addSshKeysIfPresent W1 env m))).
  { rewrite (start_resolved W1 key m env cmd arguments port Hrun Hres).
    apply gate_free. now rewrite (findByPort_ext port m _ HP). }
  set (m0 := addSshKeysIfPresent W1 env m) in *.
  assert (Hrun0 : isRunning key m0 = false)
    by (rewrite (isRunning_ext key m m0 HP); exact Hrun).
  destruct (spawnAndTrack_spec W1 key cmd arguments port m0 Hrun0)
    as [HP1 [_ [_ [He1 [_ [Hk1 _]]]]]].
  set (m1 := spawnAndTrack W1 key cmd arguments port m0) in *.
  destruct (start_launches W1 key m m1 env cmd arguments port Hrun Hres Hstart)
    as [_ [_ [_ [Hrun1 [[p [Hp [_ [_ [_ [_ [Hport _]]]]]]] _]]]]].
  assert (Hon : on = (None, Extension.status m1, m1))
    by (unfold on, Extension.toggle; now rewrite Hrun, Hstart).
  assert (Hget1 : JsMap.get String.eqb (keyToId key) (processes m1)
                  = Some (RunningProc.mk key (List.length (spawned m0)) cmd arguments
                                         port (now W1)))
    by (unfold m1, spawnAndTrack; simpl;
        apply (get_set_same String.eqb String_eqb_eq)).
  clearbody m1 m0.
  assert (HPoff : processes (stop key m1) = processes m).
  { unfold stop. rewrite Hget1. simpl. rewrite HP1, delete_app. simpl.
    rewrite String.eqb_refl, app_nil_r, HP.
    apply (delete_notin String.eqb String_eqb_eq).
    now apply not_running_notin. }
  assert (Hoff : off = (None, Extension.status (stop key m1), stop key m1))
    by (unfold off; rewrite Hon; unfold Extension.toggle; simpl; now rewrite Hrun1).
  rewrite Hoff, Hon. simpl.
  split; [reflexivity|]. split.
  { apply (runningKeys_lists_resolved m1 key env cmd arguments port);
      [now rewrite He1, He|exact Hrun1]. }
  split.
  { unfold getOccupiedPorts, findByPort in *. apply find_some in Hp as [Hin Hpp].
    apply in_map_iff. exists p. split; [exact Hport|exact Hin]. }
  split; [reflexivity|]. split; [exact HPoff|]. split.
  { apply status_ext; [|exact HPoff].
    unfold stop. rewrite Hget1. simpl. now rewrite He1, He. }
  unfold stop. rewrite Hget1. simpl. now rewrite Hk1, Hk, Hs.
Qed.

Lemma toggle_twice_witness :
  fst (fst (Extension.toggle (exWorld true 1000) kDb exFresh)) = None
  /\ In (keyToId kDb)
        (Extension.running (snd (fst (Extension.toggle (exWorld true 1000) kDb exFresh))))
  /\ In 3316%Z
        (Extension.occupied (snd (fst (Extension.toggle (exWorld true 1000) kDb exFresh))))
  /\ fst (fst (Extension.toggle (exWorld true 2000) kDb
                 (snd (Extension.toggle (exWorld true 1000) kDb exFresh)))) = None
  /\ processes (snd (Extension.toggle (exWorld true 2000) kDb
                       (snd (Extension.toggle (exWorld true 1000) kDb exFresh))))
     = processes exFresh
  /\ snd (fst (Extension.toggle (exWorld true 2000) kDb
                 (snd (Extension.toggle (exWorld true 1000) kDb exFresh))))
     = Extension.status exFresh
  /\ killed (snd (Extension.toggle (exWorld true 2000) kDb
                    (snd (Extension.toggle (exWorld true 1000) kDb exFresh))))
     = (killed exFresh
          ++ [List.length (spawned exFresh ++ sshAddCommands (exWorld true 1000) exEnv)])%list.
Proof.
  apply (toggle_twice (exWorld true 1000) (exWorld true 2000) kDb exFresh exEnv "ssh"
           (sshArgs (SshTunnel.mk "db" "database:3316" 3316 "1.2.3.4" 3306 "stg")) 3316);
    reflexivity.
Defined.

(** ** The panel script: key strings and blocked toggles *)

Lemma split_colonFree : forall a, colonFree a = true -> Panel.split ":" a = [a].
Proof.
  induction a as [|c a IH]; simpl; intros H; [reflexivity|].
  apply andb_true_iff in H as [Hc Ha]. apply negb_true_iff in Hc.
  rewrite Hc, (IH Ha). reflexivity.
Qed.

Lemma split_prefix : forall a rest,
  colonFree a = true ->
  Panel.split ":" (a ++ ":" ++ rest) = a :: Panel.split ":" rest.
Proof.
  induction a as [|c a IH]; simpl; intros rest H; [reflexivity|].
  apply andb_true_iff in H as [Hc Ha]. apply negb_true_iff in Hc.
  rewrite Hc. simpl in IH. rewrite (IH rest Ha). reflexivity.
Qed.

Lemma split_parts_colonFree : forall s part,
  In part (Panel.split ":" s) -> colonFree part = true.
Proof.
  induction s as [|c s IH]; simpl; intros part H.
  - destruct H as [<-|[]]. reflexivity.
  - destruct (Ascii.eqb c ":") eqn:Hc.
    + destruct H as [<-|H]; [reflexivity|now apply IH].
    + destruct (Panel.split ":" s) as [|p ps].
      * destruct H as [<-|[]]. simpl. now rewrite Hc.
      * destruct H as [<-|H].
        -- simpl. rewrite Hc. simpl. apply IH. now left.
        -- apply IH. now right.
Qed.

(** X12: The panel sends a [toggle] message whose key is cut out of the string
    form at the colons. The message carries the fields of the key the string
    was built from exactly when the key's [envId] and [id] hold no [":"];
    with a colon in either, a different key reaches the supervisor. *)
Theorem toggleKey_roundtrip : forall key,
  Panel.toggleKey (keyToId key)
  = (Some (ForwardKey.envId key), Some (kindToString (ForwardKey.kind key)),
     Some (ForwardKey.id key))
  <-> colonFree (ForwardKey.envId key) = true /\ colonFree (ForwardKey.id key) = true.
Proof.
  intros [envId kind id]. unfold Panel.toggleKey, keyToId. simpl ForwardKey.envId.
  simpl ForwardKey.kind. simpl ForwardKey.id. split.
  - intros H. injection H as H0 _ H2. split.
    + apply (split_parts_colonFree (envId ++ ":" ++ kindToString kind ++ ":" ++ id)).
      apply (nth_error_In _ 0%nat). exact H0.
    + apply (split_parts_colonFree (envId ++ ":" ++ kindToString kind ++ ":" ++ id)).
      apply (nth_error_In _ 2%nat). exact H2.
  - intros [He Hi].
    rewrite (split_prefix envId _ He).
    rewrite (split_prefix (kindToString kind) _ (kindToString_colonFree kind)).
    rewrite (split_colonFree id Hi). reflexivity.
Qed.

Lemma find_usage : forall port m,
  find (fun u => (fst u =? port)%Z) (getPortUsage m)
  = option_map (fun p => (RunningProc.localPort p, keyToId (RunningProc.key p)))
               (findByPort port m).
Proof.
  intros port m. unfold getPortUsage, findByPort.
  induction (JsMap.values (processes m)) as [|p l IH]; simpl; [reflexivity|].
  destruct (RunningProc.localPort p =? port)%Z; [reflexivity|exact IH].
Qed.

Lemma find_pointwise : forall {A} (f g : A -> bool) l,
  (forall x, f x = g x) -> find f l = find g l.
Proof.
  induction l as [|x l IH]; simpl; intros H; [reflexivity|].
  rewrite (H x). destruct (g x); [reflexivity|now apply IH].
Qed.

Lemma portForKey_resolved : forall es key env cmd arguments port,
  colonFree (ForwardKey.envId key) = true ->
  colonFree (ForwardKey.id key) = true ->
  resolve es key = Some (env, cmd, arguments, port) ->
  Panel.portForKey env (keyToId key) = Some port.
Proof.
  intros es [envId kind id] env cmd arguments port He Hi Hres.
  simpl in He, Hi. unfold Panel.portForKey, keyToId. simpl ForwardKey.envId.
  simpl ForwardKey.kind. simpl ForwardKey.id.
  rewrite (split_prefix envId _ He).
  rewrite (split_prefix (kindToString kind) _ (kindToString_colonFree kind)).
  rewrite (split_colonFree id Hi). cbn [nth_error].
  unfold resolve in Hres. simpl in Hres.
  destruct (find _ es) as [env'|]; [|discriminate].
  destruct kind; simpl.
  - destruct (find (fun t => SshTunnel.id t =? id) (EnvironmentConfig.sshTunnels env'))
      as [item|] eqn:Hitem; [|discriminate].
    injection Hres as <- _ _ <-.
    erewrite find_pointwise; [rewrite Hitem; reflexivity|].
    intros t. simpl. apply String.eqb_sym.
  - destruct (find (fun f => K8sForward.id f =? id) (EnvironmentConfig.k8sForwards env'))
      as [item|] eqn:Hitem; [|discriminate].
    injection Hres as <- _ _ <-.
    erewrite find_pointwise; [rewrite Hitem; reflexivity|].
    intros f. simpl. apply String.eqb_sym.
Qed.

(** X13: What the panel shows for a configured key with colon-free [envId] and
    [id], from the status the extension posts for manager [m]. A running key
    is never blocked. A key that is not running is blocked exactly when
    [findByPort] finds a holder of its port, which is when [start] would run
    into the port gate, and the reason shown is "Port <port> in use by
    <string form of the holder's key>": the panel names the holder that the
    error of [start] leaves out. *)
Theorem panel_blocks_held_ports : forall m key env cmd arguments port,
  colonFree (ForwardKey.envId key) = true ->
  colonFree (ForwardKey.id key) = true ->
  resolve (envs m) key = Some (env, cmd, arguments, port) ->
  let state := Some (Panel.stateOf (Extension.status m)) in
  (isRunning key m = true ->
   Panel.blockedReason state env (keyToId key) = EmptyString)
  /\ (isRunning key m = false ->
      Panel.blockedReason state env (keyToId key)
      = match findByPort port m with
        | Some holder =>
            "Port " ++ numToString port ++ " in use by "
              ++ keyToId (RunningProc.key holder)
        | None => EmptyString
        end
      /\ (Panel.isBlocked state env (keyToId key) = true
          <-> exists holder, findByPort port m = Some holder)).
Proof.
  intros m key env cmd arguments port He Hi Hres state.
  pose proof (portForKey_resolved _ _ _ _ _ _ He Hi Hres) as Hport.
  unfold Panel.isBlocked, Panel.blockedReason, state, Panel.stateOf,
    Extension.status. simpl. rewrite Hport, find_usage.
  split.
  - intros Hrun.
    assert (Hlisted : existsb (String.eqb (keyToId key)) (Extension.runningKeys m) = true).
    { apply (existsb_eqb_In String.eqb String_eqb_eq).
      now apply (runningKeys_lists_resolved m key env cmd arguments port). }
    rewrite Hlisted. destruct (findByPort port m); reflexivity.
  - intros Hrun.
    assert (Hnot : existsb (String.eqb (keyToId key)) (Extension.runningKeys m) = false).
    { apply not_true_is_false. intros H.
      apply (existsb_eqb_In String.eqb String_eqb_eq) in H.
      apply runningKeys_registered in H. now apply not_running_notin in Hrun. }
    rewrite Hnot. destruct (findByPort port m) as [holder|]; simpl.
    + split; [reflexivity|]. split; [intros _; now exists holder|reflexivity].
    + split; [reflexivity|]. split; [discriminate|intros [h Hh]; discriminate].
Qed.

Lemma panel_blocks_held_ports_witness :
  (isRunning kReplica exRunning = true ->
   Panel.blockedReason (Some (Panel.stateOf (Extension.status exRunning))) exEnv
     (keyToId kReplica) = EmptyString)
  /\ (isRunning kReplica exRunning = false ->
      Panel.blockedReason (Some (Panel.stateOf (Extension.status exRunning))) exEnv
        (keyToId kReplica)
      = match findByPort 3316 exRunning with
        | Some holder =>
            "Port " ++ numToString 3316 ++ " in use by "
              ++ keyToId (RunningProc.key holder)
        | None => EmptyString
        end
      /\ (Panel.isBlocked (Some (Panel.stateOf (Extension.status exRunning))) exEnv
            (keyToId kReplica) = true
          <-> exists holder, findByPort 3316 exRunning = Some holder)).
Proof.
  apply (panel_blocks_held_ports exRunning kReplica exEnv "ssh"
           (sshArgs (SshTunnel.mk "replica" "replica:3316" 3316 "1.2.3.5" 3306 "stg")));
    reflexivity.
Defined.

(** The tooltip of the blocked replica in the example. *)
Example panel_blocked_scenario :
  Panel.blockedReason (Some (Panel.stateOf (Extension.status exRunning))) exEnv
    "stg:ssh:replica"
  = "Port 3316 in use by stg:ssh:db".
Proof. reflexivity. Qed.

(** ** More on the health sweep *)

(** X14: A registered forward whose child has exited is removed by the next sweep
    whatever its age and its failure count: its entry and its failure count
    are dropped, a change notification fires, its port is not among the ports
    the sweep probes and its child is not among the children the sweep sends
    [kill()] to, none of which has exited. *)
Theorem healthCheck_removes_exited : forall W m id p code,
  wf m ->
  JsMap.get String.eqb id (processes m) = Some p ->
  exitCode W (RunningProc.process p) = Some code ->
  JsMap.get String.eqb id (processes (healthCheck W m)) = None
  /\ JsMap.get String.eqb id (portFailureCounts (healthCheck W m)) = None
  /\ fired (healthCheck W m) = S (fired m)
  /\ (exists ports,
        probed (healthCheck W m) = (probed m ++ ports)%list
        /\ ~ In (RunningProc.localPort p) ports)
  /\ (exists sent,
        killed (healthCheck W m) = (killed m ++ sent)%list
        /\ ~ In (RunningProc.process p) sent
        /\ forall child, In child sent -> exitCode W child = None).
Proof.
  intros W m id p code [Hnd Hports] Hget Hexit.
  destruct (healthCheck_entry W m id p Hnd Hget) as [HP [Hc _]].
  apply (get_In String.eqb String_eqb_eq) in Hget.
  destruct (healthCheck_spec W m Hnd) as [_ [Hf [Hk [Hpr _]]]].
  assert (Hev : evicts W m (id, p) = true) by (unfold evicts; simpl; now rewrite Hexit).
  assert (Hnp : probes W (id, p) = false) by (unfold probes; simpl; now rewrite Hexit).
  rewrite Hev in HP. unfold countAfter in Hc. simpl in Hc. rewrite Hexit in Hc.
  split; [exact HP|]. split; [exact Hc|]. split; [|split].
  - rewrite Hf.
    replace (existsb (evicts W m) (processes m)) with true; [reflexivity|].
    symmetry. apply existsb_exists. now exists (id, p).
  - eexists. split; [exact Hpr|].
    intros Hin. apply in_map_iff in Hin as [e [Hport He]].
    apply filter_In in He as [He Hprobed].
    assert (e = (id, p)).
    { apply (NoDup_map_injective
               (fun e => RunningProc.localPort (snd e)) (processes m));
        try assumption.
      unfold JsMap.values in Hports. now rewrite map_map in Hports. }
    subst e. congruence.
  - eexists. split; [exact Hk|].
    assert (Halive : forall child,
              In child (map (fun e => RunningProc.process (snd e))
                            (filter (strikesOut W m) (processes m))) ->
              exitCode W child = None).
    { intros child Hin. apply in_map_iff in Hin as [e [<- He]].
      apply filter_In in He as [_ Hstrike].
      unfold strikesOut, probes in Hstrike.
      destruct (exitCode W (RunningProc.process (snd e))); [discriminate|reflexivity]. }
    split; [|exact Halive].
    intros Hin. apply Halive in Hin. congruence.
Qed.

Lemma healthCheck_removes_exited_witness :
  JsMap.get String.eqb "stg:ssh:db"
    (processes (healthCheck
                  (Build_World 5000 (fun _ _ => true) (fun _ => Some 255%Z)
                               (fun _ => true) (fun rest => rest)) exRunning)) = None
  /\ fired (healthCheck
              (Build_World 5000 (fun _ _ => true) (fun _ => Some 255%Z)
                           (fun _ => true) (fun rest => rest)) exRunning)
     = S (fired exRunning)
  /\ exists sent,
       killed (healthCheck
                 (Build_World 5000 (fun _ _ => true) (fun _ => Some 255%Z)
                              (fun _ => true) (fun rest => rest)) exRunning)
       = (killed exRunning ++ sent)%list
       /\ ~ In 1%nat sent.
Proof.
  edestruct (healthCheck_removes_exited
               (Build_World 5000 (fun _ _ => true) (fun _ => Some 255%Z)
                            (fun _ => true) (fun rest => rest))
               exRunning "stg:ssh:db" exDbProc 255%Z)
    as [H1 [_ [H3 [_ [sent [Hk [Hnot _]]]]]]];
    [solve_wf|reflexivity|reflexivity|].
  split; [exact H1|]. split; [exact H3|].
  exists sent. split; [exact Hk|exact Hnot].
Defined.

(** X15: One sweep over a reachable state, as a whole. The registry keeps, in
    their order, exactly the entries whose child has not exited and that did
    not strike out; [kill()] goes to exactly the children that struck out and
    the probes to exactly the ports of the entries past the grace period
    whose child has not exited, both in registry order. The sweep spawns
    nothing, leaves the configuration alone and does not touch the failure
    count of a key that is not registered. *)
Theorem healthCheck_sweep : forall W m,
  reachable m ->
  processes (healthCheck W m) = filter (fun e => negb (evicts W m e)) (processes m)
  /\ killed (healthCheck W m)
     = (killed m ++ map (fun e => RunningProc.process (snd e))
                        (filter (strikesOut W m) (processes m)))%list
  /\ probed (healthCheck W m)
     = (probed m ++ map (fun e => RunningProc.localPort (snd e))
                        (filter (probes W) (processes m)))%list
  /\ spawned (healthCheck W m) = spawned m
  /\ envs (healthCheck W m) = envs m
  /\ (forall id, ~ In id (JsMap.keys (processes m)) ->
        JsMap.get String.eqb id (portFailureCounts (healthCheck W m))
        = JsMap.get String.eqb id (portFailureCounts m))
  /\ reachable (healthCheck W m).
Proof.
  intros W m Hr.
  destruct (healthCheck_spec W m (proj1 (reachable_wf m Hr)))
    as [HP [_ [Hk [Hpr [He [Hs [Hothers _]]]]]]].
  repeat split; try assumption. now apply reach_healthCheck.
Qed.

Lemma healthCheck_sweep_witness :
  processes (healthCheck (exWorld false 30000) exRunning) = processes exRunning
  /\ probed (healthCheck (exWorld false 30000) exRunning) = [3316%Z].
Proof.
  destruct (healthCheck_sweep (exWorld false 30000) exRunning exRunning_reachable)
    as [HP [_ [Hpr _]]].
  rewrite HP, Hpr. split; reflexivity.
Defined.

(** ** The listeners of a child *)

(** X16: The [exit] and [error] listeners registered for a child of key [k]
    remove whatever entry is registered under [k] at the time they run, also
    when that entry belongs to a later child of the same key. They send no
    [kill()], touch no other entry and leave the failure counts as they
    are. *)
Theorem listeners_clean_up : forall p m,
  (forall code signal,
     isRunning (RunningProc.key p) (onExit p code signal m) = false
     /\ (forall id, id <> keyToId (RunningProc.key p) ->
           JsMap.get String.eqb id (processes (onExit p code signal m))
           = JsMap.get String.eqb id (processes m))
     /\ killed (onExit p code signal m) = killed m
     /\ portFailureCounts (onExit p code signal m) = portFailureCounts m
     /\ spawned (onExit p code signal m) = spawned m)
  /\ (forall err,
        isRunning (RunningProc.key p) (onError p err m) = false
        /\ (forall id, id <> keyToId (RunningProc.key p) ->
              JsMap.get String.eqb id (processes (onError p err m))
              = JsMap.get String.eqb id (processes m))
        /\ killed (onError p err m) = killed m
        /\ portFailureCounts (onError p err m) = portFailureCounts m
        /\ spawned (onError p err m) = spawned m).
Proof.
  intros p m. split; intros; (split; [|split; [|repeat split]]).
  - unfold isRunning, JsMap.has, onExit. simpl.
    now rewrite (get_delete_same String.eqb).
  - intros id Hne. unfold onExit. simpl.
    apply (get_delete_other String.eqb String_eqb_eq). congruence.
  - unfold isRunning, JsMap.has, onError. simpl.
    now rewrite (get_delete_same String.eqb).
  - intros id Hne. unfold onError. simpl.
    apply (get_delete_other String.eqb String_eqb_eq). congruence.
Qed.

(** A restart overtaken by the [exit] of the first child: the listener of
    the child that [stop] killed removes the entry of its successor, which
    keeps running without a registry entry and without having been sent
    [kill()]. *)
Example exit_of_predecessor :
  isRunning kDb (snd (start (exWorld true 3000) kDb (stop kDb exRunning))) = true
  /\ JsMap.keys
       (processes
          (onExit exDbProc None (Some "SIGTERM")
                  (snd (start (exWorld true 3000) kDb (stop kDb exRunning))))) = []
  /\ killed
       (onExit exDbProc None (Some "SIGTERM")
               (snd (start (exWorld true 3000) kDb (stop kDb exRunning)))) = [1%nat]
  /\ List.length
       (spawned
          (onExit exDbProc None (Some "SIGTERM")
                  (snd (start (exWorld true 3000) kDb (stop kDb exRunning))))) = 4%nat.
Proof. repeat split. Qed.

(** ** [ensureSshKeys] and [addSshKeysIfPresent] *)

(** X17: [ensureSshKeys] makes one [ssh-add -q <file>] call for each distinct
    expanded key path of the named environment that exists on disk, never one
    for a missing file or for an environment that is not configured, and
    nothing else: the registry, the failure counts, the processes killed, the
    notifications and the ports probed are as before. *)
Theorem ensureSshKeys_spec : forall W envId m,
  exists files,
    spawned (ensureSshKeys W envId m)
    = (spawned m ++ map (fun file => ("ssh-add", ["-q"; file])) files)%list
    /\ NoDup files
    /\ (forall file,
          In file files <->
          existsSync W file = true
          /\ exists env keys,
               find (fun e => EnvironmentConfig.id e =? envId) (envs m) = Some env
               /\ EnvironmentConfig.sshAddKeys env = Some keys
               /\ In file (map (expand W) keys))
    /\ sameSupervision m (ensureSshKeys W envId m)
    /\ probed (ensureSshKeys W envId m) = probed m.
Proof.
  intros W envId m. unfold ensureSshKeys.
  destruct (find (fun e => EnvironmentConfig.id e =? envId) (envs m)) as [env|] eqn:Hfind.
  - exists (sshAddFiles W env).
    destruct (addSshKeysIfPresent_spec W env m) as [Hsame [Hpr Hs]].
    unfold sshAddCommands in Hs. unfold sshAddFiles in *.
    set (ks := match EnvironmentConfig.sshAddKeys env with
               | Some ks => ks
               | None => []
               end) in *.
    destruct (unique_spec String.eqb String_eqb_eq (map (expand W) ks)) as [Hnd Hin].
    split; [exact Hs|]. split; [now apply NoDup_filter|].
    split; [|split; assumption].
    intros file. rewrite filter_In, Hin. split.
    + intros [Hf Hex]. split; [assumption|].
      subst ks. destruct (EnvironmentConfig.sshAddKeys env) as [keys|] eqn:Hk.
      * now exists env, keys.
      * destruct Hf.
    + intros [Hex [env' [keys [Hfind' [Hk Hf]]]]].
      injection Hfind' as <-. subst ks. rewrite Hk. now split.
  - exists []. simpl. rewrite app_nil_r.
    split; [reflexivity|]. split; [constructor|].
    split; [|split; [unfold sameSupervision; tauto|reflexivity]].
    intros file. split; [intros []|].
    intros [_ [env [keys [Hfind' _]]]]. discriminate.
Qed.

(** ** The earlier generation of [start] *)

Lemma legacy_launch_then_delete : forall key cmd arguments port m,
  Legacy.isRunning key m = false ->
  JsMap.delete String.eqb (keyToId key)
    (Legacy.processes (Legacy.spawnAndTrack key cmd arguments port m))
  = Legacy.processes m.
Proof.
  intros key cmd arguments port m Hrun.
  unfold Legacy.isRunning, JsMap.has in Hrun.
  destruct (JsMap.get String.eqb (keyToId key) (Legacy.processes m)) eqn:Hget;
    [discriminate|].
  apply (get_None_notin String.eqb String_eqb_eq) in Hget.
  unfold Legacy.spawnAndTrack. cbn [Legacy.processes].
  rewrite (set_notin String.eqb String_eqb_eq) by assumption.
  rewrite (delete_app String.eqb).
  rewrite (delete_notin String.eqb String_eqb_eq) by assumption.
  simpl. rewrite String.eqb_refl. apply app_nil_r.
Qed.

(** The rollback when the child is still registered: [stop] sends it
    [kill()] and the registry is as before the launch. *)
Lemma legacy_stop_after_launch : forall key cmd arguments port m,
  Legacy.isRunning key m = false ->
  Legacy.stop key (Legacy.spawnAndTrack key cmd arguments port m)
  = Legacy.mk (Legacy.envs m) (Legacy.processes m)
      (app (Legacy.output m) ["Started: " ++ cmd ++ " " ++ join " " arguments])
      (Legacy.spawned m ++ [(cmd, arguments)])%list
      (Legacy.killed m ++ [List.length (Legacy.spawned m)])%list.
Proof.
  intros key cmd arguments port m Hrun.
  pose proof (legacy_launch_then_delete key cmd arguments port m Hrun) as Hdel.
  unfold Legacy.stop.
  replace (JsMap.get String.eqb (keyToId key)
             (Legacy.processes (Legacy.spawnAndTrack key cmd arguments port m)))
    with (Some (Legacy.RunningProc.mk key (List.length (Legacy.spawned m))
                  cmd arguments port))
    by (unfold Legacy.spawnAndTrack; cbn [Legacy.processes];
        now rewrite (get_set_same String.eqb String_eqb_eq)).
  rewrite Hdel. reflexivity.
Qed.

(** The rollback when the ['exit'] listener has already run: the child is
    not registered any more and [stop] does nothing. *)
Lemma legacy_stop_after_exit : forall key cmd arguments port code signal m,
  Legacy.isRunning key m = false ->
  Legacy.stop key
    (Legacy.onExit key cmd arguments code signal
       (Legacy.spawnAndTrack key cmd arguments port m))
  = Legacy.onExit key cmd arguments code signal
      (Legacy.spawnAndTrack key cmd arguments port m)
  /\ Legacy.processes
       (Legacy.onExit key cmd arguments code signal
          (Legacy.spawnAndTrack key cmd arguments port m))
     = Legacy.processes m
  /\ Legacy.killed
       (Legacy.onExit key cmd arguments code signal
          (Legacy.spawnAndTrack key cmd arguments port m))
     = Legacy.killed m
  /\ Legacy.spawned
       (Legacy.onExit key cmd arguments code signal
          (Legacy.spawnAndTrack key cmd arguments port m))
     = (Legacy.spawned m ++ [(cmd, arguments)])%list.
Proof.
  intros key cmd arguments port code signal m Hrun.
  pose proof (legacy_launch_then_delete key cmd arguments port m Hrun) as Hdel.
  split; [|split; [exact Hdel|split; reflexivity]].
  unfold Legacy.stop, Legacy.onExit. cbn [Legacy.processes].
  now rewrite (get_delete_same String.eqb).
Qed.

(** X18: The earlier generation launches one child and then waits up to five
    seconds for the local port; the call returns when the port opens and
    throws the message of the kind when it does not. With no ['exit'] event
    of the child during the wait: when the port opens the forward stays
    registered with the child just spawned and nothing is killed, and when it
    does not the child is sent [kill()] and the registry is as it was before
    the call. With an ['exit'] event of the child during the wait, its
    listener has removed the entry: the registry is as it was before the call
    and no [kill()] is sent, whether or not the port opens. *)
Theorem legacy_start_waits_for_port : forall W exited key m env cmd arguments port,
  Legacy.isRunning key m = false ->
  resolve (Legacy.envs m) key = Some (env, cmd, arguments, port) ->
  Legacy.findByPort port m = None ->
  exists legacyArgs,
    Legacy.spawned (snd (Legacy.start W exited key m))
    = (Legacy.spawned m ++ [(cmd, legacyArgs)])%list
    /\ fst (Legacy.start W exited key m)
       = (if Legacy.waitForPort W port 5000 then Returned
          else Thrown (match ForwardKey.kind key with
                       | ssh => "Could not connect for " ++ EnvironmentConfig.name env
                                ++ ":" ++ ForwardKey.id key
                                ++ ". Check config/credentials."
                       | k8s => "Could not start port-forward for "
                                ++ EnvironmentConfig.name env ++ ":" ++ ForwardKey.id key
                                ++ ". Check kubectl context and service."
                       end))
    /\ match exited with
       | None =>
           if Legacy.waitForPort W port 5000
           then Legacy.processes (snd (Legacy.start W exited key m))
                = JsMap.set String.eqb (keyToId key)
                    (Legacy.RunningProc.mk key (List.length (Legacy.spawned m))
                       cmd legacyArgs port)
                    (Legacy.processes m)
                /\ Legacy.isRunning key (snd (Legacy.start W exited key m)) = true
                /\ Legacy.killed (snd (Legacy.start W exited key m)) = Legacy.killed m
           else Legacy.processes (snd (Legacy.start W exited key m)) = Legacy.processes m
                /\ Legacy.killed (snd (Legacy.start W exited key m))
                   = (Legacy.killed m ++ [List.length (Legacy.spawned m)])%list
       | Some _ =>
           Legacy.processes (snd (Legacy.start W exited key m)) = Legacy.processes m
           /\ Legacy.killed (snd (Legacy.start W exited key m)) = Legacy.killed m
       end.
Proof.
  intros W exited key m env cmd arguments port Hrun Hres Hfree.
  assert (Hgen : forall kindCmd legacyArgs message,
            let launched := Legacy.spawnAndTrack key kindCmd legacyArgs port m in
            let r := (if Legacy.waitForPort W port 5000
                      then (Returned, Legacy.afterWait exited key kindCmd legacyArgs launched)
                      else (Thrown message,
                            Legacy.stop key
                              (Legacy.afterWait exited key kindCmd legacyArgs launched))) in
            Legacy.spawned (snd r) = (Legacy.spawned m ++ [(kindCmd, legacyArgs)])%list
            /\ fst r = (if Legacy.waitForPort W port 5000 then Returned else Thrown message)
            /\ match exited with
               | None =>
                   if Legacy.waitForPort W port 5000
                   then Legacy.processes (snd r)
                        = JsMap.set String.eqb (keyToId key)
                            (Legacy.RunningProc.mk key (List.length (Legacy.spawned m))
                               kindCmd legacyArgs port)
                            (Legacy.processes m)
                        /\ Legacy.isRunning key (snd r) = true
                        /\ Legacy.killed (snd r) = Legacy.killed m
                   else Legacy.processes (snd r) = Legacy.processes m
                        /\ Legacy.killed (snd r)
                           = (Legacy.killed m ++ [List.length (Legacy.spawned m)])%list
               | Some _ =>
                   Legacy.processes (snd r) = Legacy.processes m
                   /\ Legacy.killed (snd r) = Legacy.killed m
               end).
  { intros kindCmd legacyArgs message launched r. subst r launched.
    destruct exited as [[code signal]|]; unfold Legacy.afterWait.
    - destruct (legacy_stop_after_exit key kindCmd legacyArgs port code signal m Hrun)
        as [Hstop [HP [Hk Hs]]].
      destruct (Legacy.waitForPort W port 5000); cbn [fst snd];
        [|rewrite Hstop]; repeat split; assumption.
    - destruct (Legacy.waitForPort W port 5000); cbn [fst snd].
      + repeat split. unfold Legacy.isRunning, JsMap.has, Legacy.spawnAndTrack.
        cbn [Legacy.processes]. now rewrite (get_set_same String.eqb String_eqb_eq).
      + rewrite legacy_stop_after_launch by assumption. repeat split. }
  unfold resolve in Hres. unfold Legacy.start. rewrite Hrun.
  destruct (find (fun e => EnvironmentConfig.id e =? ForwardKey.envId key) (Legacy.envs m))
    as [env'|]; [|discriminate].
  destruct (ForwardKey.kind key).
  - destruct (find (fun t => SshTunnel.id t =? ForwardKey.id key)
                   (EnvironmentConfig.sshTunnels env')) as [item|]; [|discriminate].
    injection Hres as E1 E2 E3 E4. subst env' cmd arguments port.
    cbv zeta. rewrite Hfree. exists (Legacy.sshArgs item). apply Hgen.
  - destruct (find (fun f => K8sForward.id f =? ForwardKey.id key)
                   (EnvironmentConfig.k8sForwards env')) as [item|]; [|discriminate].
    injection Hres as E1 E2 E3 E4. subst env' cmd arguments port.
    cbv zeta. rewrite Hfree. exists (kubectlArgs env item). apply Hgen.
Qed.

Lemma legacy_start_waits_for_port_witness :
  exists legacyArgs,
    Legacy.spawned
      (snd (Legacy.start (exWorld false 1000) (Some (Some 255%Z, None)) kDb
              (Legacy.create [exEnv])))
    = [("ssh", legacyArgs)]
    /\ fst (Legacy.start (exWorld false 1000) (Some (Some 255%Z, None)) kDb
              (Legacy.create [exEnv]))
       = Thrown "Could not connect for Staging:db. Check config/credentials."
    /\ Legacy.processes
         (snd (Legacy.start (exWorld false 1000) (Some (Some 255%Z, None)) kDb
                 (Legacy.create [exEnv])))
       = []
    /\ Legacy.killed
         (snd (Legacy.start (exWorld false 1000) (Some (Some 255%Z, None)) kDb
                 (Legacy.create [exEnv])))
       = [].
Proof.
  destruct (legacy_start_waits_for_port (exWorld false 1000) (Some (Some 255%Z, None)) kDb
              (Legacy.create [exEnv]) exEnv "ssh"
              (sshArgs (SshTunnel.mk "db" "database:3316" 3316 "1.2.3.4" 3306 "stg"))
              3316%Z eq_refl eq_refl eq_refl) as [legacyArgs [Hs [Hout H]]].
  exists legacyArgs. split; [exact Hs|]. split; [exact Hout|exact H].
Defined.

(** The same call when the port never opens, with and without an ['exit']
    event of the child during the wait: [kill()] goes to the child only when
    it is still registered. *)
Example legacy_rollback_scenario :
  Legacy.killed
    (snd (Legacy.start (exWorld false 1000) None kDb (Legacy.create [exEnv]))) = [0%nat]
  /\ Legacy.killed
       (snd (Legacy.start (exWorld false 1000) (Some (None, Some "SIGKILL")) kDb
               (Legacy.create [exEnv]))) = []
  /\ Legacy.processes
       (snd (Legacy.start (exWorld true 1000) (Some (Some 255%Z, None)) kDb
               (Legacy.create [exEnv]))) = []
  /\ fst (Legacy.start (exWorld true 1000) (Some (Some 255%Z, None)) kDb
            (Legacy.create [exEnv])) = Returned.
Proof. repeat split. Qed.

(** X19: The earlier generation refuses a port held by a registered forward at
    once: it throws the port message and changes nothing, so the holder is
    neither probed nor removed, whatever the state of its child. *)
Theorem legacy_start_port_held : forall W exited key m env cmd arguments port holder,
  Legacy.isRunning key m = false ->
  resolve (Legacy.envs m) key = Some (env, cmd, arguments, port) ->
  Legacy.findByPort port m = Some holder ->
  Legacy.start W exited key m
  = (Thrown ("Port " ++ numToString port ++ " is already used by another forward"), m).
Proof.
  intros W exited key m env cmd arguments port holder Hrun Hres Hheld.
  unfold resolve in Hres. unfold Legacy.start. rewrite Hrun.
  destruct (find (fun e => EnvironmentConfig.id e =? ForwardKey.envId key) (Legacy.envs m))
    as [env'|]; [|discriminate].
  destruct (ForwardKey.kind key).
  - destruct (find (fun t => SshTunnel.id t =? ForwardKey.id key)
                   (EnvironmentConfig.sshTunnels env')) as [item|]; [|discriminate].
    injection Hres as E1 E2 E3 E4. subst env' cmd arguments port.
    cbv zeta. now rewrite Hheld.
  - destruct (find (fun f => K8sForward.id f =? ForwardKey.id key)
                   (EnvironmentConfig.k8sForwards env')) as [item|]; [|discriminate].
    injection Hres as E1 E2 E3 E4. subst env' cmd arguments port.
    cbv zeta. now rewrite Hheld.
Qed.

Lemma legacy_start_port_held_witness :
  Legacy.start (exWorld false 2000) None kReplica
    (snd (Legacy.start (exWorld true 1000) None kDb (Legacy.create [exEnv])))
  = (Thrown "Port 3316 is already used by another forward",
     snd (Legacy.start (exWorld true 1000) None kDb (Legacy.create [exEnv]))).
Proof.
  eapply (legacy_start_port_held (exWorld false 2000) None kReplica
            (snd (Legacy.start (exWorld true 1000) None kDb (Legacy.create [exEnv])))
            exEnv "ssh" _ 3316%Z); reflexivity.
Defined.
